(** * graph-querying-service: a shallow embedding of the query guard,
      cache key, credential and health logic, and its verification.

    Conventions of the embedding.

    - A Python [str] is the Rocq [string] of its UTF-8 bytes.  For ASCII
      text one byte is one character, and the character classes of
      Python's [re] module ([\w], [\d], [\s], [\b], IGNORECASE) and
      [str.upper] are given below exactly as CPython has them on the
      ASCII range.  Statements that depend on those classes or on
      [len] carry the hypothesis [is_ascii].
    - Messages keep the source's text, accents included.
    - The module-level [settings] object is a record passed explicitly.
    - Calls that leave the process (database, language model, cache,
      clock, logger) are events of a small free monad; a handler threads
      the state of the outside world.
    - Exceptions are values: a function that may raise returns a sum. *)

From Stdlib Require Import Bool Arith ZArith List Ascii String Lia.
From Stdlib Require Import DecimalString DecimalZ DecimalPos Permutation Sorted.
Import ListNotations.

Open Scope list_scope.
Open Scope string_scope.

(* ================================================================== *)
(** * Part I. The model *)
(* ================================================================== *)

(** ** Python strings *)

Module PyStr.

Definition code (c : ascii) : nat := nat_of_ascii c.

Definition in_range (lo hi : nat) (c : ascii) : bool :=
  Nat.leb lo (code c) && Nat.leb (code c) hi.

Definition is_ascii_char (c : ascii) : bool := Nat.ltb (code c) 128.

Fixpoint all_chars (p : ascii -> bool) (s : string) : bool :=
  match s with
  | EmptyString => true
  | String c t => p c && all_chars p t
  end.

Fixpoint any_char (p : ascii -> bool) (s : string) : bool :=
  match s with
  | EmptyString => false
  | String c t => p c || any_char p t
  end.

Definition is_ascii (s : string) : bool := all_chars is_ascii_char s.

(** [[A-Z]], [[a-z]] and [\d] on ASCII. *)
Definition is_upper_az (c : ascii) : bool := in_range 65 90 c.
Definition is_lower_az (c : ascii) : bool := in_range 97 122 c.
Definition is_digit (c : ascii) : bool := in_range 48 57 c.

(** [\w] on ASCII: letters, digits and the underscore. *)
Definition is_word (c : ascii) : bool :=
  is_upper_az c || is_lower_az c || is_digit c || Nat.eqb (code c) 95.

(** [\s] on ASCII for a [str] pattern: TAB, LF, VT, FF, CR, the four
    separators FS, GS, RS, US, and the space. *)
Definition is_space (c : ascii) : bool :=
  in_range 9 13 c || in_range 28 31 c || Nat.eqb (code c) 32.

(** [str.upper] and [str.lower], character by character, on ASCII. *)
Definition upper_char (c : ascii) : ascii :=
  if is_lower_az c then ascii_of_nat (code c - 32) else c.

Definition lower_char (c : ascii) : ascii :=
  if is_upper_az c then ascii_of_nat (code c + 32) else c.

Fixpoint map_chars (f : ascii -> ascii) (s : string) : string :=
  match s with
  | EmptyString => EmptyString
  | String c t => String (f c) (map_chars f t)
  end.

Definition upper (s : string) : string := map_chars upper_char s.

Definition is_empty (s : string) : bool :=
  match s with EmptyString => true | _ => false end.

Definition head (s : string) : option ascii :=
  match s with EmptyString => None | String c _ => Some c end.

(** [sub in s]. *)
Fixpoint contains (sub s : string) : bool :=
  prefix sub s ||
  match s with
  | EmptyString => false
  | String _ t => contains sub t
  end.

(** [s.rstrip(c)] for a one-character set. *)
Fixpoint rstrip (c : ascii) (s : string) : string :=
  match s with
  | EmptyString => EmptyString
  | String a t =>
      let t' := rstrip c t in
      if is_empty t' && Ascii.eqb a c then EmptyString else String a t'
  end.

(** [s.split(c)[-1]]: what follows the last occurrence of [c]. *)
Fixpoint after_last (c : ascii) (s : string) : string :=
  match s with
  | EmptyString => EmptyString
  | String a t =>
      if any_char (Ascii.eqb c) t then after_last c t
      else if Ascii.eqb a c then t else s
  end.

(** [s.rsplit(c, 1)] when [c] occurs in [s]: the text before and the text
    after the last occurrence. *)
Fixpoint before_last (c : ascii) (s : string) : string :=
  match s with
  | EmptyString => EmptyString
  | String a t =>
      if any_char (Ascii.eqb c) t then String a (before_last c t)
      else EmptyString
  end.

(** [s[:n]]. *)
Fixpoint take (n : nat) (s : string) : string :=
  match n, s with
  | S k, String a t => String a (take k t)
  | _, _ => EmptyString
  end.

(** The 256 characters, to decide a property of characters by
    enumeration. *)
Definition all_ascii : list ascii := map ascii_of_nat (seq 0 256).

(** The last character of [s], or [prev] when [s] is empty. *)
Fixpoint last_or (prev : option ascii) (s : string) : option ascii :=
  match s with
  | EmptyString => prev
  | String c t => last_or (Some c) t
  end.

Definition last_char (s : string) : option ascii := last_or None s.

(** [c * n]. *)
Fixpoint repeat_char (c : ascii) (n : nat) : string :=
  match n with
  | O => EmptyString
  | S k => String c (repeat_char c k)
  end.

(** [str(n)] for an integer. *)
Definition str_of_int (z : Z) : string := NilZero.string_of_int (Z.to_int z).

End PyStr.

(** ** The fragment of [re] the service uses *)

Module Re.
Import PyStr.

(** The patterns of the service are sequences of these items. *)
Inductive atom : Type :=
| Bnd                        (** [\b] *)
| Chr (c : ascii)            (** a literal character *)
| ChrI (c : ascii)           (** a literal character under IGNORECASE *)
| Cls (p : ascii -> bool)    (** one character of a class *)
| Plus (p : ascii -> bool).  (** [class+] *)

Definition regex : Type := list atom.

Fixpoint lit (s : string) : regex :=
  match s with
  | EmptyString => []
  | String c t => Chr c :: lit t
  end.

Fixpoint lit_i (s : string) : regex :=
  match s with
  | EmptyString => []
  | String c t => ChrI c :: lit_i t
  end.

Definition word_opt (o : option ascii) : bool :=
  match o with Some c => is_word c | None => false end.

(** [\b] holds between [prev] and the head of the rest when exactly one
    side is a word character; the ends of the text count as non-word. *)
Definition at_boundary (prev : option ascii) (s : string) : bool :=
  xorb (word_opt prev) (word_opt (head s)).

Definition eq_ignore_case (x c : ascii) : bool :=
  Ascii.eqb (lower_char x) (lower_char c).

(** Does the pattern match at the current position?  [prev] is the
    character before it. *)
Fixpoint match_here (s : string) : option ascii -> regex -> bool :=
  fix go (prev : option ascii) (r : regex) {struct r} : bool :=
    match r with
    | [] => true
    | Bnd :: r' => at_boundary prev s && go prev r'
    | Chr c :: r' =>
        match s with
        | EmptyString => false
        | String x t => Ascii.eqb x c && match_here t (Some x) r'
        end
    | ChrI c :: r' =>
        match s with
        | EmptyString => false
        | String x t => eq_ignore_case x c && match_here t (Some x) r'
        end
    | Cls p :: r' =>
        match s with
        | EmptyString => false
        | String x t => p x && match_here t (Some x) r'
        end
    | Plus p :: r' =>
        match s with
        | EmptyString => false
        | String x t =>
            p x && (match_here t (Some x) (Plus p :: r')
                    || match_here t (Some x) r')
        end
    end.

Fixpoint search_from (r : regex) (prev : option ascii) (s : string) : bool :=
  match_here s prev r ||
  match s with
  | EmptyString => false
  | String c t => search_from r (Some c) t
  end.

(** What a pattern means, independently of the search procedure:
    [Matches prev r m rest] says that [r] matches the text [m] when [prev]
    is the character before it and [rest] the text after it. *)
Inductive Matches : option ascii -> regex -> string -> string -> Prop :=
| M_nil prev rest : Matches prev [] "" rest
| M_bnd prev r m rest :
    at_boundary prev (m ++ rest) = true ->
    Matches prev r m rest ->
    Matches prev (Bnd :: r) m rest
| M_chr prev c r m rest :
    Matches (Some c) r m rest ->
    Matches prev (Chr c :: r) (String c m) rest
| M_chri prev x c r m rest :
    eq_ignore_case x c = true ->
    Matches (Some x) r m rest ->
    Matches prev (ChrI c :: r) (String x m) rest
| M_cls prev p x r m rest :
    p x = true ->
    Matches (Some x) r m rest ->
    Matches prev (Cls p :: r) (String x m) rest
| M_plus_last prev p x r m rest :
    p x = true ->
    Matches (Some x) r m rest ->
    Matches prev (Plus p :: r) (String x m) rest
| M_plus_more prev p x r m rest :
    p x = true ->
    Matches (Some x) (Plus p :: r) m rest ->
    Matches prev (Plus p :: r) (String x m) rest.

(** [bool(re.search(pattern, s))]. *)
Definition search (r : regex) (s : string) : bool := search_from r None s.

(** [re.sub] of a one-character class by a fixed character. *)
Definition sub_class (p : ascii -> bool) (repl : ascii) (s : string) : string :=
  map_chars (fun c => if p c then repl else c) s.

End Re.

(** ** Exceptions (app/core/exceptions.py and the built-in ones) *)

Inductive exn : Type :=
| ValueError (msg : string)
| TypeError (msg : string)
| OverflowError (msg : string)
| UnauthorizedError (detail : string)
| InvalidCypherQueryError (detail : string)
| QueryExecutionError (detail : string)
| LLMServiceError (detail : string)
| OtherError (class_name : string) (msg : string).

Inductive result (A : Type) : Type :=
| Return (a : A)
| Raise (e : exn).

Arguments Return {A} a.
Arguments Raise {A} e.

Definition raises {A : Type} (r : result A) : bool :=
  match r with Return _ => false | Raise _ => true end.

(** The exceptions of app/core/exceptions.py are [HTTPException]s; the
    built-in ones are not. *)
Definition is_http_exception (e : exn) : bool :=
  match e with
  | UnauthorizedError _ => true
  | InvalidCypherQueryError _ => true
  | QueryExecutionError _ => true
  | LLMServiceError _ => true
  | _ => false
  end.

(** ** Configuration (app/core/config.py) *)

Record Settings : Type := {
  enable_read_only_mode : bool;
  default_query_limit : Z;
  max_query_results : Z;
  password_min_length : Z;
  password_require_uppercase : bool;
  password_require_lowercase : bool;
  password_require_digit : bool;
  password_require_special : bool;
  secret_key : string;
  algorithm : string;
  access_token_expire_minutes : Z;
  refresh_token_expire_days : Z
}.

(** The defaults of the [Field] declarations; the secret key, random when
    unset, is fixed here. *)
Definition default_settings : Settings := {|
  enable_read_only_mode := true;
  default_query_limit := 100;
  max_query_results := 1000;
  password_min_length := 8;
  password_require_uppercase := true;
  password_require_lowercase := true;
  password_require_digit := true;
  password_require_special := true;
  secret_key := "secret";
  algorithm := "HS256";
  access_token_expire_minutes := 30;
  refresh_token_expire_days := 7
|}.

(** The default settings with read-only mode switched as given. *)
Definition init_read_only (enabled : bool) : Settings := {|
  enable_read_only_mode := enabled;
  default_query_limit := default_query_limit default_settings;
  max_query_results := max_query_results default_settings;
  password_min_length := password_min_length default_settings;
  password_require_uppercase := password_require_uppercase default_settings;
  password_require_lowercase := password_require_lowercase default_settings;
  password_require_digit := password_require_digit default_settings;
  password_require_special := password_require_special default_settings;
  secret_key := secret_key default_settings;
  algorithm := algorithm default_settings;
  access_token_expire_minutes := access_token_expire_minutes default_settings;
  refresh_token_expire_days := refresh_token_expire_days default_settings
|}.

(** The [ge]/[le] bounds that pydantic enforces when the settings load. *)
Definition settings_valid (cfg : Settings) : Prop :=
  (1 <= default_query_limit cfg <= 1000)%Z /\
  (1 <= max_query_results cfg <= 10000)%Z /\
  (6 <= password_min_length cfg)%Z /\
  (1 <= access_token_expire_minutes cfg)%Z /\
  (1 <= refresh_token_expire_days cfg)%Z.

(** ** app/graphrag/query_optimizer.py *)

Module QueryOptimizer.
Import PyStr Re.

(** [r'\bLIMIT\s+\d+'] with [re.IGNORECASE]. *)
Definition LIMIT_RE : regex :=
  Bnd :: (lit_i "LIMIT" ++ [Plus is_space; Plus is_digit])%list.

Definition _has_limit (cypher : string) : bool := search LIMIT_RE cypher.

Definition _add_limit (cypher : string) (limit : Z) : string :=
  rstrip ";" cypher ++ " LIMIT " ++ str_of_int limit.

Definition DANGEROUS_KEYWORDS : list string :=
  ["CREATE"; "DELETE"; "REMOVE"; "SET"; "MERGE"; "DROP"; "ALTER";
   "DETACH DELETE"].

(** The object built by [__init__]. *)
Record t : Type := {
  max_results : Z;
  default_limit : Z
}.

Definition init (cfg : Settings) : t := {|
  max_results := max_query_results cfg;
  default_limit := default_query_limit cfg
|}.

Definition optimize (self : t) (cypher : string) : string :=
  if negb (_has_limit cypher) then _add_limit cypher (default_limit self)
  else cypher.

(** [r'\b' + keyword + r'\b']. *)
Definition keyword_re (keyword : string) : regex :=
  Bnd :: (lit keyword ++ [Bnd])%list.

Definition forbidden_msg (keyword : string) : string :=
  "Opération non autorisée: " ++ keyword.

Definition is_read_only (cfg : Settings) (cypher : string) : bool * string :=
  if negb (enable_read_only_mode cfg) then (true, "")
  else
    let cypher_upper := upper cypher in
    match find (fun keyword => search (keyword_re keyword) cypher_upper)
               DANGEROUS_KEYWORDS with
    | Some keyword => (false, forbidden_msg keyword)
    | None => (true, "")
    end.

(** The two notions in the words of the specification, to compare the
    searches with.

    A [LIMIT <digits>] clause: the word LIMIT in any case, not preceded
    by a word character, then white space, then digits. *)
Definition has_limit_clause (q : string) : Prop :=
  exists pre kw ws ds post,
    q = pre ++ kw ++ ws ++ ds ++ post
    /\ upper kw = "LIMIT"
    /\ word_opt (last_char pre) = false
    /\ ws <> "" /\ all_chars is_space ws = true
    /\ ds <> "" /\ all_chars is_digit ds = true.

(** A keyword as a case-insensitive whole word: some stretch of the
    query reads [keyword] up to case, with no word character just before
    or just after it. *)
Definition has_word (keyword q : string) : Prop :=
  exists pre mid post,
    q = pre ++ mid ++ post
    /\ upper mid = keyword
    /\ word_opt (last_char pre) = false
    /\ word_opt (head post) = false.

End QueryOptimizer.

(** ** app/utils/sanitizers.py: PathSanitizer *)

Module PathSanitizer.
Import PyStr Re.

Definition FORBIDDEN_CHARS : list string :=
  [".."; "~"; "\"; "|"; ">"; "<"; "?"; "*"].

(** [[^\w.-]]. *)
Definition not_name_char (c : ascii) : bool :=
  negb (is_word c || Ascii.eqb c "." || Ascii.eqb c "-").

Definition forbidden_in_name (char : string) : string :=
  "Caractère interdit dans le nom: " ++ char.

Definition sanitize_filename (filename : string) : result string :=
  let filename := after_last "\" (after_last "/" filename) in
  match find (fun char => contains char filename) FORBIDDEN_CHARS with
  | Some char => Raise (ValueError (forbidden_in_name char))
  | None =>
      let filename := sub_class not_name_char "_" filename in
      if Nat.ltb 255 (length filename) then
        let name :=
          if contains "." filename then before_last "." filename
          else filename in
        let ext :=
          if contains "." filename then after_last "." filename
          else "" in
        Return (take 250 name ++ (if is_empty ext then "" else "." ++ ext))
      else Return filename
  end.

(** The last path component, as the first line of [sanitize_filename]
    computes it. *)
Definition basename (filename : string) : string :=
  after_last "\" (after_last "/" filename).

(** The characters [re.sub] keeps: [[\w.-]]. *)
Definition name_char (c : ascii) : bool :=
  is_word c || Ascii.eqb c "." || Ascii.eqb c "-".

(** The extension that the length limit keeps: of the last component,
    the text after its last dot, and nothing when it has no dot. *)
Definition extension (filename : string) : string :=
  if contains "." (basename filename)
  then after_last "." (basename filename)
  else "".

End PathSanitizer.

(** ** app/core/security.py: PasswordValidator *)

Module PasswordValidator.
Import PyStr Re.

(** The characters of the class that [validate] searches for last; the
    double quote is character 34. *)
Definition SPECIAL_CHARS : string :=
  "!@#$%^&*(),.?" ++ String (ascii_of_nat 34) ":{}|<>".

Definition is_special (c : ascii) : bool := any_char (Ascii.eqb c) SPECIAL_CHARS.

Definition msg_length (cfg : Settings) : string :=
  "Le mot de passe doit contenir au moins "
    ++ str_of_int (password_min_length cfg) ++ " caractères".
Definition msg_uppercase : string :=
  "Le mot de passe doit contenir au moins une majuscule".
Definition msg_lowercase : string :=
  "Le mot de passe doit contenir au moins une minuscule".
Definition msg_digit : string :=
  "Le mot de passe doit contenir au moins un chiffre".
Definition msg_special : string :=
  "Le mot de passe doit contenir au moins un caractère spécial".

(** [errors.append(msg)] under a condition. *)
Definition append_if (cond : bool) (msg : string) (errors : list string)
  : list string :=
  if cond then (errors ++ [msg])%list else errors.

Definition validate (cfg : Settings) (password : string) : bool * list string :=
  let errors := [] in
  let errors :=
    append_if (Z.ltb (Z.of_nat (length password)) (password_min_length cfg))
              (msg_length cfg) errors in
  let errors :=
    append_if (password_require_uppercase cfg
               && negb (search [Cls is_upper_az] password))
              msg_uppercase errors in
  let errors :=
    append_if (password_require_lowercase cfg
               && negb (search [Cls is_lower_az] password))
              msg_lowercase errors in
  let errors :=
    append_if (password_require_digit cfg
               && negb (search [Cls is_digit] password))
              msg_digit errors in
  let errors :=
    append_if (password_require_special cfg
               && negb (search [Cls is_special] password))
              msg_special errors in
  (Nat.eqb (List.length errors) 0, errors).

(** The policy in the words of the specification, to compare [validate]
    with: five rules, each violated or not. *)
Inductive rule : Type :=
| MinLength | Uppercase | Lowercase | Digit | Special.

Definition rules : list rule :=
  [MinLength; Uppercase; Lowercase; Digit; Special].

Definition violated (cfg : Settings) (password : string) (r : rule) : bool :=
  match r with
  | MinLength => Z.ltb (Z.of_nat (length password)) (password_min_length cfg)
  | Uppercase =>
      password_require_uppercase cfg && negb (any_char is_upper_az password)
  | Lowercase =>
      password_require_lowercase cfg && negb (any_char is_lower_az password)
  | Digit => password_require_digit cfg && negb (any_char is_digit password)
  | Special =>
      password_require_special cfg && negb (any_char is_special password)
  end.

Definition message (cfg : Settings) (r : rule) : string :=
  match r with
  | MinLength => msg_length cfg
  | Uppercase => msg_uppercase
  | Lowercase => msg_lowercase
  | Digit => msg_digit
  | Special => msg_special
  end.

End PasswordValidator.

(** ** app/api/v1/endpoints/health.py *)

Module Health.

(** app/models/enums.py *)
Inductive ServiceStatus : Type :=
| HEALTHY | DEGRADED | UNAVAILABLE | STARTING | STOPPING.

Definition status_value (s : ServiceStatus) : string :=
  match s with
  | HEALTHY => "healthy"
  | DEGRADED => "degraded"
  | UNAVAILABLE => "unavailable"
  | STARTING => "starting"
  | STOPPING => "stopping"
  end.

Record ComponentHealth : Type := {
  c_success : bool;
  c_status : ServiceStatus;
  c_message : string
}.

Record HealthResponse : Type := {
  success : bool;
  status : ServiceStatus;
  components : list (string * ComponentHealth)
}.

(** The results of the three probes, and whether the cache is enabled. *)
Record Probes : Type := {
  neo4j_healthy : bool;
  llm_healthy : bool;
  cache_healthy : bool;
  cache_enabled : bool
}.

(** [health_check], latencies, version and environment left out. *)
Definition health_check (p : Probes) : HealthResponse :=
  let components :=
    [("neo4j",
      {| c_success := true;
         c_status := if neo4j_healthy p then HEALTHY else UNAVAILABLE;
         c_message := if neo4j_healthy p then "Connecté" else "Déconnecté" |});
     ("llm",
      {| c_success := true;
         c_status := if llm_healthy p then HEALTHY else UNAVAILABLE;
         c_message := if llm_healthy p then "Disponible" else "Indisponible" |});
     ("cache",
      {| c_success := true;
         c_status := if cache_healthy p then HEALTHY else DEGRADED;
         c_message := if cache_enabled p then "Activé" else "Désactivé" |})] in
  let global_status :=
    if neo4j_healthy p && llm_healthy p then HEALTHY
    else if neo4j_healthy p || llm_healthy p then DEGRADED
    else UNAVAILABLE in
  {| success := true; status := global_status; components := components |}.

(** The classification in the words of the specification, to compare
    [health_check] with. *)
Definition overall_status (database model : bool) : string :=
  if database && model then "healthy"
  else if xorb database model then "degraded"
  else "unavailable".

End Health.

(** ** Python dictionaries

    A [dict] keeps its items in insertion order; keys are strings. *)

Module PyDict.

Definition dict (V : Type) : Type := list (string * V).

Fixpoint get {V : Type} (d : dict V) (k : string) : option V :=
  match d with
  | [] => None
  | (k', v) :: t => if String.eqb k' k then Some v else get t k
  end.

(** [d[k] = v]: an existing key keeps its place. *)
Fixpoint set {V : Type} (d : dict V) (k : string) (v : V) : dict V :=
  match d with
  | [] => [(k, v)]
  | (k', v') :: t =>
      if String.eqb k' k then (k', v) :: t else (k', v') :: set t k v
  end.

(** [d.update(other)]. *)
Definition update {V : Type} (d other : dict V) : dict V :=
  fold_left (fun acc kv => set acc (fst kv) (snd kv)) other d.

Definition keys {V : Type} (d : dict V) : list string := map fst d.

(** A well-formed dictionary has no repeated key. *)
Definition wf {V : Type} (d : dict V) : Prop := NoDup (keys d).

End PyDict.

(** ** [hashlib.sha256] (FIPS 180-4) on byte strings *)

Module Sha256.
Local Open Scope Z_scope.

Definition mask32 : Z := 0xffffffff.
Definition w32 (x : Z) : Z := Z.land x mask32.
Definition add32 (x y : Z) : Z := w32 (x + y).
Definition rotr (n x : Z) : Z :=
  Z.lor (Z.shiftr x n) (w32 (Z.shiftl x (32 - n))).
Definition not32 (x : Z) : Z := Z.lxor x mask32.
Definition xor3 (x y z : Z) : Z := Z.lxor (Z.lxor x y) z.

Definition Ch (x y z : Z) : Z := Z.lxor (Z.land x y) (Z.land (not32 x) z).
Definition Maj (x y z : Z) : Z :=
  xor3 (Z.land x y) (Z.land x z) (Z.land y z).
Definition Sigma0 (x : Z) : Z := xor3 (rotr 2 x) (rotr 13 x) (rotr 22 x).
Definition Sigma1 (x : Z) : Z := xor3 (rotr 6 x) (rotr 11 x) (rotr 25 x).
Definition sigma0 (x : Z) : Z := xor3 (rotr 7 x) (rotr 18 x) (Z.shiftr x 3).
Definition sigma1 (x : Z) : Z := xor3 (rotr 17 x) (rotr 19 x) (Z.shiftr x 10).

(** The first [n] primes, by trial division. *)
Definition is_prime (p : nat) : bool :=
  forallb (fun d => negb (Nat.eqb (Nat.modulo p d) 0)) (seq 2 (p - 2)).

Definition first_primes (n : nat) : list Z :=
  map Z.of_nat (firstn n (filter is_prime (seq 2 400))).

(** The integer cube root, one bit at a time from bit [bits - 1] down. *)
Fixpoint cube_root (bits : nat) (x r : Z) : Z :=
  match bits with
  | O => r
  | S b =>
      let r' := r + Z.shiftl 1 (Z.of_nat b) in
      cube_root b x (if r' * r' * r' <=? x then r' else r)
  end.

(** The round constants: the first 32 bits of the fractional parts of the
    cube roots of the first 64 primes. *)
Definition K : list Z :=
  Eval vm_compute in
    map (fun p => w32 (cube_root 40 (Z.shiftl p 96) 0)) (first_primes 64).

(** The initial hash value: the same for the square roots of the first 8
    primes. *)
Definition H0 : list Z :=
  Eval vm_compute in
    map (fun p => w32 (Z.sqrt (Z.shiftl p 64))) (first_primes 8).

Definition byte_of_ascii (c : ascii) : Z := Z.of_N (N_of_ascii c).

Fixpoint bytes_of_string (s : string) : list Z :=
  match s with
  | EmptyString => []
  | String c t => byte_of_ascii c :: bytes_of_string t
  end.

(** Big-endian bytes of [x], [n] of them. *)
Fixpoint be_bytes (n : nat) (x : Z) : list Z :=
  match n with
  | O => []
  | S k => Z.land (Z.shiftr x (8 * Z.of_nat k)) 0xff :: be_bytes k x
  end.

(** The message, the byte [0x80], zeros up to 56 modulo 64, and the bit
    length on eight bytes. *)
Definition pad (msg : list Z) : list Z :=
  let len := Z.of_nat (List.length msg) in
  let zeros := Z.to_nat ((55 - len) mod 64) in
  (msg ++ 0x80 :: repeat 0 zeros ++ be_bytes 8 (8 * len))%list.

Fixpoint words (fuel : nat) (bs : list Z) : list Z :=
  match fuel, bs with
  | S k, b0 :: b1 :: b2 :: b3 :: t =>
      (Z.shiftl b0 24 + Z.shiftl b1 16 + Z.shiftl b2 8 + b3) :: words k t
  | _, _ => []
  end.

Definition nth_word (w : list Z) (i : nat) : Z := nth i w 0.

(** The message schedule: [n] more words after the ones in [w]. *)
Fixpoint schedule (n : nat) (w : list Z) : list Z :=
  match n with
  | O => w
  | S k =>
      let i := List.length w in
      let x := add32 (add32 (sigma1 (nth_word w (i - 2))) (nth_word w (i - 7)))
                     (add32 (sigma0 (nth_word w (i - 15))) (nth_word w (i - 16))) in
      schedule k (w ++ [x])%list
  end.

Record regs : Type := {
  ra : Z; rb : Z; rc : Z; rd : Z; re : Z; rf : Z; rg : Z; rh : Z
}.

Definition round (s : regs) (kw : Z * Z) : regs :=
  let t1 := add32 (add32 (add32 (rh s) (Sigma1 (re s)))
                         (add32 (Ch (re s) (rf s) (rg s)) (fst kw)))
                  (snd kw) in
  let t2 := add32 (Sigma0 (ra s)) (Maj (ra s) (rb s) (rc s)) in
  {| ra := add32 t1 t2; rb := ra s; rc := rb s; rd := rc s;
     re := add32 (rd s) t1; rf := re s; rg := rf s; rh := rg s |}.

Definition regs_of (h : list Z) : regs :=
  {| ra := nth_word h 0; rb := nth_word h 1; rc := nth_word h 2;
     rd := nth_word h 3; re := nth_word h 4; rf := nth_word h 5;
     rg := nth_word h 6; rh := nth_word h 7 |}.

Definition list_of (s : regs) : list Z :=
  [ra s; rb s; rc s; rd s; re s; rf s; rg s; rh s].

Definition compress (h : list Z) (block : list Z) : list Z :=
  let w := schedule 48 (words 16 block) in
  let s := fold_left round (combine K w) (regs_of h) in
  map (fun p => add32 (fst p) (snd p)) (combine h (list_of s)).

Fixpoint blocks (fuel : nat) (bs : list Z) : list (list Z) :=
  match fuel, bs with
  | S k, _ :: _ => firstn 64 bs :: blocks k (skipn 64 bs)
  | _, _ => []
  end.

Definition digest (msg : list Z) : list Z :=
  let padded := pad msg in
  fold_left compress (blocks (List.length padded) padded) H0.

Definition hex_char (n : Z) : ascii :=
  if n <? 10 then ascii_of_N (Z.to_N (48 + n))
  else ascii_of_N (Z.to_N (87 + n)).

Fixpoint hex_of (digits : nat) (x : Z) : string :=
  match digits with
  | O => EmptyString
  | S k => String (hex_char (Z.land (Z.shiftr x (4 * Z.of_nat k)) 0xf))
                  (hex_of k x)
  end.

(** [hashlib.sha256(data).hexdigest()]. *)
Definition hexdigest (msg : list Z) : string :=
  String.concat "" (map (hex_of 8) (digest msg)).

End Sha256.

(** ** [json.dumps(obj, sort_keys=True)] *)

Module Json.
Import PyStr PyDict.

(** The values [json.dumps] is given: JSON data, and tuples, which it
    writes like lists. *)
#[local] Set Warnings "-register-all".
Inductive pyval : Type :=
| PNone
| PBool (b : bool)
| PInt (z : Z)
| PStr (s : string)
| PList (l : list pyval)
| PTuple (l : list pyval)
| PDict (d : list (string * pyval)).

Definition dquote : ascii := ascii_of_nat 34.
Definition backslash : ascii := ascii_of_nat 92.

Definition hex_nibble (n : nat) : ascii :=
  if Nat.ltb n 10 then ascii_of_nat (48 + n) else ascii_of_nat (87 + n).

(** [ensure_ascii] escaping of one ASCII character.  Outside ASCII
    [json.dumps] escapes the code point, not the bytes of its UTF-8
    form, so [dumps] is the text of [json.dumps] for values whose
    strings are ASCII ([ascii_pyval] below). *)
Definition escape_char (c : ascii) : string :=
  let n := code c in
  if Nat.eqb n 34 then String backslash (String dquote "")
  else if Nat.eqb n 92 then String backslash (String backslash "")
  else if Nat.eqb n 10 then String backslash "n"
  else if Nat.eqb n 13 then String backslash "r"
  else if Nat.eqb n 9 then String backslash "t"
  else if Nat.eqb n 8 then String backslash "b"
  else if Nat.eqb n 12 then String backslash "f"
  else if in_range 32 126 c then String c ""
  else String backslash
         (String "u" (String "0" (String "0"
           (String (hex_nibble (n / 16)) (String (hex_nibble (n mod 16)) ""))))).

Fixpoint escape (s : string) : string :=
  match s with
  | EmptyString => EmptyString
  | String c t => escape_char c ++ escape t
  end.

Definition quote (s : string) : string :=
  String dquote (escape s ++ String dquote "").

(** Reading one escaped character back, as [json.loads] does inside a
    string. *)
Definition unhex (c : ascii) : option nat :=
  if is_digit c then Some (code c - 48)
  else if in_range 97 102 c then Some (code c - 87)
  else None.

Definition unescape_head (s : string) : option (ascii * string) :=
  match s with
  | EmptyString => None
  | String c t =>
      if negb (Ascii.eqb c backslash) then Some (c, t)
      else
        match t with
        | EmptyString => None
        | String e t' =>
            if Ascii.eqb e dquote then Some (dquote, t')
            else if Ascii.eqb e backslash then Some (backslash, t')
            else if Ascii.eqb e "n" then Some (ascii_of_nat 10, t')
            else if Ascii.eqb e "r" then Some (ascii_of_nat 13, t')
            else if Ascii.eqb e "t" then Some (ascii_of_nat 9, t')
            else if Ascii.eqb e "b" then Some (ascii_of_nat 8, t')
            else if Ascii.eqb e "f" then Some (ascii_of_nat 12, t')
            else if Ascii.eqb e "u" then
              match t' with
              | String _ (String _ (String h (String l t''))) =>
                  match unhex h, unhex l with
                  | Some a, Some b => Some (ascii_of_nat (16 * a + b), t'')
                  | _, _ => None
                  end
              | _ => None
              end
            else None
        end
  end.

(** Insertion into a list of items sorted by key. *)
Fixpoint insert_item (kv : string * string) (l : list (string * string))
  : list (string * string) :=
  match l with
  | [] => [kv]
  | kv' :: t =>
      if String.leb (fst kv) (fst kv') then kv :: l
      else kv' :: insert_item kv t
  end.

(** [sorted(items)] for items with pairwise different keys. *)
Fixpoint sort_items (l : list (string * string)) : list (string * string) :=
  match l with
  | [] => []
  | kv :: t => insert_item kv (sort_items t)
  end.

(** The order [sorted] puts the items in: by key. *)
Definition key_le (a b : string * string) : Prop :=
  String.leb (fst a) (fst b) = true.

Definition item_text (kv : string * string) : string :=
  quote (fst kv) ++ ": " ++ snd kv.

Fixpoint dumps (v : pyval) : string :=
  match v with
  | PNone => "null"
  | PBool true => "true"
  | PBool false => "false"
  | PInt z => str_of_int z
  | PStr s => quote s
  | PList l => "[" ++ String.concat ", " (map dumps l) ++ "]"
  | PTuple l => "[" ++ String.concat ", " (map dumps l) ++ "]"
  | PDict d =>
      "{" ++ String.concat ", "
               (map item_text
                  (sort_items (map (fun kv => (fst kv, dumps (snd kv))) d)))
          ++ "}"
  end.

(** Insertion sort by key for items of any kind: the order [sort_items]
    puts the written items in, for items not yet written. *)
Fixpoint insert_by_key {A : Type} (kv : string * A) (l : list (string * A))
  : list (string * A) :=
  match l with
  | [] => [kv]
  | kv' :: t =>
      if String.leb (fst kv) (fst kv') then kv :: l
      else kv' :: insert_by_key kv t
  end.

Fixpoint sort_by_key {A : Type} (l : list (string * A)) : list (string * A) :=
  match l with
  | [] => []
  | kv :: t => insert_by_key kv (sort_by_key t)
  end.

(** The JSON form of a value, which is what [dumps] keeps of it: a tuple
    becomes the list of its items, and the items of a dictionary come in
    the order of their keys. *)
Fixpoint json_form (v : pyval) : pyval :=
  match v with
  | PList l => PList (map json_form l)
  | PTuple l => PList (map json_form l)
  | PDict d =>
      PDict (sort_by_key (map (fun kv => (fst kv, json_form (snd kv))) d))
  | other => other
  end.

(** Values without a tuple inside. *)
Fixpoint tuple_free (v : pyval) : bool :=
  match v with
  | PList l => forallb tuple_free l
  | PTuple _ => false
  | PDict d => forallb (fun kv => tuple_free (snd kv)) d
  | _ => true
  end.

(** Values made of [None], booleans, integers, strings and lists of
    these. *)
Fixpoint plain (v : pyval) : bool :=
  match v with
  | PList l => forallb plain l
  | PTuple _ => false
  | PDict _ => false
  | _ => true
  end.

(** Values whose strings and keys are ASCII, where [escape_char] is
    exact. *)
Fixpoint ascii_pyval (v : pyval) : bool :=
  match v with
  | PStr s => is_ascii s
  | PList l => forallb ascii_pyval l
  | PTuple l => forallb ascii_pyval l
  | PDict d => forallb (fun kv => is_ascii (fst kv) && ascii_pyval (snd kv)) d
  | _ => true
  end.

(** A text that does not go on with a digit. *)
Definition no_digit_ahead (r : string) : Prop :=
  forall c, head r = Some c -> is_digit c = false.

End Json.

(** ** app/services/cache_service.py *)

Module CacheService.
Import PyStr PyDict Json.

(** [params or {}]: [None] and the empty dictionary both give [{}]. *)
Definition or_empty (params : option (dict pyval)) : dict pyval :=
  match params with
  | Some d => d
  | None => []
  end.

(** The text that is hashed. *)
Definition key_data (query : string) (params : option (dict pyval)) : string :=
  query ++ ":" ++ dumps (PDict (or_empty params)).

Definition _generate_key (query : string) (params : option (dict pyval))
  : string :=
  "query:" ++ Sha256.hexdigest (Sha256.bytes_of_string (key_data query params)).

End CacheService.

(** ** The JWT library

    [jose.jwt] is an external dependency of the service (python-jose); the
    repository calls [jwt.encode] and [jwt.decode] only.  The signature is
    idealised: a token verifies under the key it was signed with and under
    no other.  Claim validation follows the library's [decode] with its
    default options, in its order: [iat], [nbf], [exp], [aud], [iss],
    [sub], [jti], [at_hash].  The time claims are read with [int] inside
    [try ... except ValueError], so what [int] raises besides
    [ValueError] leaves [decode] as it is. *)

Module Jose.
Import PyStr PyDict.

(** A Python [float]: a finite one is a fraction. *)
Inductive pyfloat : Type :=
| Finite (num : Z) (den : positive)
| Infinity
| NaN.

(** The values of claims: what [json.loads] gives for a payload, and the
    [datetime] that the issuers pass to [encode]. *)
#[local] Set Warnings "-register-all".
Inductive value : Type :=
| Null
| Bool (b : bool)
| Int (z : Z)
| Float (f : pyfloat)
| Str (s : string)
| Array (items : list value)
| Object (items : list (string * value))
| Datetime (timestamp : Z).   (** an aware [datetime], in seconds *)

Definition claims : Type := dict value.

(** [ExpiredSignatureError] and [JWTClaimsError] are subclasses of
    [JWTError]; the last constructor stands for the other instances. *)
Inductive error : Type :=
| ExpiredSignatureError (msg : string)
| JWTClaimsError (msg : string)
| JWTError (msg : string).

(** A token is text that does not parse as a signed JWT, or a payload
    signed under a key with an algorithm. *)
Inductive token : Type :=
| Malformed (reason : string)
| Jwt (alg : string) (signed_with : string) (payload : claims).

(** [int(s)] for a string: surrounding white space, an optional sign,
    decimal digits with single underscores between them. *)
Fixpoint lstrip_ws (s : string) : string :=
  match s with
  | EmptyString => EmptyString
  | String c t => if is_space c then lstrip_ws t else s
  end.

Fixpoint rstrip_ws (s : string) : string :=
  match s with
  | EmptyString => EmptyString
  | String a t =>
      let t' := rstrip_ws t in
      if is_empty t' && is_space a then EmptyString else String a t'
  end.

Fixpoint parse_digits (after_digit : bool) (acc : Z) (s : string) : option Z :=
  match s with
  | EmptyString => if after_digit then Some acc else None
  | String c t =>
      if is_digit c then
        parse_digits true (10 * acc + Z.of_nat (code c - 48)) t
      else if Ascii.eqb c "_" && after_digit then parse_digits false acc t
      else None
  end.

Definition int_of_str (s : string) : option Z :=
  match rstrip_ws (lstrip_ws s) with
  | String "+" t => parse_digits false 0 t
  | String "-" t => option_map Z.opp (parse_digits false 0 t)
  | t => parse_digits false 0 t
  end.

(** [int(x)]: an integer, a [ValueError], or another exception. *)
Inductive int_result : Type :=
| IntOf (z : Z)
| NotInt
| IntRaises (e : exn).

Definition int_type_error (type_name : string) : exn :=
  TypeError ("int() argument must be a string, a bytes-like object or "
               ++ "a real number, not '" ++ type_name ++ "'").

(** [int(claims[k])]: a [float] is truncated, [True] is 1. *)
Definition int_of_value (v : value) : int_result :=
  match v with
  | Int z => IntOf z
  | Bool b => IntOf (if b then 1 else 0)
  | Float (Finite num den) => IntOf (Z.quot num (Zpos den))
  | Float Infinity =>
      IntRaises (OverflowError "cannot convert float infinity to integer")
  | Float NaN => NotInt
  | Str s =>
      match int_of_str s with
      | Some z => IntOf z
      | None => NotInt
      end
  | Null => IntRaises (int_type_error "NoneType")
  | Array _ => IntRaises (int_type_error "list")
  | Object _ => IntRaises (int_type_error "dict")
  | Datetime _ => IntRaises (int_type_error "datetime.datetime")
  end.

(** What leaves [decode]: an error of the library, or the built-in
    exception that [int] raised on a claim. *)
Inductive raised : Type :=
| OfLibrary (e : error)
| BuiltIn (e : exn).

Definition is_time_claim (k : string) : bool :=
  String.eqb k "exp" || String.eqb k "iat" || String.eqb k "nbf".

(** [jwt.encode] turns a [datetime] under ["exp"], ["iat"] or ["nbf"]
    into its integer timestamp; a [datetime] elsewhere has no JSON form. *)
Definition encode_claim (kv : string * value) : string * value :=
  match snd kv with
  | Datetime t => if is_time_claim (fst kv) then (fst kv, Int t) else kv
  | _ => kv
  end.

(** What [json.dumps] can write: no [datetime], at any depth. *)
Fixpoint json_ready (v : value) : bool :=
  match v with
  | Datetime _ => false
  | Array items => forallb json_ready items
  | Object items => forallb (fun kv => json_ready (snd kv)) items
  | _ => true
  end.

Definition serialisable (kv : string * value) : bool := json_ready (snd kv).

Definition encode (c : claims) (key : string) (alg : string) : result token :=
  let payload := map encode_claim c in
  if forallb serialisable payload then Return (Jwt alg key payload)
  else Raise (TypeError "Object of type datetime is not JSON serializable").

Definition is_str (v : value) : bool :=
  match v with Str _ => true | _ => false end.

Definition claims_error (msg : string) : option raised :=
  Some (OfLibrary (JWTClaimsError msg)).

Definition validate_iat (c : claims) : option raised :=
  match get c "iat" with
  | None => None
  | Some v =>
      match int_of_value v with
      | IntOf _ => None
      | NotInt => claims_error "Issued At claim (iat) must be an integer."
      | IntRaises e => Some (BuiltIn e)
      end
  end.

Definition validate_nbf (c : claims) (now : Z) : option raised :=
  match get c "nbf" with
  | None => None
  | Some v =>
      match int_of_value v with
      | NotInt => claims_error "Not Before claim (nbf) must be an integer."
      | IntRaises e => Some (BuiltIn e)
      | IntOf nbf =>
          if Z.ltb now nbf
          then claims_error "The token is not yet valid (nbf)"
          else None
      end
  end.

Definition validate_exp (c : claims) (now : Z) : option raised :=
  match get c "exp" with
  | None => None
  | Some v =>
      match int_of_value v with
      | NotInt =>
          claims_error "Expiration Time claim (exp) must be an integer."
      | IntRaises e => Some (BuiltIn e)
      | IntOf exp =>
          if Z.ltb exp now
          then Some (OfLibrary (ExpiredSignatureError "Signature has expired."))
          else None
      end
  end.

(** The service passes no audience: a well-formed ["aud"], a text or a
    list of texts, never holds [None]. *)
Definition validate_aud (c : claims) : option raised :=
  match get c "aud" with
  | None => None
  | Some (Str _) => claims_error "Invalid audience"
  | Some (Array items) =>
      if forallb is_str items then claims_error "Invalid audience"
      else claims_error "Invalid claim format in token"
  | Some _ => claims_error "Invalid claim format in token"
  end.

(** A claim that must be a text when it is there. *)
Definition validate_text (c : claims) (k msg : string) : option raised :=
  match get c k with
  | Some v => if is_str v then None else claims_error msg
  | None => None
  end.

(** The service passes no access token to compare ["at_hash"] with. *)
Definition validate_at_hash (c : claims) : option raised :=
  match get c "at_hash" with
  | Some _ =>
      claims_error "No access_token provided to compare against at_hash claim."
  | None => None
  end.

(** No issuer is passed, so ["iss"] is not looked at. *)
Definition validate_others (c : claims) : option raised :=
  match validate_aud c with
  | Some e => Some e
  | None =>
      match validate_text c "sub" "Subject must be a string." with
      | Some e => Some e
      | None =>
          match validate_text c "jti" "JWT ID must be a string." with
          | Some e => Some e
          | None => validate_at_hash c
          end
      end
  end.

Definition or_else (a b : option raised) : option raised :=
  match a with
  | Some e => Some e
  | None => b
  end.

Definition validate_claims (c : claims) (now : Z) : option raised :=
  or_else (validate_iat c)
    (or_else (validate_nbf c now)
       (or_else (validate_exp c now) (validate_others c))).

(** [jwt.decode(token, key, algorithms=algorithms)] at time [now]. *)
Definition decode (t : token) (key : string) (algorithms : list string)
    (now : Z) : raised + claims :=
  match t with
  | Malformed reason => inl (OfLibrary (JWTError reason))
  | Jwt alg signed_with payload =>
      if negb (existsb (String.eqb alg) algorithms)
      then inl (OfLibrary (JWTError "The specified alg value is not allowed"))
      else if negb (String.eqb signed_with key)
      then inl (OfLibrary (JWTError "Signature verification failed."))
      else
        match validate_claims payload now with
        | Some e => inl e
        | None => inr payload
        end
  end.

End Jose.

(** ** app/core/security.py: TokenManager *)

Module TokenManager.
Import PyStr PyDict Jose.

Section Clock.

(** [datetime.isoformat()] of the instant [t]. *)
Variable isoformat : Z -> string.

(** [if expires_delta:] is false for [None] and for a zero duration. *)
Definition expiry (now : Z) (expires_delta : option Z) (default : Z) : Z :=
  match expires_delta with
  | Some d => if Z.eqb d 0 then now + default else now + d
  | None => now + default
  end%Z.

(** [now] is the clock when the expiry is computed, [now_iat] the clock
    when ["iat"] is written. *)
Definition create_access_token (cfg : Settings) (data : claims)
    (expires_delta : option Z) (now now_iat : Z) : result token :=
  let to_encode := data in
  let expire := expiry now expires_delta (60 * access_token_expire_minutes cfg) in
  let to_encode :=
    update to_encode
      [("exp", Datetime expire);
       ("iat", Str (isoformat now_iat ++ "Z"));
       ("type", Str "access")] in
  encode to_encode (secret_key cfg) (algorithm cfg).

Definition create_refresh_token (cfg : Settings) (data : claims)
    (expires_delta : option Z) (now now_iat : Z) : result token :=
  let to_encode := data in
  let expire :=
    expiry now expires_delta (86400 * refresh_token_expire_days cfg) in
  let to_encode :=
    update to_encode
      [("exp", Datetime expire);
       ("iat", Str (isoformat now_iat ++ "Z"));
       ("type", Str "refresh")] in
  encode to_encode (secret_key cfg) (algorithm cfg).

End Clock.

(** The clock of the examples: every instant reads as the first second
    of 2026, which is 1767225600. *)
Definition sample_isoformat (t : Z) : string := "2026-01-01T00:00:00+00:00".

(** [payload.get("type") != token_type]: only a text can be equal to
    the expected type. *)
Definition type_differs (payload : claims) (token_type : string) : bool :=
  match get payload "type" with
  | Some (Str s) => negb (String.eqb s token_type)
  | _ => true
  end.

Definition verify_token (cfg : Settings) (t : token) (token_type : string)
    (now : Z) : result claims :=
  match decode t (secret_key cfg) [algorithm cfg] now with
  | inr payload =>
      if type_differs payload token_type then
        Raise (UnauthorizedError
                 ("Type de token invalide: attendu " ++ token_type))
      else Return payload
  | inl (OfLibrary (ExpiredSignatureError _)) =>
      Raise (UnauthorizedError "Token expiré")
  | inl (OfLibrary (JWTClaimsError _)) =>
      Raise (UnauthorizedError "Claims du token invalides")
  | inl (OfLibrary (JWTError e)) =>
      Raise (UnauthorizedError ("Token invalide: " ++ e))
  | inl (BuiltIn e) => Raise e
  end.

End TokenManager.

(** ** app/graphrag/engine.py *)

Module Engine.
Import PyStr PyDict Json.

Section WithFloat.

(** Python floats: the readings of [time.time()] and the durations. *)
Variable float : Type.

(** [(t1 - t0) * 1000]. *)
Variable elapsed_ms : float -> float -> float.

Definition Schema : Type := pyval.
Definition Rows : Type := list (dict pyval).

(** What [process_natural_query] stores in the cache and reads back. *)
Record CacheEntry : Type := {
  cypher : string;
  results : Rows;
  execution_time : float;
  answer : string
}.

Inductive log_record : Type :=
| CacheHit                                   (** "Cache hit pour la requête" *)
| Generating (question : string)
| InvalidGenerated (validation_error : option string)
| Processed (total_time : float) (n_results : nat).

Inductive printed : Type :=
| PrintCypher (cypher : string)
| PrintResults (results : Rows).

(** The calls the engine makes on its collaborators.  The generator and
    [execute_cypher] let exceptions through (of the language model, of
    the validation inside [execute_cypher], of the database after its
    retries), so they answer with a [result]; the other collaborators
    catch theirs. *)
Inductive event : Type -> Type :=
| TimeNow : event float
| CacheGet (question : string) (params : dict pyval)
    : event (option CacheEntry)
| CacheSet (question : string) (value : CacheEntry) (params : dict pyval)
    : event bool
| LogInfo (r : log_record) : event unit
| LogError (r : log_record) : event unit
| Print (p : printed) : event unit
| GetSchema : event Schema
| Generate (question : string) (schema : Schema) (context : option string)
    : event (result string)
| Optimize (cypher : string) : event string
| IsReadOnly (cypher : string) : event (bool * string)
| ValidateCypher (cypher : string) : event (bool * option string)
| ExecuteCypher (cypher : string) (parameters : option (dict pyval))
    (timeout : option Z) : event (result (Rows * float))
| FormatNaturalResponse (question : string) (results : Rows) : event string.

(** Programs: finite trees of calls. *)
Inductive prog (R : Type) : Type :=
| Ret (r : R)
| Throw (e : exn)
| Vis (X : Type) (e : event X) (k : X -> prog R).

Arguments Ret {R} r.
Arguments Throw {R} e.
Arguments Vis {R X} e k.

Fixpoint bind {A B : Type} (p : prog A) (f : A -> prog B) : prog B :=
  match p with
  | Ret a => f a
  | Throw e => Throw e
  | Vis e k => Vis e (fun x => bind (k x) f)
  end.

Definition call {X : Type} (e : event X) : prog X := Vis e Ret.

(** A call whose exception, if it raises, goes up to the caller. *)
Definition attempt {X : Type} (e : event (result X)) : prog X :=
  Vis e (fun r => match r with
                  | Return x => Ret x
                  | Raise err => Throw err
                  end).

Notation "x <- p ;; q" := (bind p (fun x => q))
  (at level 61, p at next level, right associativity).
Notation "p ;;; q" := (bind p (fun _ => q))
  (at level 61, right associativity).

(** The engine object: its optimizer, the settings, and the [enabled]
    attribute of the cache service. *)
Record t : Type := {
  cfg : Settings;
  query_optimizer : QueryOptimizer.t;
  cache_enabled : bool
}.

Definition init (c : Settings) (enabled : bool) : t := {|
  cfg := c;
  query_optimizer := QueryOptimizer.init c;
  cache_enabled := enabled
|}.

(** [{"context": context}]. *)
Definition context_params (context : option string) : dict pyval :=
  [("context", match context with Some c => PStr c | None => PNone end)].

Definition save_if (cond : bool) (p : prog bool) : prog unit :=
  if cond then p ;;; Ret tt else Ret tt.

Definition process_natural_query (self : t) (question : string)
    (context : option string) (use_cache : bool)
  : prog (string * Rows * float * string) :=
  start_time <- call TimeNow ;;
  cached <- (if use_cache && cache_enabled self
             then call (CacheGet question (context_params context))
             else Ret None) ;;
  match cached with
  | Some c =>
      call (LogInfo CacheHit) ;;;
      Ret (cypher c, results c, execution_time c, answer c)
  | None =>
      schema <- call GetSchema ;;
      call (LogInfo (Generating question)) ;;;
      cypher <- attempt (Generate question schema context) ;;
      cypher <- call (Optimize cypher) ;;
      ro <- call (IsReadOnly cypher) ;;
      if negb (fst ro) then Throw (InvalidCypherQueryError (snd ro))
      else
        v <- call (ValidateCypher cypher) ;;
        if negb (fst v) then
          call (LogError (InvalidGenerated (snd v))) ;;;
          Throw (InvalidCypherQueryError
                   ("Le LLM a généré une requête invalide: "
                      ++ match snd v with Some e => e | None => "None" end))
        else
          call (Print (PrintCypher cypher)) ;;;
          r <- attempt (ExecuteCypher cypher None None) ;;
          call (Print (PrintResults (fst r))) ;;;
          natural_answer <- call (FormatNaturalResponse question (fst r)) ;;
          now <- call TimeNow ;;
          let total_time := elapsed_ms now start_time in
          save_if (use_cache && cache_enabled self)
            (call (CacheSet question
                     {| cypher := cypher; results := fst r;
                        execution_time := total_time;
                        answer := natural_answer |}
                     (context_params context))) ;;;
          call (LogInfo (Processed total_time (List.length (fst r)))) ;;;
          Ret (cypher, fst r, total_time, natural_answer)
  end.

Definition process_cypher_query (self : t) (cypher : string)
    (parameters : option (dict pyval)) (timeout : option Z)
  : prog (Rows * float) :=
  cypher <- call (Optimize cypher) ;;
  ro <- call (IsReadOnly cypher) ;;
  if negb (fst ro) then Throw (InvalidCypherQueryError (snd ro))
  else attempt (ExecuteCypher cypher parameters timeout).

Definition limit_warning (self : t) : string :=
  "Pas de LIMIT spécifié. Un LIMIT de "
    ++ str_of_int (QueryOptimizer.default_limit (query_optimizer self))
    ++ " sera automatiquement ajouté.".

Definition validate_query (self : t) (cypher : string) (check_read_only : bool)
  : prog (bool * bool * option string * list string) :=
  let warnings := [] in
  v <- call (ValidateCypher cypher) ;;
  let is_valid := fst v in
  let error_msg := snd v in
  if negb is_valid then Ret (false, false, error_msg, warnings)
  else
    ro <- (if check_read_only then call (IsReadOnly cypher)
           else Ret (true, "")) ;;
    let is_read_only := fst ro in
    let error_msg :=
      if check_read_only && negb is_read_only then Some (snd ro)
      else error_msg in
    let warnings :=
      if negb (QueryOptimizer._has_limit cypher)
      then (warnings ++ [limit_warning self])%list
      else warnings in
    Ret (is_valid, is_read_only, error_msg, warnings).

(** *** Running a program against the outside world *)

Inductive any_event : Type :=
| Any (X : Type) (e : event X).

Arguments Any {X} e.

Section Run.

(** The state of the outside world, and how it answers an event. *)
Variable W : Type.
Variable world : forall X : Type, event X -> W -> X * W.

(** The optimizer is part of the engine: its answers are those of
    [QueryOptimizer]; every other event is answered by the world. *)
Definition respond (self : t) (X : Type) (e : event X) (w : W) : X * W :=
  match e in event X0 return (X0 * W) with
  | Optimize c => (QueryOptimizer.optimize (query_optimizer self) c, w)
  | IsReadOnly c => (QueryOptimizer.is_read_only (cfg self) c, w)
  | e' => world _ e' w
  end.

(** The events in the order they happen, the outcome, the final state. *)
Fixpoint exec (self : t) {R : Type} (p : prog R) (w : W)
  : list any_event * result R * W :=
  match p with
  | Ret r => ([], Return r, w)
  | Throw e => ([], Raise e, w)
  | Vis e k =>
      let (x, w1) := respond self _ e w in
      let '(trace, r, w2) := exec self (k x) w1 in
      (Any e :: trace, r, w2)
  end.

End Run.

(** The calls a cache hit must not make. *)
Definition is_work (a : any_event) : bool :=
  match a with
  | Any e =>
      match e with
      | GetSchema => true
      | Generate _ _ _ => true
      | Optimize _ => true
      | IsReadOnly _ => true
      | ValidateCypher _ => true
      | ExecuteCypher _ _ _ => true
      | _ => false
      end
  end.

End WithFloat.

Arguments cypher {float} c.
Arguments results {float} c.
Arguments execution_time {float} c.
Arguments answer {float} c.
Arguments CacheHit {float}.
Arguments Generating {float} question.
Arguments InvalidGenerated {float} validation_error.
Arguments Processed {float} total_time n_results.
Arguments TimeNow {float}.
Arguments CacheGet {float} question params.
Arguments CacheSet {float} question value params.
Arguments LogInfo {float} r.
Arguments LogError {float} r.
Arguments Print {float} p.
Arguments GetSchema {float}.
Arguments Generate {float} question schema context.
Arguments Optimize {float} cypher.
Arguments IsReadOnly {float} cypher.
Arguments ValidateCypher {float} cypher.
Arguments ExecuteCypher {float} cypher parameters timeout.
Arguments FormatNaturalResponse {float} question results.
Arguments Ret {float R} r.
Arguments Throw {float R} e.
Arguments Vis {float R X} e k.
Arguments Any {float X} e.
Arguments process_natural_query {float} elapsed_ms self question context
  use_cache.
Arguments process_cypher_query {float} self cypher parameters timeout.
Arguments validate_query {float} self cypher check_read_only.
Arguments exec {float W} world self {R} p w.
Arguments respond {float W} world self {X} e w.
Arguments is_work {float} a.

(** *** A world to run the engine in

    Floats are integers (milliseconds), the state is the clock.  The
    cache holds [stored] under every key; the validator answers
    [verdict]; the generator writes a fixed query; nothing raises. *)
Definition sample_world (stored : option (CacheEntry Z))
    (verdict : bool * option string)
    (X : Type) (e : event Z X) (w : Z) : X * Z :=
  match e in event _ X0 return X0 * Z with
  | TimeNow => (w, (w + 1)%Z)
  | CacheGet _ _ => (stored, w)
  | CacheSet _ _ _ => (true, w)
  | LogInfo _ => (tt, w)
  | LogError _ => (tt, w)
  | Print _ => (tt, w)
  | GetSchema => (PDict [], w)
  | Generate _ _ _ => (Return "MATCH (m:Movie) RETURN m.title;", w)
  | Optimize c => (c, w)
  | IsReadOnly _ => ((true, ""), w)
  | ValidateCypher _ => (verdict, w)
  | ExecuteCypher _ _ _ => (Return ([[("m.title", PStr "Alien")]], 3%Z), w)
  | FormatNaturalResponse _ _ => ("Alien", w)
  end.

Definition sample_entry : CacheEntry Z := {|
  cypher := "MATCH (m:Movie) RETURN m.title LIMIT 100";
  results := [[("m.title", PStr "Alien")]];
  execution_time := 12%Z;
  answer := "Alien"
|}.

End Engine.

(** ** What a run of the engine sent to the database and to the cache *)

Module EngineTrace.
Import Engine.

(** The query text, when the call is [execute_cypher]. *)
Definition executed_text {float : Type} (a : any_event float)
  : option string :=
  match a with
  | Any e =>
      match e with
      | ExecuteCypher c _ _ => Some c
      | _ => None
      end
  end.

(** The stored value, when the call is [cache.set]. *)
Definition cached_value {float : Type} (a : any_event float)
  : option (CacheEntry float) :=
  match a with
  | Any e =>
      match e with
      | CacheSet _ v _ => Some v
      | _ => None
      end
  end.

Fixpoint keep {A B : Type} (f : A -> option B) (l : list A) : list B :=
  match l with
  | [] => []
  | a :: t =>
      match f a with
      | Some b => b :: keep f t
      | None => keep f t
      end
  end.

(** The texts executed during a run, in order. *)
Definition executed_texts {float : Type} (trace : list (any_event float))
  : list string := keep executed_text trace.

(** The values written to the cache during a run, in order. *)
Definition cached_values {float : Type} (trace : list (any_event float))
  : list (CacheEntry float) := keep cached_value trace.

End EngineTrace.

(** ** app/core/security.py: APIKeyManager; app/api/dependencies.py;
       app/middleware/auth.py *)

Module Auth.
Import PyStr PyDict Jose.

(** The two fields of the settings that the key checks read. *)
Record KeySettings : Type := {
  api_key_enabled : bool;
  api_keys : list string
}.

(** [APIKeyManager.verify]. *)
Definition verify (ks : KeySettings) (api_key : string) : bool :=
  if negb (api_key_enabled ks) then true
  else if is_empty api_key then false
  else existsb (String.eqb api_key) (api_keys ks).

(** A response of the HTTP layer: a value, or [HTTPException] with status
    401 and its detail. *)
Inductive http (A : Type) : Type :=
| Ok (a : A)
| Http401 (detail : string).

Arguments Ok {A} a.
Arguments Http401 {A} detail.

(** [not x] for an optional header value: absent or empty. *)
Definition falsy (o : option string) : bool :=
  match o with
  | Some s => is_empty s
  | None => true
  end.

(** [get_api_key], the dependency of the query endpoints. *)
Definition get_api_key (ks : KeySettings) (x_api_key : option string)
  : http string :=
  if negb (api_key_enabled ks) then Ok "public"
  else
    match x_api_key with
    | Some k =>
        if is_empty k || negb (verify ks k)
        then Http401 "API Key invalide ou manquante"
        else Ok k
    | None => Http401 "API Key invalide ou manquante"
    end.

(** The part of a request the middleware reads; header names are matched
    without regard to case by the framework. *)
Record Request : Type := {
  path : string;
  x_api_key : option string;
  authorization : option string
}.

Definition PUBLIC_ROUTES : list string :=
  ["/"; "/docs"; "/openapi.json"; "/redoc"; "/api/v1/health"].

(** The text before the first [c], and everything when there is none. *)
Fixpoint before_first (c : ascii) (s : string) : string :=
  match s with
  | EmptyString => EmptyString
  | String a t => if Ascii.eqb a c then EmptyString
                  else String a (before_first c t)
  end.

(** The text after the first [c]; [None] when there is none. *)
Fixpoint after_first (c : ascii) (s : string) : option string :=
  match s with
  | EmptyString => None
  | String a t => if Ascii.eqb a c then Some t else after_first c t
  end.

(** [s.split(" ")[1]]; [None] stands for [IndexError]. *)
Definition second_field (s : string) : option string :=
  option_map (before_first " ") (after_first " " s).

(** What the middleware does with a request: hand it on, with what it
    put in [request.state], refuse it with status 401, or let through an
    exception that is not an [HTTPException]. *)
Inductive decision : Type :=
| CallNext (user : option claims) (api_key : option string)
| Refuse (detail : string)
| Propagate (e : exn).

(** The bearer token of a request: accepted with its payload, not
    accepted, or an exception that the middleware does not catch. *)
Inductive bearer : Type :=
| Accepted (payload : claims)
| NotAccepted
| Uncaught (e : exn).

Section Dispatch.

(** How the compact text of a token is read. *)
Variable parse_token : string -> token.

(** [verify_token(token)] of the module: the expected type is "access". *)
Definition bearer_payload (cfg : Settings) (now : Z) (request : Request)
  : bearer :=
  match authorization request with
  | Some auth_header =>
      if negb (is_empty auth_header) && prefix "Bearer " auth_header then
        match second_field auth_header with
        | Some text =>
            match TokenManager.verify_token cfg (parse_token text)
                    "access" now with
            | Return payload => Accepted payload
            | Raise e => if is_http_exception e then NotAccepted else Uncaught e
            end
        | None => NotAccepted
        end
      else NotAccepted
  | None => NotAccepted
  end.

Definition dispatch (cfg : Settings) (ks : KeySettings) (now : Z)
    (request : Request) : decision :=
  if existsb (String.eqb (path request)) PUBLIC_ROUTES then CallNext None None
  else if negb (api_key_enabled ks) then CallNext None None
  else
    let api_key := x_api_key request in
    match (if falsy api_key then bearer_payload cfg now request
           else NotAccepted) with
    | Accepted payload => CallNext (Some payload) None
    | Uncaught e => Propagate e
    | NotAccepted =>
        match api_key with
        | Some k =>
            if is_empty k || negb (verify ks k)
            then Refuse "API Key invalide ou manquante"
            else CallNext None (Some k)
        | None => Refuse "API Key invalide ou manquante"
        end
    end.

End Dispatch.

(** *** Sample data: one well-formed access token, read from the text
    ["good"], and a service that lists one key. *)
Definition sample_payload : claims :=
  [("sub", Str "x"); ("exp", Int 1767227400); ("iat", Int 1767225600);
   ("type", Str "access")].

Definition sample_parse (text : string) : token :=
  if String.eqb text "good" then Jwt "HS256" "secret" sample_payload
  else Malformed "Not enough segments".

Definition sample_keys : KeySettings :=
  {| api_key_enabled := true; api_keys := ["k-1"] |}.

End Auth.

(** ** app/utils/sanitizers.py: paths and URLs *)

Module Sanitizers.
Import PyStr Re.

(** [s.replace(a, b)] for single characters. *)
Definition replace_char (a b : ascii) (s : string) : string :=
  map_chars (fun c => if Ascii.eqb c a then b else c) s.

Definition head_is (c : ascii) (s : string) : bool :=
  match s with
  | EmptyString => false
  | String b _ => Ascii.eqb c b
  end.

(** [re.sub(r'c+', 'c', s)]: every run of [c] becomes one [c]. *)
Fixpoint collapse (c : ascii) (s : string) : string :=
  match s with
  | EmptyString => EmptyString
  | String a t =>
      if Ascii.eqb c a && head_is c t then collapse c t
      else String a (collapse c t)
  end.

(** [s.lstrip(c)] and [s.strip(c)] for a one-character set. *)
Fixpoint lstrip (c : ascii) (s : string) : string :=
  match s with
  | EmptyString => EmptyString
  | String a t => if Ascii.eqb c a then lstrip c t else s
  end.

Definition strip_char (c : ascii) (s : string) : string :=
  rstrip c (lstrip c s).

(** [PathSanitizer.sanitize_path]. *)
Definition sanitize_path (path : string) : result string :=
  if contains ".." path then Raise (ValueError "Path traversal détecté")
  else
    let path := replace_char "\" "/" path in
    let path := collapse "/" path in
    Return (strip_char "/" path).

(** [s.strip()] and [s.lower()]. *)
Definition strip (s : string) : string := Jose.rstrip_ws (Jose.lstrip_ws s).

Definition lower (s : string) : string := map_chars lower_char s.

Definition DANGEROUS_PROTOCOLS : list string :=
  ["javascript:"; "data:"; "vbscript:"].

(** [InputSanitizer.sanitize_url]. *)
Definition sanitize_url (url : string) : result string :=
  let url := strip url in
  if negb (prefix "http://" url || prefix "https://" url) then
    Raise (ValueError "URL doit commencer par http:// ou https://")
  else
    match find (fun protocol => contains protocol (lower url))
               DANGEROUS_PROTOCOLS with
    | Some protocol =>
        Raise (ValueError ("Protocole non autorisé: " ++ protocol))
    | None => Return url
    end.

End Sanitizers.

(** ** app/utils/validators.py: CypherValidator *)

Module CypherValidator.
Import PyStr Re.

Definition WRITE_KEYWORDS : list string :=
  ["CREATE"; "DELETE"; "REMOVE"; "SET"; "MERGE"; "DROP"; "ALTER"; "DETACH"].

Definition write_msg (keyword : string) : string :=
  "Mot-clé non autorisé: " ++ keyword.

Definition is_read_only (cypher : string) : bool * string :=
  let cypher_upper := upper cypher in
  match find (fun keyword =>
                search (QueryOptimizer.keyword_re keyword) cypher_upper)
             WRITE_KEYWORDS with
  | Some keyword => (false, write_msg keyword)
  | None => (true, "")
  end.

Definition has_limit (cypher : string) : bool :=
  search QueryOptimizer.LIMIT_RE cypher.

End CypherValidator.

(** ** app/services/cache_service.py: get and set *)

Module CacheStore.
Import PyStr PyDict Json CacheService.

(** [json.dumps(value)]: as [dumps], the items of a dictionary in their
    order of insertion. *)
Fixpoint dumps_plain (v : pyval) : string :=
  match v with
  | PNone => "null"
  | PBool true => "true"
  | PBool false => "false"
  | PInt z => str_of_int z
  | PStr s => quote s
  | PList l => "[" ++ String.concat ", " (map dumps_plain l) ++ "]"
  | PTuple l => "[" ++ String.concat ", " (map dumps_plain l) ++ "]"
  | PDict d =>
      "{" ++ String.concat ", "
               (map item_text
                  (map (fun kv => (fst kv, dumps_plain (snd kv))) d))
          ++ "}"
  end.

(** The service object: the [enabled] flag and the default lifetime. *)
Record t : Type := {
  enabled : bool;
  ttl : Z
}.

Section Client.

(** The Redis server as the client sees it: its state, [get] and
    [setex], each of which may raise, and [json.loads]. *)
Variable S : Type.
Variable r_get : S -> string -> result (option string).
Variable r_setex : S -> string -> Z -> string -> result S.
Variable loads : string -> result pyval.

(** [get]: Python's [None] is [PNone], as for a stored [null]. *)
Definition get (self : t) (st : S) (query : string)
    (params : option (dict pyval)) : pyval :=
  if negb (enabled self) then PNone
  else
    match r_get st (_generate_key query params) with
    | Return (Some data) =>
        if negb (is_empty data) then
          match loads data with
          | Return v => v
          | Raise _ => PNone
          end
        else PNone
    | Return None => PNone
    | Raise _ => PNone
    end.

(** [ttl or self.ttl]. *)
Definition lifetime (self : t) (ttl_arg : option Z) : Z :=
  match ttl_arg with
  | Some z => if Z.eqb z 0 then ttl self else z
  | None => ttl self
  end.

(** [set]: the flag returned and the state of the server afterwards. *)
Definition set (self : t) (st : S) (query : string) (value : pyval)
    (params : option (dict pyval)) (ttl_arg : option Z) : bool * S :=
  if negb (enabled self) then (false, st)
  else
    match r_setex st (_generate_key query params) (lifetime self ttl_arg)
                  (dumps_plain value) with
    | Return st' => (true, st')
    | Raise _ => (false, st)
    end.

End Client.

(** *** A server in memory, for the examples: an association list of
    keys and texts that never fails and never forgets; a reader of the
    one text the examples store. *)
Definition mem_get (st : dict string) (k : string) : result (option string) :=
  Return (PyDict.get st k).

Definition mem_setex (st : dict string) (k : string) (lifetime : Z)
    (data : string) : result (dict string) :=
  Return (PyDict.set st k data).

Definition sample_value : pyval :=
  PDict [("cypher", PStr "MATCH (n) RETURN n LIMIT 100");
         ("answer", PStr "none")].

Definition sample_loads (data : string) : result pyval :=
  if String.eqb data (dumps_plain sample_value) then Return sample_value
  else Raise (ValueError "Expecting value").

End CacheStore.

(** ** app/utils/sanitizers.py: e-mail addresses *)

Module EmailSanitizer.
Import PyStr Re Sanitizers.

Definition newline : ascii := ascii_of_nat 10.

(** [match_here] for a pattern that ends in [$]: at the end of the
    pattern the text must be finished, or be one final newline. *)
Fixpoint match_end (s : string) : option ascii -> regex -> bool :=
  fix go (prev : option ascii) (r : regex) {struct r} : bool :=
    match r with
    | [] => is_empty s || String.eqb s (String newline "")
    | Bnd :: r' => at_boundary prev s && go prev r'
    | Chr c :: r' =>
        match s with
        | EmptyString => false
        | String x t => Ascii.eqb x c && match_end t (Some x) r'
        end
    | ChrI c :: r' =>
        match s with
        | EmptyString => false
        | String x t => eq_ignore_case x c && match_end t (Some x) r'
        end
    | Cls p :: r' =>
        match s with
        | EmptyString => false
        | String x t => p x && match_end t (Some x) r'
        end
    | Plus p :: r' =>
        match s with
        | EmptyString => false
        | String x t =>
            p x && (match_end t (Some x) (Plus p :: r')
                    || match_end t (Some x) r')
        end
    end.

(** [[\w\.-]]. *)
Definition email_char (c : ascii) : bool :=
  is_word c || Ascii.eqb c "." || Ascii.eqb c "-".

(** [r'^[\w\.-]+@[\w\.-]+\.\w+$'], matched from the start. *)
Definition EMAIL_RE : regex :=
  [Plus email_char; Chr "@"; Plus email_char; Chr "."; Plus is_word].

(** [InputSanitizer.sanitize_email]. *)
Definition sanitize_email (email : string) : result string :=
  let email := lower (strip email) in
  if negb (match_end email None EMAIL_RE)
  then Raise (ValueError "Format d'email invalide")
  else Return email.

(** The shape in the words of the pattern: a local part and a domain of
    word characters, dots and dashes, and a last label of word
    characters, none of them empty. *)
Definition email_shape (r : string) : Prop :=
  exists name domain label,
    r = name ++ "@" ++ domain ++ "." ++ label
    /\ name <> "" /\ all_chars email_char name = true
    /\ domain <> "" /\ all_chars email_char domain = true
    /\ label <> "" /\ all_chars is_word label = true.

End EmailSanitizer.

(** ** app/utils/helpers.py *)

Module Helpers.
Import PyStr PyDict.

(** [s[:k]] for an integer [k]: a negative [k] counts from the end. *)
Definition slice_to (k : Z) (s : string) : string :=
  if Z.leb 0 k then take (Z.to_nat k) s
  else take (Z.to_nat (Z.of_nat (length s) + k)) s.

Definition truncate_string (s : string) (max_length : Z) : string :=
  if Z.leb (Z.of_nat (length s)) max_length then s
  else slice_to (max_length - 3) s ++ "...".

(** [merge_dicts]: the dictionaries are merged from left to right. *)
Definition merge_dicts {V : Type} (dicts : list (dict V)) : dict V :=
  fold_left update dicts [].

End Helpers.

(** ** app/utils/validators.py: QuerySanitizer.sanitize_question *)

Module QuerySanitizer.
Import PyStr.

(** [s.split()]: the maximal runs of characters that are not white
    space, [cur] being the run that is read. *)
Fixpoint split_ws (cur s : string) : list string :=
  match s with
  | EmptyString => if is_empty cur then [] else [cur]
  | String a t =>
      if is_space a
      then (if is_empty cur then split_ws "" t else cur :: split_ws "" t)
      else split_ws (cur ++ String a "") t
  end.

(** [sep.join(parts)]. *)
Fixpoint join (sep : string) (parts : list string) : string :=
  match parts with
  | [] => ""
  | p :: rest =>
      match rest with
      | [] => p
      | _ :: _ => p ++ sep ++ join sep rest
      end
  end.

(** [re.sub(cls, '', s)] for a class of single characters. *)
Fixpoint remove_chars (p : ascii -> bool) (s : string) : string :=
  match s with
  | EmptyString => EmptyString
  | String a t => if p a then remove_chars p t else String a (remove_chars p t)
  end.

(** The class [[<>{}]]. *)
Definition angle_or_brace (c : ascii) : bool := any_char (Ascii.eqb c) "<>{}".

(** Characters that are not white space, and the white space other than
    the plain space. *)
Definition not_space (c : ascii) : bool := negb (is_space c).

Definition odd_space (c : ascii) : bool :=
  is_space c && negb (Ascii.eqb c " ").

Definition sanitize_question (question : string) (max_length : Z) : string :=
  let question := join " " (split_ws "" question) in
  let question :=
    if Z.ltb max_length (Z.of_nat (length question))
    then Helpers.slice_to max_length question
    else question in
  let question := remove_chars angle_or_brace question in
  Sanitizers.strip question.

End QuerySanitizer.

(* ================================================================== *)
(** * Part II. Properties *)
(* ================================================================== *)

(** ** Health endpoint *)

Section HealthFacts.
Import Health.

(** C6.  For every outcome of the database and language-model probes the
    overall status is "healthy" when both succeed, "degraded" when exactly
    one does and "unavailable" when none does; the cache probe and the
    cache's enabled flag have no influence on it. *)
Theorem health_status_aggregation :
  forall n l c e : bool,
    status_value
      (status (health_check
         {| neo4j_healthy := n; llm_healthy := l;
            cache_healthy := c; cache_enabled := e |}))
    = overall_status n l
    /\ forall c' e' : bool,
         status (health_check
           {| neo4j_healthy := n; llm_healthy := l;
              cache_healthy := c'; cache_enabled := e' |})
         = status (health_check
           {| neo4j_healthy := n; llm_healthy := l;
              cache_healthy := c; cache_enabled := e |}).
Proof.
  intros n l c e; split.
  - destruct n, l; reflexivity.
  - intros c' e'; reflexivity.
Qed.

(** The cache component alone reports the cache probe. *)
Lemma health_cache_component :
  forall p : Probes,
    option_map c_status
      (PyDict.get (components (health_check p)) "cache")
    = Some (if cache_healthy p then HEALTHY else DEGRADED).
Proof. intros p; reflexivity. Qed.

End HealthFacts.

(** ** The engine *)

Section EngineFacts.
Import PyDict Json Engine.

Variable float : Type.
Variable elapsed_ms : float -> float -> float.
Variable W : Type.
Variable world : forall X : Type, event float X -> W -> X * W.

(** Running a call: the world (or the optimizer) answers, the rest runs
    in the new state. *)
Lemma exec_vis (self : t) (R X : Type) (e : event float X)
    (k : X -> prog float R) (w : W) :
  exec world self (Vis e k) w =
  (Any e :: fst (fst (exec world self (k (fst (respond world self e w)))
                                  (snd (respond world self e w)))),
   snd (fst (exec world self (k (fst (respond world self e w)))
                        (snd (respond world self e w)))),
   snd (exec world self (k (fst (respond world self e w)))
                  (snd (respond world self e w)))).
Proof.
  simpl. destruct (respond world self e w) as [x w1]. simpl.
  destruct (exec world self (k x) w1) as [[tr r] w2]. reflexivity.
Qed.

(** C3.  When the caller asks for the cache, the cache is enabled and the
    lookup under the question and [{"context": context}] returns a stored
    entry, [process_natural_query] returns the four fields of that entry
    and the only calls made are the clock, the lookup and the log line:
    no schema fetch, generation, optimisation, read-only check,
    validation or execution. *)
Theorem process_natural_query_cache_hit :
  forall (self : t) (question : string) (context : option string) (w : W)
         (entry : CacheEntry float),
    cache_enabled self = true ->
    fst (world _ (CacheGet question (context_params context))
               (snd (world _ TimeNow w))) = Some entry ->
    let run :=
      exec world self
        (process_natural_query elapsed_ms self question context true) w in
    snd (fst run)
      = Return (cypher entry, results entry, execution_time entry, answer entry)
    /\ fst (fst run)
       = [Any TimeNow;
          Any (CacheGet question (context_params context));
          Any (LogInfo CacheHit)]
    /\ existsb is_work (fst (fst run)) = false.
Proof.
  intros self question context w entry Hen Hhit run.
  assert (Hrun : snd (fst run)
      = Return (cypher entry, results entry, execution_time entry, answer entry)
    /\ fst (fst run)
       = [Any TimeNow;
          Any (CacheGet question (context_params context));
          Any (LogInfo CacheHit)]).
  { subst run. unfold process_natural_query. rewrite Hen. simpl andb.
    unfold call. simpl bind. rewrite exec_vis. simpl respond.
    rewrite exec_vis. simpl respond. rewrite Hhit.
    simpl bind. rewrite exec_vis. simpl. split; reflexivity. }
  destruct Hrun as [Hout Htr]. repeat split; try assumption.
  rewrite Htr. reflexivity.
Qed.

(** Without the cache (not asked for, or disabled) the lookup is not made
    and the schema is fetched. *)
Lemma process_natural_query_no_cache :
  forall (self : t) (question : string) (context : option string) (w : W),
    let run :=
      exec world self
        (process_natural_query elapsed_ms self question context false) w in
    firstn 2 (fst (fst run)) = [Any TimeNow; Any GetSchema].
Proof.
  intros self question context w run. subst run.
  unfold process_natural_query, call. simpl andb. simpl bind.
  rewrite exec_vis. simpl respond. rewrite exec_vis. reflexivity.
Qed.

(** C10.  When the syntax validation of a query fails, [validate_query]
    returns not valid, not read-only, the validator's message and no
    warning, whatever the query contains and whether or not the read-only
    check was asked for; the validator is the only collaborator called. *)
Theorem validate_query_invalid_syntax :
  forall (self : t) (cypher : string) (check_read_only : bool) (w : W)
         (err : option string),
    fst (world _ (ValidateCypher cypher) w) = (false, err) ->
    fst (exec world self (validate_query self cypher check_read_only) w)
    = ([Any (ValidateCypher cypher)], Return (false, false, err, [])).
Proof.
  intros self cypher chk w err Hv.
  unfold validate_query, call. simpl bind. rewrite exec_vis. simpl respond.
  rewrite Hv. reflexivity.
Qed.

(** Whatever the world answers, [validate_query] returns, and a warning
    is only ever returned together with [is_valid = true]. *)
Lemma validate_query_warning_valid :
  forall (self : t) (cypher : string) (check_read_only : bool) (w : W),
    exists is_valid is_read_only error_msg warnings,
      snd (fst (exec world self
                  (validate_query self cypher check_read_only) w))
      = Return (is_valid, is_read_only, error_msg, warnings)
      /\ (warnings <> [] -> is_valid = true)
      /\ (warnings <> [] -> QueryOptimizer._has_limit cypher = false).
Proof.
  intros self cypher chk w.
  unfold validate_query, call. simpl bind. rewrite exec_vis. simpl respond.
  destruct (world _ (ValidateCypher cypher) w) as [[valid err] w1].
  simpl fst; simpl snd. destruct valid; simpl negb; cbv iota.
  - destruct chk.
    + simpl bind. rewrite exec_vis. simpl respond. simpl.
      destruct (QueryOptimizer._has_limit cypher); simpl;
        do 4 eexists; (split; [reflexivity | split; [reflexivity || tauto | ]]);
        intros H; try reflexivity; now elim H.
    + simpl.
      destruct (QueryOptimizer._has_limit cypher); simpl;
        do 4 eexists; (split; [reflexivity | split; [reflexivity || tauto | ]]);
        intros H; try reflexivity; now elim H.
  - simpl. do 4 eexists. split; [reflexivity|].
    split; intros H; now elim H.
Qed.

End EngineFacts.

Lemma process_natural_query_cache_hit_witness :
  let self := Engine.init default_settings true in
  let world := Engine.sample_world (Some Engine.sample_entry) (true, None) in
  let run :=
    Engine.exec world self
      (Engine.process_natural_query Z.sub self "Which films?" None true) 0%Z in
  snd (fst run)
    = Return ("MATCH (m:Movie) RETURN m.title LIMIT 100",
              [[("m.title", Json.PStr "Alien")]], 12%Z, "Alien")
  /\ fst (fst run)
     = [Engine.Any Engine.TimeNow;
        Engine.Any (Engine.CacheGet "Which films?" [("context", Json.PNone)]);
        Engine.Any (Engine.LogInfo Engine.CacheHit)]
  /\ existsb Engine.is_work (fst (fst run)) = false.
Proof.
  exact (process_natural_query_cache_hit Z Z.sub Z
           (Engine.sample_world (Some Engine.sample_entry) (true, None))
           (Engine.init default_settings true) "Which films?" None 0%Z
           Engine.sample_entry eq_refl eq_refl).
Defined.

Lemma validate_query_invalid_syntax_witness :
  let self := Engine.init default_settings true in
  let world :=
    Engine.sample_world None (false, Some "Invalid input 'MATCHH'") in
  fst (Engine.exec world self
         (Engine.validate_query self "MATCHH (n) DELETE n" true) 0%Z)
  = ([Engine.Any (Engine.ValidateCypher "MATCHH (n) DELETE n")],
     Return (false, false, Some "Invalid input 'MATCHH'", [])).
Proof.
  exact (validate_query_invalid_syntax Z Z
           (Engine.sample_world None (false, Some "Invalid input 'MATCHH'"))
           (Engine.init default_settings true) "MATCHH (n) DELETE n" true 0%Z
           (Some "Invalid input 'MATCHH'") eq_refl).
Defined.

(** ** Strings and patterns *)

Section StringFacts.
Import PyStr Re.

Lemma search_from_cls (p : ascii -> bool) (s : string) :
  forall prev, search_from [Cls p] prev s = any_char p s.
Proof.
  induction s as [|c t IH]; intros prev; simpl.
  - reflexivity.
  - rewrite IH. destruct t; simpl; now rewrite andb_true_r.
Qed.

(** Searching for one character of a class is asking whether the text
    has such a character. *)
Lemma search_cls (p : ascii -> bool) (s : string) :
  search [Cls p] s = any_char p s.
Proof. apply search_from_cls. Qed.

Lemma any_char_ext (p q : ascii -> bool) (s : string) :
  (forall c, p c = q c) -> any_char p s = any_char q s.
Proof.
  intros H; induction s as [|c t IH]; simpl; [reflexivity|].
  now rewrite H, IH.
Qed.

Lemma any_char_none (p q : ascii -> bool) (s : string) :
  all_chars p s = true ->
  (forall c, p c = true -> q c = false) ->
  any_char q s = false.
Proof.
  intros Hall Hpq; induction s as [|c t IH]; simpl in *; [reflexivity|].
  apply andb_true_iff in Hall as [Hc Ht].
  now rewrite (Hpq c Hc), IH.
Qed.

Lemma after_last_absent (c : ascii) (s : string) :
  any_char (Ascii.eqb c) s = false -> after_last c s = s.
Proof.
  destruct s as [|a t]; simpl; [reflexivity|].
  intros H. apply orb_false_iff in H as [Ha Ht].
  rewrite Ht. rewrite Ascii.eqb_sym, Ha. reflexivity.
Qed.

Lemma prefix_one (c : ascii) (s : string) :
  prefix (String c "") s =
  match s with
  | EmptyString => false
  | String a _ => Ascii.eqb c a
  end.
Proof.
  destruct s as [|a t]; simpl; [reflexivity|].
  destruct (ascii_dec c a) as [->|Hne].
  - rewrite Ascii.eqb_refl. now destruct t.
  - symmetry. now apply Ascii.eqb_neq.
Qed.

(** A one-character text is contained exactly when the character occurs. *)
Lemma contains_one (c : ascii) (s : string) :
  contains (String c "") s = any_char (Ascii.eqb c) s.
Proof.
  induction s as [|a t IH].
  - reflexivity.
  - change (contains (String c "") (String a t))
      with (prefix (String c "") (String a t) || contains (String c "") t).
    rewrite prefix_one, IH. reflexivity.
Qed.

Lemma map_chars_fixed (f : ascii -> ascii) (p : ascii -> bool) (s : string) :
  all_chars p s = true ->
  (forall c, p c = true -> f c = c) ->
  map_chars f s = s.
Proof.
  intros Hall Hf; induction s as [|c t IH]; simpl in *; [reflexivity|].
  apply andb_true_iff in Hall as [Hc Ht].
  now rewrite (Hf c Hc), IH.
Qed.

End StringFacts.

(** ** Password policy *)

Section PasswordFacts.
Import PyStr Re PasswordValidator.

Lemma append_if_filter (cond : bool) (msg : string) (errors : list string) :
  append_if cond msg errors = (errors ++ if cond then [msg] else [])%list.
Proof. destruct cond; simpl; [reflexivity | now rewrite app_nil_r]. Qed.

(** [validate] as a filter over the five rules. *)
Lemma validate_filter (cfg : Settings) (password : string) :
  snd (validate cfg password)
  = map (message cfg) (filter (violated cfg password) rules).
Proof.
  unfold validate, rules. simpl snd.
  rewrite !append_if_filter, !search_cls. simpl app at 1.
  cbn [filter violated].
  destruct (Z.ltb _ _);
    destruct (password_require_uppercase cfg && _);
    destruct (password_require_lowercase cfg && _);
    destruct (password_require_digit cfg && _);
    destruct (password_require_special cfg && _); reflexivity.
Qed.

Lemma validate_flag (cfg : Settings) (password : string) :
  fst (validate cfg password) = true <-> snd (validate cfg password) = [].
Proof.
  unfold validate. simpl fst; simpl snd.
  match goal with |- context [List.length ?l] => destruct l end; simpl.
  - tauto.
  - split; discriminate.
Qed.

(** C7.  For every (ASCII) password and every policy, [validate] returns
    the messages of all violated rules, in the order minimum length,
    uppercase, lowercase, digit, special character, so every violated
    rule is reported and not only the first; the flag is true exactly
    when that list is empty.  Under the default policy, ["abc"] gets four
    messages and ["Abcdef1!"] none. *)
Theorem validate_reports_all_violations :
  (forall (cfg : Settings) (password : string),
     is_ascii password = true ->
     snd (validate cfg password)
       = map (message cfg) (filter (violated cfg password) rules)
     /\ (fst (validate cfg password) = true
         <-> snd (validate cfg password) = [])
     /\ (forall r : rule,
           violated cfg password r = true ->
           In (message cfg r) (snd (validate cfg password))))
  /\ validate default_settings "abc"
     = (false,
        [msg_length default_settings; msg_uppercase; msg_digit; msg_special])
  /\ validate default_settings "Abcdef1!" = (true, []).
Proof.
  split; [|split; reflexivity].
  intros cfg password _. split; [apply validate_filter|].
  split; [apply validate_flag|].
  intros r Hr. rewrite validate_filter. apply in_map. apply filter_In.
  split; [destruct r; simpl; tauto | exact Hr].
Qed.

Lemma validate_reports_all_violations_witness :
  is_ascii "abc" = true
  /\ snd (validate default_settings "abc")
     = map (message default_settings)
         (filter (violated default_settings "abc") rules)
  /\ List.length (snd (validate default_settings "abc")) = 4%nat.
Proof.
  split; [reflexivity|].
  split.
  - exact (proj1 (proj1 validate_reports_all_violations
                    default_settings "abc" eq_refl)).
  - reflexivity.
Defined.

End PasswordFacts.

(** ** File names *)

(** What [find] returns is the first element that passes the test. *)
Lemma find_first {A : Type} (f : A -> bool) (l : list A) (x : A) :
  find f l = Some x ->
  exists before after,
    l = (before ++ x :: after)%list
    /\ f x = true
    /\ forall k, In k before -> f k = false.
Proof.
  induction l as [|a t IH]; simpl; [discriminate|].
  destruct (f a) eqn:Fa.
  - intros [= ->]. exists [], t. repeat split; [exact Fa | contradiction].
  - intros H. destruct (IH H) as (before & after & -> & Fx & Hb).
    exists (a :: before), after. repeat split; [exact Fx|].
    intros k [<-|Hk]; [exact Fa | now apply Hb].
Qed.

Section PathFacts.
Import PyStr Re PathSanitizer.

(** None of the forbidden elements other than [..] is made of characters
    that a name keeps. *)
Lemma name_char_not_forbidden (c : ascii) :
  name_char c = true ->
  Ascii.eqb "~" c = false /\ Ascii.eqb "\" c = false
  /\ Ascii.eqb "|" c = false /\ Ascii.eqb ">" c = false
  /\ Ascii.eqb "<" c = false /\ Ascii.eqb "?" c = false
  /\ Ascii.eqb "*" c = false /\ Ascii.eqb "/" c = false.
Proof.
  intros H.
  repeat split;
    (destruct (Ascii.eqb _ c) eqn:E; [|reflexivity];
     apply Ascii.eqb_eq in E; subst c; discriminate H).
Qed.

Lemma clean_no_char (x : ascii) (s : string) :
  all_chars name_char s = true ->
  name_char x = false ->
  any_char (Ascii.eqb x) s = false.
Proof.
  intros Hall Hx. apply any_char_none with (p := name_char); [exact Hall|].
  intros c Hc. destruct (Ascii.eqb x c) eqn:E; [|reflexivity].
  apply Ascii.eqb_eq in E; subst c. congruence.
Qed.

(** X17.  A name made of word characters, dots and dashes, without [..] and of
    at most 255 characters, comes back as it is. *)
Lemma sanitize_filename_clean (filename : string) :
  all_chars name_char filename = true ->
  contains ".." filename = false ->
  length filename <= 255 ->
  sanitize_filename filename = Return filename.
Proof.
  intros Hall Hdots Hlen. unfold sanitize_filename.
  rewrite (after_last_absent "/" filename) by (now apply clean_no_char).
  rewrite (after_last_absent "\" filename) by (now apply clean_no_char).
  unfold FORBIDDEN_CHARS. cbn [find]. rewrite Hdots.
  rewrite !contains_one.
  rewrite !clean_no_char by (exact Hall || reflexivity).
  unfold sub_class.
  rewrite (map_chars_fixed _ name_char) by
    (try exact Hall; intros c Hc; unfold not_name_char; fold (name_char c);
     now rewrite Hc).
  apply Nat.ltb_ge in Hlen. now rewrite Hlen.
Qed.

(** C8, as the code has it.  The path is cut first: only the last
    component, after the last [/] and the last backslash, is examined.
    If that component contains a forbidden element, [sanitize_filename]
    raises [ValueError] naming the first such element in the order of
    the list: no element before it in [FORBIDDEN_CHARS] is contained --
    so ["a..b"] raises for [..] and ["a<b>c"] for [>], which comes
    before [<]; if it contains none, a name is returned.
    ["../../etc/passwd"] is cut to ["passwd"] and returned, and a clean
    name such as ["report.csv"] is returned unchanged. *)
Theorem sanitize_filename_checks_basename :
  (forall filename : string,
     (exists char, In char FORBIDDEN_CHARS
                   /\ contains char (basename filename) = true) ->
     exists before char after,
       FORBIDDEN_CHARS = (before ++ char :: after)%list
       /\ contains char (basename filename) = true
       /\ (forall c, In c before -> contains c (basename filename) = false)
       /\ sanitize_filename filename
          = Raise (ValueError (forbidden_in_name char)))
  /\ (forall filename : string,
        (forall char, In char FORBIDDEN_CHARS ->
                      contains char (basename filename) = false) ->
        raises (sanitize_filename filename) = false)
  /\ sanitize_filename "a..b"
     = Raise (ValueError (forbidden_in_name ".."))
  /\ sanitize_filename "a<b>c"
     = Raise (ValueError (forbidden_in_name ">"))
  /\ sanitize_filename "../../etc/passwd" = Return "passwd"
  /\ sanitize_filename "report.csv" = Return "report.csv".
Proof.
  split; [|split; [|repeat split; reflexivity]].
  - intros filename [char [Hin Hc]].
    unfold sanitize_filename. fold (basename filename).
    destruct (find (fun c => contains c (basename filename)) FORBIDDEN_CHARS)
      as [char'|] eqn:Hfind.
    + destruct (find_first _ _ _ Hfind) as (before & after & E & Hc' & Hb).
      exists before, char', after. now repeat split.
    + apply (find_none _ _ Hfind) in Hin. cbv beta in Hin. congruence.
  - intros filename Hnone.
    unfold sanitize_filename. fold (basename filename).
    destruct (find (fun c => contains c (basename filename)) FORBIDDEN_CHARS)
      as [char'|] eqn:Hfind.
    + apply find_some in Hfind as [Hin' Hc']. rewrite (Hnone _ Hin') in Hc'.
      discriminate.
    + destruct (Nat.ltb 255 _); reflexivity.
Qed.

Lemma sanitize_filename_checks_basename_witness :
  (exists char, In char FORBIDDEN_CHARS
                /\ contains char (basename "docs/my?<file.txt") = true)
  /\ exists before char after,
       FORBIDDEN_CHARS = (before ++ char :: after)%list
       /\ contains char (basename "docs/my?<file.txt") = true
       /\ (forall c, In c before ->
                     contains c (basename "docs/my?<file.txt") = false)
       /\ sanitize_filename "docs/my?<file.txt"
          = Raise (ValueError (forbidden_in_name char)).
Proof.
  assert (H : exists char, In char FORBIDDEN_CHARS
                /\ contains char (basename "docs/my?<file.txt") = true).
  { exists "?". split; [simpl; tauto | reflexivity]. }
  split; [exact H|].
  exact (proj1 sanitize_filename_checks_basename "docs/my?<file.txt" H).
Defined.

(** The claim as stated fails: the text ["../../etc/passwd"] contains the
    forbidden element [..] and yet no error is raised. *)
Lemma sanitize_filename_traversal_accepted :
  In ".." FORBIDDEN_CHARS
  /\ contains ".." "../../etc/passwd" = true
  /\ raises (sanitize_filename "../../etc/passwd") = false.
Proof. repeat split; simpl; tauto. Qed.

End PathFacts.

(** ** The search procedure against the meaning of patterns *)

Section RegexFacts.
Import PyStr Re.

Lemma append_nil_r (s : string) : s ++ "" = s.
Proof. induction s as [|c t IH]; simpl; [reflexivity | now rewrite IH]. Qed.

Lemma append_assoc (a b c : string) : (a ++ b) ++ c = a ++ b ++ c.
Proof. induction a as [|x t IH]; simpl; [reflexivity | now rewrite IH]. Qed.

Lemma last_or_app (prev : option ascii) (a b : string) :
  last_or prev (a ++ b) = last_or (last_or prev a) b.
Proof.
  revert prev; induction a as [|x t IH]; intros prev; simpl;
    [reflexivity | apply IH].
Qed.

Lemma match_here_nil (s : string) (prev : option ascii) :
  match_here s prev [] = true.
Proof. destruct s; reflexivity. Qed.

Lemma match_here_bnd (s : string) (prev : option ascii) (r : regex) :
  match_here s prev (Bnd :: r) = at_boundary prev s && match_here s prev r.
Proof. destruct s; reflexivity. Qed.

Local Ltac bool_split :=
  repeat match goal with
         | H : _ && _ = true |- _ => apply andb_true_iff in H as [? ?]
         | H : _ || _ = true |- _ => apply orb_true_iff in H as [?|?]
         end.

(** The procedure only accepts what the pattern means. *)
Lemma match_here_sound (s : string) :
  forall prev r,
    match_here s prev r = true ->
    exists m rest, s = m ++ rest /\ Matches prev r m rest.
Proof.
  induction s as [|x t IHs]; intros prev r; revert prev;
    induction r as [|a r' IHr]; intros prev H.
  - exists "", "". split; [reflexivity | constructor].
  - destruct a; simpl in H; try discriminate. bool_split.
    destruct (IHr prev) as (m & rest & E & HM); [assumption|].
    exists m, rest. split; [exact E|]. constructor; [|exact HM].
    now rewrite <- E.
  - exists "", (String x t). split; [reflexivity | constructor].
  - destruct a; simpl in H; bool_split.
    + destruct (IHr prev) as (m & rest & E & HM); [assumption|].
      exists m, rest. split; [exact E|]. constructor; [|exact HM].
      now rewrite <- E.
    + destruct (IHs _ _ H0) as (m & rest & E & HM).
      apply Ascii.eqb_eq in H; subst c.
      exists (String x m), rest. split; [simpl; now rewrite E|].
      now constructor.
    + destruct (IHs _ _ H0) as (m & rest & E & HM).
      exists (String x m), rest. split; [simpl; now rewrite E|].
      now constructor.
    + destruct (IHs _ _ H0) as (m & rest & E & HM).
      exists (String x m), rest. split; [simpl; now rewrite E|].
      now constructor.
    + destruct (IHs _ _ H0) as (m & rest & E & HM).
      exists (String x m), rest. split; [simpl; now rewrite E|].
      now apply M_plus_more.
    + destruct (IHs _ _ H0) as (m & rest & E & HM).
      exists (String x m), rest. split; [simpl; now rewrite E|].
      now apply M_plus_last.
Qed.

(** The procedure accepts everything the pattern means. *)
Lemma match_here_complete (prev : option ascii) (r : regex) (m rest : string) :
  Matches prev r m rest -> match_here (m ++ rest) prev r = true.
Proof.
  induction 1; simpl.
  - apply match_here_nil.
  - rewrite match_here_bnd. now rewrite H, IHMatches.
  - now rewrite Ascii.eqb_refl, IHMatches.
  - now rewrite H, IHMatches.
  - now rewrite H, IHMatches.
  - rewrite H, IHMatches. simpl. apply orb_true_r.
  - now rewrite H, IHMatches.
Qed.

Lemma search_from_sound (r : regex) (s : string) :
  forall prev,
    search_from r prev s = true ->
    exists pre m rest,
      s = pre ++ m ++ rest /\ Matches (last_or prev pre) r m rest.
Proof.
  induction s as [|c t IH]; intros prev H; cbn [search_from] in H;
    bool_split; try discriminate.
  - apply match_here_sound in H as (m & rest & E & HM).
    exists "", m, rest. now split.
  - apply match_here_sound in H as (m & rest & E & HM).
    exists "", m, rest. now split.
  - apply IH in H as (pre & m & rest & E & HM).
    exists (String c pre), m, rest. split; [simpl; now rewrite E | exact HM].
Qed.

Lemma search_from_complete (r : regex) (pre m rest : string) :
  forall prev,
    Matches (last_or prev pre) r m rest ->
    search_from r prev (pre ++ m ++ rest) = true.
Proof.
  induction pre as [|c t IH]; intros prev HM; cbn [last_or append] in *.
  - apply match_here_complete in HM.
    destruct (m ++ rest); cbn [search_from]; now rewrite HM.
  - cbn [search_from]. rewrite (IH _ HM). apply orb_true_r.
Qed.

(** [re.search] finds a match exactly when some stretch of the text is
    matched by the pattern in its context. *)
Lemma search_spec (r : regex) (s : string) :
  search r s = true <->
  exists pre m rest, s = pre ++ m ++ rest /\ Matches (last_char pre) r m rest.
Proof.
  split.
  - apply search_from_sound.
  - intros (pre & m & rest & -> & HM). now apply search_from_complete.
Qed.

End RegexFacts.

(** ** Character classes *)

Section CharFacts.
Import PyStr Re.

Lemma in_all_ascii (c : ascii) : In c all_ascii.
Proof.
  unfold all_ascii. rewrite <- (ascii_nat_embedding c).
  apply in_map, in_seq. pose proof (nat_ascii_bounded c). lia.
Qed.

(** A boolean property checked on the 256 characters holds of all. *)
Lemma forall_ascii (p : ascii -> bool) :
  forallb p all_ascii = true -> forall c, p c = true.
Proof.
  intros H c. rewrite forallb_forall in H. apply H, in_all_ascii.
Qed.

Lemma forall_ascii2 (p : ascii -> ascii -> bool) :
  forallb (fun x => forallb (p x) all_ascii) all_ascii = true ->
  forall x c, p x c = true.
Proof.
  intros H x c.
  apply (forall_ascii (p x)). revert x. apply forall_ascii. exact H.
Qed.

Lemma is_word_upper (c : ascii) : is_word (upper_char c) = is_word c.
Proof.
  apply Bool.eqb_prop. revert c. apply forall_ascii. vm_compute. reflexivity.
Qed.

Lemma is_space_not_word (c : ascii) : is_space c = true -> is_word c = false.
Proof.
  intros Hs.
  assert (H : implb (is_space c) (negb (is_word c)) = true).
  { revert c Hs. intros c _. revert c. apply forall_ascii.
    vm_compute. reflexivity. }
  rewrite Hs in H. simpl in H. now apply negb_true_iff.
Qed.

Lemma is_digit_word (c : ascii) : is_digit c = true -> is_word c = true.
Proof.
  intros H. unfold is_word. rewrite H. now rewrite orb_true_r.
Qed.

(** Under IGNORECASE two characters agree when their upper-case forms
    are the same. *)
Lemma eq_ignore_case_upper (x c : ascii) :
  eq_ignore_case x c = Ascii.eqb (upper_char x) (upper_char c).
Proof.
  apply Bool.eqb_prop. revert x c. apply forall_ascii2.
  vm_compute. reflexivity.
Qed.

Lemma upper_app (a b : string) : upper (a ++ b) = upper a ++ upper b.
Proof.
  induction a as [|x t IH]; simpl; [reflexivity|]. unfold upper in *.
  simpl. now rewrite IH.
Qed.

Lemma map_chars_split (f : ascii -> ascii) (a b : string) :
  forall s, map_chars f s = a ++ b ->
  exists s1 s2, s = s1 ++ s2 /\ map_chars f s1 = a /\ map_chars f s2 = b.
Proof.
  induction a as [|x t IH]; intros s H; simpl in H.
  - exists "", s. now repeat split.
  - destruct s as [|y u]; simpl in H; [discriminate|].
    injection H as Hx Ht. apply IH in Ht as (s1 & s2 & -> & H1 & H2).
    exists (String y s1), s2. simpl. now rewrite Hx, H1.
Qed.

Lemma word_last_or_upper (s : string) :
  forall prev prev',
    word_opt prev' = word_opt prev ->
    word_opt (last_or prev' (upper s)) = word_opt (last_or prev s).
Proof.
  induction s as [|c t IH]; intros prev prev' H; simpl; [exact H|].
  apply IH. simpl. apply is_word_upper.
Qed.

Lemma word_head_upper (s : string) :
  word_opt (head (upper s)) = word_opt (head s).
Proof. destruct s; simpl; [reflexivity | apply is_word_upper]. Qed.

Lemma upper_idem (s : string) : upper (upper s) = upper s.
Proof.
  induction s as [|c t IH]; simpl; [reflexivity|]. unfold upper in *.
  simpl. rewrite IH. f_equal.
  apply Ascii.eqb_eq. revert c. apply forall_ascii. vm_compute. reflexivity.
Qed.

End CharFacts.

(** ** Reading the service's patterns *)

Section PatternFacts.
Import PyStr Re.

Lemma matches_nil (prev : option ascii) (m rest : string) :
  Matches prev [] m rest <-> m = "".
Proof.
  split; [now inversion 1 | intros ->; constructor].
Qed.

Lemma matches_bnd (prev : option ascii) (r : regex) (m rest : string) :
  Matches prev (Bnd :: r) m rest <->
  at_boundary prev (m ++ rest) = true /\ Matches prev r m rest.
Proof.
  split; [inversion 1; now subst | intros [H1 H2]; now constructor].
Qed.

(** A literal text matches itself. *)
Lemma matches_lit (k : string) (r : regex) (rest : string) :
  forall prev m,
    Matches prev (lit k ++ r)%list m rest <->
    exists m', m = k ++ m' /\ Matches (last_or prev k) r m' rest.
Proof.
  induction k as [|c k' IH]; intros prev m; simpl.
  - split; [intros H; now exists m | now intros (m' & -> & H)].
  - split.
    + inversion 1; subst.
      match goal with
      | Hm0 : Matches _ (lit k' ++ r)%list _ _ |- _ =>
          apply IH in Hm0 as (m' & -> & HM)
      end.
      now exists m'.
    + intros (m' & -> & HM). constructor. apply IH. now exists m'.
Qed.

(** A literal text under IGNORECASE matches the texts with the same
    upper-case form. *)
Lemma matches_lit_i (k : string) (r : regex) (rest : string) :
  forall prev m,
    Matches prev (lit_i k ++ r)%list m rest <->
    exists kw m',
      m = kw ++ m' /\ upper kw = upper k /\ Matches (last_or prev kw) r m' rest.
Proof.
  induction k as [|c k' IH]; intros prev m; simpl.
  - split.
    + intros H. now exists "", m.
    + intros (kw & m' & -> & Hup & HM). destruct kw; [exact HM | discriminate].
  - split.
    + inversion 1; subst.
      match goal with
      | Hm0 : Matches _ (lit_i k' ++ r)%list _ _ |- _ =>
          apply IH in Hm0 as (kw & m' & -> & Hup & HM)
      end.
      exists (String x kw), m'. repeat split; [|exact HM].
      unfold upper in *. simpl. rewrite Hup. f_equal.
      match goal with
      | Hx : eq_ignore_case _ _ = true |- _ =>
          rewrite eq_ignore_case_upper in Hx; now apply Ascii.eqb_eq
      end.
    + intros (kw & m' & -> & Hup & HM).
      destruct kw as [|x kw]; [discriminate|].
      unfold upper in Hup. simpl in Hup. injection Hup as Hx Hk.
      simpl. apply M_chri.
      * rewrite eq_ignore_case_upper, Hx. apply Ascii.eqb_refl.
      * apply IH. now exists kw, m'.
Qed.

(** [class+] matches the non-empty texts made of the class. *)
Lemma matches_plus (p : ascii -> bool) (r : regex) (rest : string) :
  forall prev m,
    Matches prev (Plus p :: r) m rest <->
    exists ws m',
      m = ws ++ m' /\ ws <> "" /\ all_chars p ws = true
      /\ Matches (last_or prev ws) r m' rest.
Proof.
  intros prev m; split.
  - intros H. remember (Plus p :: r) as pr eqn:E.
    induction H; try discriminate; injection E as -> ->.
    + exists (String x ""), m. simpl. rewrite H.
      repeat split; [discriminate | assumption].
    + destruct (IHMatches eq_refl) as (ws & m' & -> & _ & Hall & HM).
      exists (String x ws), m'. simpl. rewrite H, Hall.
      repeat split; [discriminate | assumption].
  - intros (ws & m' & -> & Hne & Hall & HM). revert prev Hne Hall HM.
    induction ws as [|x t IH]; intros prev Hne Hall HM; [congruence|].
    simpl in Hall. apply andb_true_iff in Hall as [Hx Ht].
    destruct t as [|y t'].
    + simpl. now apply M_plus_last.
    + change ((String x (String y t')) ++ m')
        with (String x (String y t' ++ m')).
      apply M_plus_more; [exact Hx|].
      apply IH; [discriminate | exact Ht | exact HM].
Qed.

End PatternFacts.

(** ** Query optimizer: the two searches say what the specification says *)

Section OptimizerSearchFacts.
Import PyStr Re QueryOptimizer.

(** A text whose upper-case form starts with a word character starts
    with a word character. *)
Lemma word_head_of_upper (kw k : string) :
  upper kw = k -> word_opt (head k) = true -> word_opt (head kw) = true.
Proof. intros <- H. now rewrite word_head_upper in H. Qed.

Lemma head_app (a b : string) :
  a <> "" -> head (a ++ b) = head a.
Proof. destruct a; [congruence | reflexivity]. Qed.

Lemma upper_nonempty (kw k : string) : upper kw = k -> k <> "" -> kw <> "".
Proof. intros <- H ->. now apply H. Qed.

Lemma boundary_before_word (prev : option ascii) (s : string) :
  word_opt (head s) = true ->
  at_boundary prev s = negb (word_opt prev).
Proof.
  intros H. unfold at_boundary. rewrite H. now destruct (word_opt prev).
Qed.

Lemma boundary_after_word (prev : option ascii) (s : string) :
  word_opt prev = true ->
  at_boundary prev s = negb (word_opt (head s)).
Proof. intros H. unfold at_boundary. now rewrite H. Qed.

Lemma limit_re_matches (prev : option ascii) (m rest : string) :
  Matches prev LIMIT_RE m rest <->
  word_opt prev = false
  /\ exists kw ws ds,
       m = kw ++ ws ++ ds
       /\ upper kw = "LIMIT"
       /\ ws <> "" /\ all_chars is_space ws = true
       /\ ds <> "" /\ all_chars is_digit ds = true.
Proof.
  unfold LIMIT_RE. rewrite matches_bnd, matches_lit_i. split.
  - intros (Hb & kw & m1 & -> & Hup & HM).
    apply matches_plus in HM as (ws & m2 & -> & Hws & Hsp & HM).
    apply matches_plus in HM as (ds & m3 & -> & Hds & Hdg & HM).
    apply matches_nil in HM as ->. rewrite append_nil_r in *.
    change (upper "LIMIT") with "LIMIT" in Hup.
    rewrite boundary_before_word in Hb.
    + split; [now apply negb_true_iff|]. now exists kw, ws, ds.
    + rewrite append_assoc, head_app
        by (apply (upper_nonempty _ _ Hup); discriminate).
      now apply (word_head_of_upper _ _ Hup).
  - intros (Hp & kw & ws & ds & -> & Hup & Hws & Hsp & Hds & Hdg). split.
    + rewrite boundary_before_word; [now rewrite Hp|].
      rewrite append_assoc, head_app
        by (apply (upper_nonempty _ _ Hup); discriminate).
      now apply (word_head_of_upper _ _ Hup).
    + exists kw, (ws ++ ds). repeat split; [exact Hup|].
      apply matches_plus. exists ws, ds. repeat split; try assumption.
      apply matches_plus. exists ds, "". rewrite append_nil_r.
      repeat split; try assumption. constructor.
Qed.

(** [_has_limit] holds exactly of the queries with a LIMIT clause. *)
Lemma has_limit_spec (q : string) :
  _has_limit q = true <-> has_limit_clause q.
Proof.
  unfold _has_limit, has_limit_clause. rewrite search_spec. split.
  - intros (pre & m & rest & -> & HM).
    apply limit_re_matches in HM
      as (Hp & kw & ws & ds & -> & Hup & Hws & Hsp & Hds & Hdg).
    exists pre, kw, ws, ds, rest. rewrite !append_assoc. now repeat split.
  - intros (pre & kw & ws & ds & post & -> & Hup & Hp & Hws & Hsp & Hds & Hdg).
    exists pre, (kw ++ ws ++ ds), post. rewrite !append_assoc.
    split; [reflexivity|]. apply limit_re_matches.
    split; [exact Hp|]. now exists kw, ws, ds.
Qed.

Lemma last_or_nonempty (prev : option ascii) (s : string) :
  s <> "" -> last_or prev s = last_char s.
Proof. destruct s; [congruence | reflexivity]. Qed.

Lemma word_last_nonempty (k : string) :
  word_opt (last_char k) = true -> k <> "".
Proof. intros H ->. discriminate. Qed.

Lemma keyword_re_matches (kw : string) (prev : option ascii) (m rest : string) :
  word_opt (head kw) = true ->
  word_opt (last_char kw) = true ->
  Matches prev (keyword_re kw) m rest <->
  m = kw /\ word_opt prev = false /\ word_opt (head rest) = false.
Proof.
  intros Hh Hl. pose proof (word_last_nonempty _ Hl) as Hne.
  unfold keyword_re. rewrite matches_bnd, matches_lit. split.
  - intros (Hb & m' & -> & HM).
    apply matches_bnd in HM as [Hb' HM]. apply matches_nil in HM as ->.
    rewrite append_nil_r in *. simpl in Hb'.
    rewrite boundary_before_word in Hb by (now rewrite head_app).
    rewrite last_or_nonempty, boundary_after_word in Hb' by assumption.
    repeat split; now apply negb_true_iff.
  - intros (-> & Hp & Hr). split.
    + rewrite boundary_before_word by (now rewrite head_app).
      now rewrite Hp.
    + exists "". rewrite append_nil_r. split; [reflexivity|].
      apply matches_bnd. simpl.
      rewrite last_or_nonempty, boundary_after_word by assumption.
      rewrite Hr. split; [reflexivity | constructor].
Qed.

(** Searching the upper-cased query for [\bKEYWORD\b] finds the keyword
    exactly when the query has it as a case-insensitive whole word. *)
Lemma keyword_search_spec (kw q : string) :
  word_opt (head kw) = true ->
  word_opt (last_char kw) = true ->
  search (keyword_re kw) (upper q) = true <-> has_word kw q.
Proof.
  intros Hh Hl. rewrite search_spec. unfold has_word. split.
  - intros (pre' & m & rest' & E & HM).
    apply (keyword_re_matches kw _ _ _ Hh Hl) in HM as (-> & Hp & Hr).
    apply map_chars_split in E as (pre & s2 & -> & Hpre & E).
    apply map_chars_split in E as (mid & post & -> & Hmid & Hpost).
    exists pre, mid, post. repeat split; [exact Hmid | |].
    + rewrite <- Hpre in Hp. fold (upper pre) in Hp. unfold last_char in *.
      now rewrite (word_last_or_upper pre None None) in Hp.
    + rewrite <- Hpost in Hr. fold (upper post) in Hr.
      now rewrite word_head_upper in Hr.
  - intros (pre & mid & post & -> & Hmid & Hp & Hr).
    exists (upper pre), kw, (upper post).
    rewrite !upper_app, Hmid. split; [reflexivity|].
    apply (keyword_re_matches kw _ _ _ Hh Hl). repeat split.
    + unfold last_char. now rewrite (word_last_or_upper pre None None).
    + now rewrite word_head_upper.
Qed.

(** Every dangerous keyword starts and ends with a word character. *)
Lemma dangerous_keywords_words (kw : string) :
  In kw DANGEROUS_KEYWORDS ->
  word_opt (head kw) = true /\ word_opt (last_char kw) = true.
Proof.
  unfold DANGEROUS_KEYWORDS. simpl.
  intros H; repeat (destruct H as [<-|H]; [split; reflexivity|]).
  contradiction.
Qed.

End OptimizerSearchFacts.

(** ** Query optimizer: LIMIT injection and the read-only guard *)

Section OptimizerFacts.
Import PyStr Re QueryOptimizer.

Lemma rstrip_spec (c : ascii) (s : string) :
  exists k,
    s = rstrip c s ++ repeat_char c k /\ last_char (rstrip c s) <> Some c.
Proof.
  induction s as [|a t (k & E & Hlast)]; simpl.
  - exists 0. split; [reflexivity | discriminate].
  - destruct (is_empty (rstrip c t) && Ascii.eqb a c) eqn:B.
    + apply andb_true_iff in B as [Hemp Hac].
      apply Ascii.eqb_eq in Hac; subst a.
      destruct (rstrip c t); [|discriminate]. simpl in E.
      exists (S k). simpl. split; [now rewrite <- E | discriminate].
    + exists k. simpl. split; [now rewrite <- E|].
      destruct (rstrip c t) as [|b u] eqn:R; simpl in *.
      * intros [= ->]. now rewrite Ascii.eqb_refl in B.
      * exact Hlast.
Qed.

Lemma uint_digits (d : Decimal.uint) :
  all_chars is_digit (NilEmpty.string_of_uint d) = true.
Proof. induction d; simpl; [reflexivity | assumption ..]. Qed.

(** The decimal text of a natural number: digits, at least one. *)
Lemma str_of_int_digits (z : Z) :
  (0 <= z)%Z ->
  str_of_int z <> "" /\ all_chars is_digit (str_of_int z) = true.
Proof.
  intros Hz. unfold str_of_int.
  destruct z as [|p|p]; [split; [discriminate | reflexivity] | | lia].
  simpl. destruct (Pos.to_uint p) eqn:E; simpl;
    try (split; [discriminate | apply uint_digits]).
  split; [discriminate | reflexivity].
Qed.

(** What [_add_limit] returns always has a LIMIT clause, whatever the
    query is. *)
Lemma add_limit_has_limit (q : string) (limit : Z) :
  (0 <= limit)%Z -> _has_limit (_add_limit q limit) = true.
Proof.
  intros Hl. apply has_limit_spec. unfold _add_limit, has_limit_clause.
  destruct (str_of_int_digits limit Hl) as [Hne Hdig].
  exists (rstrip ";" q ++ " "), "LIMIT", " ", (str_of_int limit), "".
  rewrite append_nil_r, !append_assoc. repeat split; try assumption.
  - unfold last_char. now rewrite last_or_app.
  - discriminate.
Qed.



(** C9.  [optimize] is idempotent: the clause it appends is found by the
    LIMIT check of the second pass.  The limit is not negative (the
    settings keep it between 1 and 1000). *)
Theorem optimize_idempotent :
  forall (self : QueryOptimizer.t) (q : string),
    (0 <= default_limit self)%Z ->
    optimize self (optimize self q) = optimize self q.
Proof.
  intros self q Hl. unfold optimize at 2 3.
  destruct (_has_limit q) eqn:E; simpl negb; cbv iota.
  - unfold optimize. now rewrite E.
  - unfold optimize. now rewrite add_limit_has_limit.
Qed.

Lemma optimize_idempotent_witness :
  (0 <= default_limit (init default_settings))%Z
  /\ optimize (init default_settings)
       (optimize (init default_settings) "MATCH (n) RETURN n;")
     = optimize (init default_settings) "MATCH (n) RETURN n;".
Proof.
  assert (H : (0 <= default_limit (init default_settings))%Z)
    by (simpl; lia).
  split; [exact H|].
  exact (optimize_idempotent (init default_settings) "MATCH (n) RETURN n;" H).
Defined.

(** Valid settings give a limit that is not negative. *)
Lemma settings_valid_limit (cfg : Settings) :
  settings_valid cfg -> (0 <= default_limit (init cfg))%Z.
Proof. intros (H & _). simpl. lia. Qed.

(** With a negative limit, which the settings exclude, a second pass would
    append the clause again. *)
Lemma optimize_negative_limit_repeats :
  let self := {| max_results := 1000; default_limit := (-1) |} in
  optimize self "RETURN 1" = "RETURN 1 LIMIT -1"
  /\ optimize self (optimize self "RETURN 1") = "RETURN 1 LIMIT -1 LIMIT -1".
Proof. split; reflexivity. Qed.

End OptimizerFacts.

Section ReadOnlyFacts.
Import PyStr Re QueryOptimizer.

(** With the guard on, the verdict follows the first keyword of the list
    that the query has as a whole word. *)
Lemma is_read_only_enabled (cfg : Settings) (q : string) :
  enable_read_only_mode cfg = true ->
  (forall kw, In kw DANGEROUS_KEYWORDS -> ~ has_word kw q)
  /\ is_read_only cfg q = (true, "")
  \/ exists before kw after,
       DANGEROUS_KEYWORDS = (before ++ kw :: after)%list
       /\ has_word kw q
       /\ (forall k, In k before -> ~ has_word k q)
       /\ is_read_only cfg q = (false, forbidden_msg kw).
Proof.
  intros Hen. unfold is_read_only. rewrite Hen. simpl negb. cbv iota.
  destruct (find _ DANGEROUS_KEYWORDS) as [kw|] eqn:F.
  - right. destruct (find_first _ _ _ F) as (before & after & E & Hkw & Hb).
    exists before, kw, after. split; [exact E|].
    assert (Hin : forall k, In k (before ++ kw :: after)%list ->
                            In k DANGEROUS_KEYWORDS) by (now rewrite E).
    repeat split.
    + destruct (dangerous_keywords_words kw) as [Hh Hl];
        [apply Hin, in_elt|].
      now apply (keyword_search_spec kw q Hh Hl).
    + intros k Hk Hw.
      destruct (dangerous_keywords_words k) as [Hh Hl];
        [apply Hin, in_or_app; now left|].
      apply (keyword_search_spec k q Hh Hl) in Hw.
      rewrite (Hb k Hk) in Hw. discriminate.
  - left. split; [|reflexivity]. intros kw Hin Hw.
    destruct (dangerous_keywords_words kw Hin) as [Hh Hl].
    apply (keyword_search_spec kw q Hh Hl) in Hw.
    pose proof (find_none _ _ F kw Hin) as Hn. cbv beta in Hn.
    rewrite Hw in Hn. discriminate.
Qed.

(** C1, as the code has it.  With read-only mode off every query is
    reported read-only with an empty message.  With it on, every (ASCII)
    query that has a dangerous keyword as a case-insensitive whole word
    is refused with the message naming the first keyword of the list
    CREATE, DELETE, REMOVE, SET, MERGE, DROP, ALTER, DETACH DELETE that it
    has, and a query that has none is accepted.  ["MATCH (n) RETURN n"]
    is accepted; ["MATCH (n) DETACH DELETE n"] is refused and the message
    names DELETE, which comes before DETACH DELETE in the list. *)
Theorem is_read_only_first_keyword :
  (forall (cfg : Settings) (q : string),
     enable_read_only_mode cfg = false -> is_read_only cfg q = (true, ""))
  /\ (forall (cfg : Settings) (q : string),
        enable_read_only_mode cfg = true ->
        is_ascii q = true ->
        (exists kw, In kw DANGEROUS_KEYWORDS /\ has_word kw q) ->
        exists before kw after,
          DANGEROUS_KEYWORDS = (before ++ kw :: after)%list
          /\ has_word kw q
          /\ (forall k, In k before -> ~ has_word k q)
          /\ is_read_only cfg q = (false, forbidden_msg kw))
  /\ (forall (cfg : Settings) (q : string),
        enable_read_only_mode cfg = true ->
        is_ascii q = true ->
        (forall kw, In kw DANGEROUS_KEYWORDS -> ~ has_word kw q) ->
        is_read_only cfg q = (true, ""))
  /\ is_read_only default_settings "MATCH (n) RETURN n" = (true, "")
  /\ is_read_only (init_read_only false) "CREATE (n) RETURN n" = (true, "")
  /\ is_read_only default_settings "MATCH (n) DETACH DELETE n"
     = (false, forbidden_msg "DELETE").
Proof.
  split; [|split; [|split; [|repeat split; reflexivity]]].
  - intros cfg q Hoff. unfold is_read_only. now rewrite Hoff.
  - intros cfg q Hen _ (kw & Hin & Hw).
    destruct (is_read_only_enabled cfg q Hen) as [[Hnone _]|H];
      [now elim (Hnone kw Hin) | exact H].
  - intros cfg q Hen _ Hnone.
    destruct (is_read_only_enabled cfg q Hen)
      as [[_ Hr]|(before & kw & after & E & Hw & _)]; [exact Hr|].
    elim (Hnone kw); [rewrite E; apply in_elt | exact Hw].
Qed.

End ReadOnlyFacts.

Section ReadOnlyExamples.
Import PyStr Re QueryOptimizer.

Lemma is_read_only_first_keyword_witness :
  enable_read_only_mode default_settings = true
  /\ is_ascii "match (n) set n.age = 1 delete n" = true
  /\ (exists kw, In kw DANGEROUS_KEYWORDS
                 /\ has_word kw "match (n) set n.age = 1 delete n")
  /\ exists before kw after,
       DANGEROUS_KEYWORDS = (before ++ kw :: after)%list
       /\ has_word kw "match (n) set n.age = 1 delete n"
       /\ (forall k, In k before ->
                     ~ has_word k "match (n) set n.age = 1 delete n")
       /\ is_read_only default_settings "match (n) set n.age = 1 delete n"
          = (false, forbidden_msg kw).
Proof.
  assert (H : exists kw, In kw DANGEROUS_KEYWORDS
                 /\ has_word kw "match (n) set n.age = 1 delete n").
  { exists "SET". split; [simpl; tauto|].
    exists "match (n) ", "set", " n.age = 1 delete n".
    repeat split. }
  split; [reflexivity|]. split; [reflexivity|]. split; [exact H|].
  exact (proj1 (proj2 is_read_only_first_keyword) default_settings
           "match (n) set n.age = 1 delete n" eq_refl eq_refl H).
Defined.

(** The claim as stated fails on its own example: the query has DETACH
    DELETE as a whole word, it is refused, and the message names DELETE;
    the text DETACH DELETE is not in it. *)
Lemma is_read_only_detach_delete_names_delete :
  has_word "DETACH DELETE" "MATCH (n) DETACH DELETE n"
  /\ is_read_only default_settings "MATCH (n) DETACH DELETE n"
     = (false, "Opération non autorisée: DELETE")
  /\ contains "DETACH DELETE"
       (snd (is_read_only default_settings "MATCH (n) DETACH DELETE n"))
     = false.
Proof.
  split; [|split; reflexivity].
  exists "MATCH (n) ", "DETACH DELETE", " n". repeat split.
Qed.

(** A query that has DETACH DELETE as a whole word has DELETE as one. *)
Lemma has_word_detach_delete (q : string) :
  has_word "DETACH DELETE" q -> has_word "DELETE" q.
Proof.
  intros (pre & mid & post & -> & Hmid & Hp & Hr).
  change "DETACH DELETE" with ("DETACH " ++ "DELETE") in Hmid.
  apply map_chars_split in Hmid as (m1 & m2 & -> & H1 & H2).
  exists (pre ++ m1), m2, post. rewrite !append_assoc.
  repeat split; [exact H2 | | exact Hr].
  unfold last_char. rewrite last_or_app.
  rewrite <- (word_last_or_upper m1 (last_or None pre) (last_or None pre))
    by reflexivity.
  unfold upper. now rewrite H1.
Qed.

(** X18.  No query makes [is_read_only] report DETACH DELETE: the last
    entry of the keyword list is never the one named in the message. *)
Lemma is_read_only_never_names_detach_delete (cfg : Settings) (q : string) :
  snd (is_read_only cfg q) <> forbidden_msg "DETACH DELETE".
Proof.
  unfold is_read_only.
  destruct (enable_read_only_mode cfg); simpl negb; cbv iota;
    [|discriminate].
  unfold DANGEROUS_KEYWORDS. cbn [find].
  destruct (search (keyword_re "CREATE") (upper q)); [discriminate|].
  destruct (search (keyword_re "DELETE") (upper q)) eqn:Hdel; [discriminate|].
  destruct (search (keyword_re "REMOVE") (upper q)); [discriminate|].
  destruct (search (keyword_re "SET") (upper q)); [discriminate|].
  destruct (search (keyword_re "MERGE") (upper q)); [discriminate|].
  destruct (search (keyword_re "DROP") (upper q)); [discriminate|].
  destruct (search (keyword_re "ALTER") (upper q)); [discriminate|].
  destruct (search (keyword_re "DETACH DELETE") (upper q)) eqn:Hdd;
    [|discriminate].
  apply keyword_search_spec in Hdd; [|reflexivity ..].
  apply has_word_detach_delete in Hdd.
  apply keyword_search_spec in Hdd; [|reflexivity ..].
  congruence.
Qed.

End ReadOnlyExamples.

(** ** Cache keys *)

Section SortFacts.
Import PyDict Json.

Lemma ascii_compare_N (a b : ascii) :
  Ascii.compare a b = N.compare (N_of_ascii a) (N_of_ascii b).
Proof. reflexivity. Qed.

Lemma string_leb_trans (a b c : string) :
  String.leb a b = true -> String.leb b c = true -> String.leb a c = true.
Proof.
  unfold String.leb. revert b c.
  induction a as [|x a' IH]; intros [|y b'] [|z c']; simpl;
    try reflexivity; try discriminate.
  rewrite !ascii_compare_N.
  destruct (N.compare_spec (N_of_ascii x) (N_of_ascii y)) as [E1|L1|G1];
    destruct (N.compare_spec (N_of_ascii y) (N_of_ascii z)) as [E2|L2|G2];
    destruct (N.compare_spec (N_of_ascii x) (N_of_ascii z)) as [E3|L3|G3];
    try reflexivity; try discriminate; try lia.
  apply IH.
Qed.

Lemma insert_item_perm (kv : string * string) (l : list (string * string)) :
  Permutation (insert_item kv l) (kv :: l).
Proof.
  induction l as [|a t IH]; simpl; [reflexivity|].
  destruct (String.leb (fst kv) (fst a)); [reflexivity|].
  rewrite IH. apply perm_swap.
Qed.

Lemma sort_items_perm (l : list (string * string)) :
  Permutation (sort_items l) l.
Proof.
  induction l as [|a t IH]; simpl; [reflexivity|].
  rewrite insert_item_perm. now apply perm_skip.
Qed.

Lemma insert_item_sorted (kv : string * string) (l : list (string * string)) :
  StronglySorted key_le l -> StronglySorted key_le (insert_item kv l).
Proof.
  induction 1 as [|a t Hs IH Hall]; simpl.
  - constructor; constructor.
  - destruct (String.leb (fst kv) (fst a)) eqn:E.
    + constructor; [now constructor|]. constructor; [exact E|].
      eapply Forall_impl; [|exact Hall].
      intros b Hab. unfold key_le in *. eapply string_leb_trans; eassumption.
    + constructor; [exact IH|].
      assert (Ha : key_le a kv).
      { unfold key_le. destruct (String.leb_total (fst a) (fst kv)) as [H|H];
          [exact H | congruence]. }
      eapply Permutation_Forall; [symmetry; apply insert_item_perm|].
      now constructor.
Qed.

Lemma sort_items_sorted (l : list (string * string)) :
  StronglySorted key_le (sort_items l).
Proof.
  induction l as [|a t IH]; simpl; [constructor | now apply insert_item_sorted].
Qed.

(** Two sorted lists of items with the same items and no repeated key
    are the same list. *)
Lemma sorted_items_unique (l1 : list (string * string)) :
  forall l2,
    StronglySorted key_le l1 -> StronglySorted key_le l2 ->
    Permutation l1 l2 -> NoDup (map fst l1) -> l1 = l2.
Proof.
  induction l1 as [|a t1 IH]; intros l2 S1 S2 P N.
  - now apply Permutation_nil in P.
  - destruct l2 as [|b t2];
      [now apply Permutation_sym, Permutation_nil in P|].
    inversion S1 as [|? ? S1' A1]; subst.
    inversion S2 as [|? ? S2' A2]; subst.
    inversion N as [|? ? Nin N']; subst.
    assert (Hab : a = b).
    { assert (Ia : In a (b :: t2))
        by (eapply Permutation_in; [exact P | now left]).
      assert (Ib : In b (a :: t1))
        by (eapply Permutation_in; [symmetry; exact P | now left]).
      destruct Ia as [->|Ia]; [reflexivity|].
      destruct Ib as [->|Ib]; [reflexivity|].
      rewrite Forall_forall in A1, A2.
      pose proof (String.leb_antisym _ _ (A1 b Ib) (A2 a Ia)) as E.
      elim Nin. rewrite E. now apply in_map. }
    subst b. f_equal. apply IH; try assumption.
    now apply Permutation_cons_inv in P.
Qed.

(** [sorted] does not depend on the order of insertion. *)
Lemma sort_items_order (l1 l2 : list (string * string)) :
  NoDup (map fst l1) -> Permutation l1 l2 -> sort_items l1 = sort_items l2.
Proof.
  intros N P. apply sorted_items_unique; try apply sort_items_sorted.
  - now rewrite !sort_items_perm.
  - eapply Permutation_NoDup; [|exact N].
    apply Permutation_map. symmetry. apply sort_items_perm.
Qed.

End SortFacts.

Section JsonFacts.
Import PyStr PyDict Json.

Lemma append_length (a b : string) :
  length (a ++ b) = length a + length b.
Proof. induction a as [|x t IH]; simpl; [reflexivity | now rewrite IH]. Qed.

Lemma append_inv_head (a b c : string) : a ++ b = a ++ c -> b = c.
Proof.
  induction a as [|x t IH]; simpl; [trivial|]. intros [= H]. now apply IH.
Qed.

Lemma append_inv_tail (a b c : string) : a ++ c = b ++ c -> a = b.
Proof.
  revert b; induction a as [|x t IH]; intros [|y u] H; simpl in H.
  - reflexivity.
  - apply (f_equal length) in H. simpl in H. rewrite append_length in H. lia.
  - apply (f_equal length) in H. simpl in H. rewrite append_length in H. lia.
  - injection H as -> H. f_equal. now apply IH.
Qed.

(** An escaped character is read back, whatever follows it. *)
Lemma unescape_head_escape (c : ascii) (s : string) :
  unescape_head (escape_char c ++ s) = Some (c, s).
Proof.
  destruct c as [[] [] [] [] [] [] [] []]; reflexivity.
Qed.

(** The escaping of [json.dumps] loses nothing. *)
Lemma escape_injective (s1 : string) :
  forall s2, escape s1 = escape s2 -> s1 = s2.
Proof.
  induction s1 as [|a t IH]; intros [|b u] H; simpl in H.
  - reflexivity.
  - apply (f_equal unescape_head) in H.
    rewrite unescape_head_escape in H. discriminate.
  - apply (f_equal unescape_head) in H.
    rewrite unescape_head_escape in H. discriminate.
  - apply (f_equal unescape_head) in H.
    rewrite !unescape_head_escape in H. injection H as -> H.
    f_equal. now apply IH.
Qed.

Lemma quote_injective (s1 s2 : string) : quote s1 = quote s2 -> s1 = s2.
Proof.
  unfold quote. intros [= H]. apply append_inv_tail in H.
  now apply escape_injective.
Qed.

(** A quoted string never reads [null]. *)
Lemma quote_not_null (s : string) : quote s <> "null".
Proof. unfold quote. discriminate. Qed.

End JsonFacts.

Section CacheKeyFacts.
Import PyStr PyDict Json CacheService.

Lemma dumps_dict (d : dict pyval) :
  dumps (PDict d)
  = "{" ++ String.concat ", "
             (map item_text
                (sort_items (map (fun kv => (fst kv, dumps (snd kv))) d)))
        ++ "}".
Proof. reflexivity. Qed.

(** The serialisation of a dictionary does not depend on the order in
    which its keys were inserted. *)
Lemma dumps_dict_order (d1 d2 : dict pyval) :
  wf d1 -> Permutation d1 d2 -> dumps (PDict d1) = dumps (PDict d2).
Proof.
  intros Hwf P. rewrite !dumps_dict.
  rewrite (sort_items_order
             (map (fun kv => (fst kv, dumps (snd kv))) d1)
             (map (fun kv => (fst kv, dumps (snd kv))) d2)).
  - reflexivity.
  - unfold wf, keys in Hwf. now rewrite map_map.
  - now apply Permutation_map.
Qed.

Lemma key_data_same_text (query : string) (p1 p2 : option (dict pyval)) :
  key_data query p1 = key_data query p2
  <-> dumps (PDict (or_empty p1)) = dumps (PDict (or_empty p2)).
Proof.
  unfold key_data. split.
  - intros H. now apply append_inv_head, (append_inv_head ":") in H.
  - now intros ->.
Qed.

(** Different contexts are hashed from different texts. *)
Lemma key_data_context (query : string) (c1 c2 : option string) :
  c1 <> c2 ->
  key_data query (Some (Engine.context_params c1))
  <> key_data query (Some (Engine.context_params c2)).
Proof.
  intros Hne H. apply key_data_same_text in H.
  unfold or_empty, Engine.context_params in H. rewrite !dumps_dict in H.
  simpl in H. injection H as H. apply append_inv_tail in H.
  destruct c1 as [s1|], c2 as [s2|]; simpl in H.
  - apply quote_injective in H. congruence.
  - now apply quote_not_null in H.
  - symmetry in H. now apply quote_not_null in H.
  - congruence.
Qed.

(** Induction on values, with the items of the containers. *)
Lemma pyval_induction (P : pyval -> Prop) :
  P PNone ->
  (forall b, P (PBool b)) ->
  (forall z, P (PInt z)) ->
  (forall s, P (PStr s)) ->
  (forall l, Forall P l -> P (PList l)) ->
  (forall l, Forall P l -> P (PTuple l)) ->
  (forall d, Forall (fun kv => P (snd kv)) d -> P (PDict d)) ->
  forall v, P v.
Proof.
  intros HN HB HI HS HL HT HD.
  fix IH 1. intros [ |b|z|s|l|l|d].
  - exact HN.
  - apply HB.
  - apply HI.
  - apply HS.
  - apply HL. induction l as [|a t IHl]; constructor; [apply IH | exact IHl].
  - apply HT. induction l as [|a t IHl]; constructor; [apply IH | exact IHl].
  - apply HD. induction d as [|a t IHd]; constructor; [apply IH | exact IHd].
Qed.

(** Writing the items and sorting them, or sorting them and writing
    them, gives the same list: the order looks at the keys only. *)
Lemma insert_item_written {A : Type} (g : A -> string) (kv : string * A)
    (l : list (string * A)) :
  insert_item (fst kv, g (snd kv)) (map (fun x => (fst x, g (snd x))) l)
  = map (fun x => (fst x, g (snd x))) (insert_by_key kv l).
Proof.
  induction l as [|a t IH]; simpl; [reflexivity|].
  destruct (String.leb (fst kv) (fst a)); simpl; [reflexivity|].
  now rewrite IH.
Qed.

Lemma sort_items_written {A : Type} (g : A -> string) (l : list (string * A)) :
  sort_items (map (fun x => (fst x, g (snd x))) l)
  = map (fun x => (fst x, g (snd x))) (sort_by_key l).
Proof.
  induction l as [|a t IH]; simpl; [reflexivity|].
  rewrite IH. apply insert_item_written.
Qed.

Lemma insert_by_key_perm {A : Type} (kv : string * A) (l : list (string * A)) :
  Permutation (insert_by_key kv l) (kv :: l).
Proof.
  induction l as [|a t IH]; simpl; [reflexivity|].
  destruct (String.leb (fst kv) (fst a)); [reflexivity|].
  rewrite IH. apply perm_swap.
Qed.

Lemma sort_by_key_perm {A : Type} (l : list (string * A)) :
  Permutation (sort_by_key l) l.
Proof.
  induction l as [|a t IH]; simpl; [reflexivity|].
  rewrite insert_by_key_perm. now apply perm_skip.
Qed.

(** [dumps] writes the JSON form of a value, item after item. *)
Lemma dumps_json_form :
  forall v, dumps v = CacheStore.dumps_plain (json_form v).
Proof.
  apply pyval_induction; try reflexivity.
  - intros l Hl.
    assert (E : map dumps l = map CacheStore.dumps_plain (map json_form l)).
    { rewrite map_map.
      induction Hl as [|a t Ha _ IH]; simpl; [reflexivity | now rewrite Ha, IH]. }
    change (dumps (PList l))
      with ("[" ++ String.concat ", " (map dumps l) ++ "]").
    now rewrite E.
  - intros l Hl.
    assert (E : map dumps l = map CacheStore.dumps_plain (map json_form l)).
    { rewrite map_map.
      induction Hl as [|a t Ha _ IH]; simpl; [reflexivity | now rewrite Ha, IH]. }
    change (dumps (PTuple l))
      with ("[" ++ String.concat ", " (map dumps l) ++ "]").
    now rewrite E.
  - intros d Hd.
    assert (E : map (fun kv => (fst kv, dumps (snd kv))) d
                = map (fun x => (fst x, CacheStore.dumps_plain (snd x)))
                    (map (fun kv => (fst kv, json_form (snd kv))) d)).
    { rewrite map_map. simpl.
      induction Hd as [|a t Ha _ IH]; simpl; [reflexivity | now rewrite Ha, IH]. }
    rewrite dumps_dict, E, sort_items_written. reflexivity.
Qed.

Lemma forallb_insert_by_key {A : Type} (p : string * A -> bool)
    (kv : string * A) (l : list (string * A)) :
  forallb p (insert_by_key kv l) = p kv && forallb p l.
Proof.
  induction l as [|a t IH]; simpl; [reflexivity|].
  destruct (String.leb (fst kv) (fst a)); simpl; [reflexivity|].
  rewrite IH. now destruct (p kv), (p a).
Qed.

Lemma forallb_sort_by_key {A : Type} (p : string * A -> bool)
    (l : list (string * A)) :
  forallb p (sort_by_key l) = forallb p l.
Proof.
  induction l as [|a t IH]; simpl; [reflexivity|].
  now rewrite forallb_insert_by_key, IH.
Qed.

Lemma json_form_tuple_free : forall v, tuple_free (json_form v) = true.
Proof.
  apply pyval_induction; try reflexivity.
  - intros l Hl. simpl.
    induction Hl as [|a t Ha _ IH]; simpl; [reflexivity | now rewrite Ha, IH].
  - intros l Hl. simpl.
    induction Hl as [|a t Ha _ IH]; simpl; [reflexivity | now rewrite Ha, IH].
  - intros d Hd. simpl. rewrite forallb_sort_by_key.
    induction Hd as [|a t Ha _ IH]; simpl; [reflexivity | now rewrite Ha, IH].
Qed.

(** A value without tuples and dictionaries is its own JSON form. *)
Lemma json_form_plain : forall v, plain v = true -> json_form v = v.
Proof.
  apply (pyval_induction (fun v => plain v = true -> json_form v = v));
    try reflexivity; try discriminate.
  intros l Hl Hp. simpl in *. f_equal.
  induction Hl as [|a t Ha _ IH]; simpl in *; [reflexivity|].
  apply andb_true_iff in Hp as [Hpa Hpt]. now rewrite Ha, IH.
Qed.

(** *** Reading a written value back: no two JSON forms share a text *)

Lemma no_digit_ahead_char (c : ascii) (r : string) :
  is_digit c = false -> no_digit_ahead (String c r).
Proof. intros H c' [= <-]. exact H. Qed.

Lemma digits_then_rest (a : string) :
  forall b ra rb,
    all_chars is_digit a = true -> all_chars is_digit b = true ->
    no_digit_ahead ra -> no_digit_ahead rb ->
    a ++ ra = b ++ rb -> a = b /\ ra = rb.
Proof.
  induction a as [|x a' IH]; intros [|y b'] ra rb Ha Hb Hra Hrb H;
    simpl in *.
  - now split.
  - apply andb_true_iff in Hb as [Hy _]. subst ra.
    now rewrite (Hra y eq_refl) in Hy.
  - apply andb_true_iff in Ha as [Hx _]. subst rb.
    now rewrite (Hrb x eq_refl) in Hx.
  - apply andb_true_iff in Ha as [_ Ha]. apply andb_true_iff in Hb as [_ Hb].
    injection H as -> H.
    destruct (IH b' ra rb Ha Hb Hra Hrb H) as [-> ->]. now split.
Qed.

(** The text of an integer: an optional minus sign and digits. *)
Lemma str_of_int_shape (z : Z) :
  exists sign digits,
    str_of_int z = sign ++ digits
    /\ (sign = "" \/ sign = "-")
    /\ digits <> ""
    /\ all_chars is_digit digits = true.
Proof.
  destruct (Z.leb_spec 0 z) as [Hz|Hz].
  - exists "", (str_of_int z). destruct (str_of_int_digits z Hz) as [Hne Hd].
    repeat split; auto.
  - destruct z as [|p|p]; try lia.
    exists "-", (NilZero.string_of_uint (Pos.to_uint p)).
    split; [reflexivity|]. split; [now right|].
    pose proof (Unsigned.to_uint_nonnil p) as Hnn.
    unfold NilZero.string_of_uint.
    destruct (Pos.to_uint p) eqn:E; try congruence;
      (split; [discriminate | apply uint_digits]).
Qed.

Lemma str_of_int_injective (z1 z2 : Z) :
  str_of_int z1 = str_of_int z2 -> z1 = z2.
Proof.
  unfold str_of_int. intros H.
  assert (Hnn : forall z, Z.to_int z <> Decimal.Pos Decimal.Nil
                          /\ Z.to_int z <> Decimal.Neg Decimal.Nil).
  { intros [|p|p]; simpl; split; try discriminate;
      intros [= E]; now apply (Unsigned.to_uint_nonnil p). }
  apply (f_equal NilZero.int_of_string) in H.
  rewrite !NilZero.isi in H by apply Hnn.
  injection H as H. apply (f_equal Z.of_int) in H.
  now rewrite !DecimalZ.of_to in H.
Qed.

Lemma str_of_int_then_rest (z1 z2 : Z) (r1 r2 : string) :
  no_digit_ahead r1 -> no_digit_ahead r2 ->
  str_of_int z1 ++ r1 = str_of_int z2 ++ r2 -> z1 = z2 /\ r1 = r2.
Proof.
  intros H1 H2 H.
  destruct (str_of_int_shape z1) as (s1 & d1 & E1 & S1 & N1 & D1).
  destruct (str_of_int_shape z2) as (s2 & d2 & E2 & S2 & N2 & D2).
  rewrite E1, E2 in H.
  assert (Hd : s1 = s2 /\ d1 ++ r1 = d2 ++ r2).
  { destruct S1 as [-> | ->], S2 as [-> | ->]; simpl in H.
    - now split.
    - destruct d1 as [|c t]; [congruence|]. simpl in *.
      injection H as -> _. discriminate.
    - destruct d2 as [|c t]; [congruence|]. simpl in *.
      injection H as <- _. discriminate.
    - injection H as H. now split. }
  destruct Hd as [-> Hd].
  destruct (digits_then_rest d1 d2 r1 r2 D1 D2 H1 H2 Hd) as [-> ->].
  split; [|reflexivity]. apply str_of_int_injective. now rewrite E1, E2.
Qed.

Lemma escape_char_head (c : ascii) :
  exists h t, escape_char c = String h t /\ h <> dquote.
Proof.
  destruct c as [[] [] [] [] [] [] [] []];
    eexists _, _; (split; [reflexivity | discriminate]).
Qed.

Lemma escape_then_rest (s1 : string) :
  forall s2 r1 r2,
    escape s1 ++ String dquote r1 = escape s2 ++ String dquote r2 ->
    s1 = s2 /\ r1 = r2.
Proof.
  induction s1 as [|a t IH]; intros [|b u] r1 r2 H; simpl in H.
  - injection H as ->. now split.
  - destruct (escape_char_head b) as (h & w & E & Hh).
    rewrite E in H. simpl in H. injection H as <- _. congruence.
  - destruct (escape_char_head a) as (h & w & E & Hh).
    rewrite E in H. simpl in H. injection H as -> _. congruence.
  - rewrite !append_assoc in H.
    apply (f_equal unescape_head) in H.
    rewrite !unescape_head_escape in H. injection H as -> H.
    destruct (IH u r1 r2 H) as [-> ->]. now split.
Qed.

Lemma quote_then_rest (s1 s2 r1 r2 : string) :
  quote s1 ++ r1 = quote s2 ++ r2 -> s1 = s2 /\ r1 = r2.
Proof.
  unfold quote. simpl. intros [= H].
  rewrite !append_assoc in H. simpl in H.
  now apply escape_then_rest.
Qed.

Lemma str_of_int_head (z : Z) :
  exists c t, str_of_int z = String c t
              /\ (is_digit c = true \/ c = "-"%char).
Proof.
  destruct (str_of_int_shape z) as (s & d & E & [-> | ->] & N & D).
  - destruct d as [|c t]; [congruence|]. simpl in *.
    apply andb_true_iff in D as [Hc _]. exists c, t. now split; [|left].
  - exists "-"%char, d. now split; [|right].
Qed.

(** No written value starts with a closing bracket, a comma or a
    space. *)
Lemma dumps_plain_head (v : pyval) :
  exists c t, CacheStore.dumps_plain v = String c t
              /\ c <> "]"%char /\ c <> "}"%char.
Proof.
  destruct v as [ |[|]|z|s|l|l|d]; simpl;
    try (eexists _, _; split; [reflexivity | split; discriminate]).
  destruct (str_of_int_head z) as (c & t & E & Hc).
  exists c, t. split; [exact E|].
  destruct Hc as [Hd | ->]; split; try discriminate; intros ->; discriminate.
Qed.

(** Items written one after the other, with [", "] between them and a
    closing character after the last, are read back one by one. *)
Lemma items_then_rest {A : Type} (g : A -> string) (close : ascii)
    (Q : A -> Prop) :
  is_digit close = false ->
  close <> ","%char ->
  (forall x, exists c t, g x = String c t /\ c <> close) ->
  forall l1,
    Forall (fun x => forall y r1 r2,
                Q y -> no_digit_ahead r1 -> no_digit_ahead r2 ->
                g x ++ r1 = g y ++ r2 -> x = y /\ r1 = r2) l1 ->
    forall l2 r1 r2,
      Forall Q l2 ->
      String.concat ", " (map g l1) ++ String close r1
      = String.concat ", " (map g l2) ++ String close r2 ->
      l1 = l2 /\ r1 = r2.
Proof.
  intros Hclose Hcc Hhead l1 Hl1.
  assert (Hcomma : forall r, no_digit_ahead (", " ++ r)).
  { intros r. now apply no_digit_ahead_char. }
  assert (Hcl : forall r, no_digit_ahead (String close r)).
  { intros r. now apply no_digit_ahead_char. }
  induction Hl1 as [|x t1 Hx _ IH]; intros [|y t2] r1 r2 HQ H.
  - simpl in H. injection H as ->. now split.
  - exfalso. destruct (Hhead y) as (c & w & E & Hc).
    simpl in H. destruct t2; simpl in H; rewrite E in H; simpl in H;
      injection H as <- _; congruence.
  - exfalso. destruct (Hhead x) as (c & w & E & Hc).
    simpl in H. destruct t1; simpl in H; rewrite E in H; simpl in H;
      injection H as -> _; congruence.
  - inversion HQ as [|? ? Qy Qt]; subst.
    destruct t1 as [|x' t1'], t2 as [|y' t2'].
    + simpl in H.
      destruct (Hx y _ _ Qy (Hcl r1) (Hcl r2) H) as [-> [= ->]]. now split.
    + exfalso. cbn [map String.concat] in H.
      rewrite append_assoc in H.
      destruct (Hx y _ _ Qy (Hcl r1) (Hcomma _) H) as [_ E].
      simpl in E. injection E as Ec _. congruence.
    + exfalso. cbn [map String.concat] in H.
      rewrite append_assoc in H.
      destruct (Hx y _ _ Qy (Hcomma _) (Hcl r2) H) as [_ E].
      simpl in E. injection E as Ec _. congruence.
    + cbn [map String.concat] in H.
      rewrite !append_assoc in H.
      destruct (Hx y _ _ Qy (Hcomma _) (Hcomma _) H) as [-> E].
      simpl in E. injection E as E.
      change (String.concat ", " (map g (x' :: t1')) ++ String close r1
              = String.concat ", " (map g (y' :: t2')) ++ String close r2)
        in E.
      destruct (IH _ _ _ Qt E) as [-> ->]. now split.
Qed.

Ltac int_clash H z :=
  exfalso;
  let c := fresh "c" in
  let t := fresh "t" in
  let E := fresh "E" in
  let D := fresh "D" in
  destruct (str_of_int_head z) as (c & t & E & D);
  cbn [CacheStore.dumps_plain] in H; rewrite E in H; simpl in H; injection H as H _;
  destruct D as [D | D]; subst c; [vm_compute in D|]; discriminate.

(** Two values without tuples that are written alike, whatever follows
    them, are the same value, followed by the same text. *)
Lemma dumps_plain_then_rest :
  forall v1,
    tuple_free v1 = true ->
    forall v2 r1 r2,
      tuple_free v2 = true ->
      no_digit_ahead r1 -> no_digit_ahead r2 ->
      CacheStore.dumps_plain v1 ++ r1 = CacheStore.dumps_plain v2 ++ r2 ->
      v1 = v2 /\ r1 = r2.
Proof.
  apply (pyval_induction
           (fun v1 =>
              tuple_free v1 = true ->
              forall v2 r1 r2,
                tuple_free v2 = true ->
                no_digit_ahead r1 -> no_digit_ahead r2 ->
                CacheStore.dumps_plain v1 ++ r1
                = CacheStore.dumps_plain v2 ++ r2 ->
                v1 = v2 /\ r1 = r2)).
  - intros _ v2 r1 r2 T2 H1 H2 H.
    destruct v2 as [ |[|]|z|s|l|l|d]; try (simpl in H; discriminate H).
    + simpl in H. injection H as ->. now split.
    + int_clash H z.
  - intros b _ v2 r1 r2 T2 H1 H2 H.
    destruct b, v2 as [ |[|]|z|s|l|l|d]; try (simpl in H; discriminate H);
      try (simpl in H; injection H as ->; now split);
      int_clash H z.
  - intros z _ v2 r1 r2 T2 H1 H2 H.
    destruct v2 as [ |[|]|z2|s|l|l|d];
      try (symmetry in H; int_clash H z).
    cbn [CacheStore.dumps_plain] in H.
    destruct (str_of_int_then_rest z z2 r1 r2 H1 H2 H) as [-> ->].
    now split.
  - intros s _ v2 r1 r2 T2 H1 H2 H.
    destruct v2 as [ |[|]|z|s2|l|l|d]; try (simpl in H; discriminate H).
    + int_clash H z.
    + cbn [CacheStore.dumps_plain] in H.
      destruct (quote_then_rest s s2 r1 r2 H) as [-> ->]. now split.
  - intros l Hl T1 v2 r1 r2 T2 H1 H2 H.
    destruct v2 as [ |[|]|z|s2|l2|l2|d]; try (simpl in H; discriminate H);
      try (simpl in T2; discriminate T2).
    + int_clash H z.
    + change (("[" ++ String.concat ", " (map CacheStore.dumps_plain l) ++ "]")
                ++ r1
              = ("[" ++ String.concat ", " (map CacheStore.dumps_plain l2)
                     ++ "]") ++ r2) in H.
      rewrite !append_assoc in H. simpl in H. injection H as H.
      simpl in T1, T2.
      assert (Hhead : forall x, exists c t,
                 CacheStore.dumps_plain x = String c t /\ c <> "]"%char).
      { intros x. destruct (dumps_plain_head x) as (c & t & E & Hc & _).
        now exists c, t. }
      assert (Hitems :
                Forall (fun x => forall y q1 q2,
                            tuple_free y = true ->
                            no_digit_ahead q1 -> no_digit_ahead q2 ->
                            CacheStore.dumps_plain x ++ q1
                            = CacheStore.dumps_plain y ++ q2 ->
                            x = y /\ q1 = q2) l).
      { rewrite Forall_forall in Hl. apply Forall_forall. intros x Hx.
        apply (Hl x Hx). rewrite forallb_forall in T1. now apply T1. }
      assert (HQ : Forall (fun y => tuple_free y = true) l2).
      { apply Forall_forall. rewrite forallb_forall in T2. exact T2. }
      assert (Hcomma : "]"%char <> ","%char) by discriminate.
      destruct (items_then_rest CacheStore.dumps_plain "]" _ eq_refl Hcomma
                  Hhead l Hitems l2 r1 r2 HQ H) as [-> ->].
      now split.
  - intros l _ T1. discriminate T1.
  - intros d Hd T1 v2 r1 r2 T2 H1 H2 H.
    destruct v2 as [ |[|]|z|s2|l2|l2|d2]; try (simpl in H; discriminate H).
    + int_clash H z.
    + set (g := fun kv : string * pyval =>
                  quote (fst kv) ++ ": " ++ CacheStore.dumps_plain (snd kv)).
      change (("{" ++ String.concat ", "
                        (map item_text
                           (map (fun kv =>
                                   (fst kv, CacheStore.dumps_plain (snd kv)))
                              d)) ++ "}") ++ r1
              = ("{" ++ String.concat ", "
                          (map item_text
                             (map (fun kv =>
                                     (fst kv, CacheStore.dumps_plain (snd kv)))
                                d2)) ++ "}") ++ r2) in H.
      rewrite !map_map in H.
      change (fun x : string * pyval =>
                item_text (fst x, CacheStore.dumps_plain (snd x)))
        with g in H.
      rewrite !append_assoc in H. simpl in H. injection H as H.
      simpl in T1, T2.
      assert (Hhead : forall x, exists c t, g x = String c t /\ c <> "}"%char).
      { intros x. unfold g, quote. simpl. eexists _, _.
        split; [reflexivity | discriminate]. }
      assert (Hitems :
                Forall (fun x => forall y q1 q2,
                            tuple_free (snd y) = true ->
                            no_digit_ahead q1 -> no_digit_ahead q2 ->
                            g x ++ q1 = g y ++ q2 ->
                            x = y /\ q1 = q2) d).
      { rewrite Forall_forall in Hd. apply Forall_forall.
        intros [k1 w1] Hx [k2 w2] q1 q2 Qy Hq1 Hq2 Hg.
        unfold g in Hg. simpl fst in Hg. simpl snd in Hg.
        rewrite !append_assoc in Hg.
        apply quote_then_rest in Hg as [-> Hg].
        simpl in Hg. injection Hg as Hg.
        assert (Tw : tuple_free w1 = true).
        { rewrite forallb_forall in T1. now apply (T1 (k2, w1)). }
        destruct (Hd (k2, w1) Hx Tw w2 q1 q2 Qy Hq1 Hq2 Hg) as [Ew ->].
        simpl in Ew. subst w2. now split. }
      assert (HQ : Forall (fun y : string * pyval => tuple_free (snd y) = true)
                     d2).
      { apply Forall_forall. rewrite forallb_forall in T2. exact T2. }
      assert (Hcomma : "}"%char <> ","%char) by discriminate.
      destruct (items_then_rest g "}" _ eq_refl Hcomma
                  Hhead d Hitems d2 r1 r2 HQ H) as [-> ->].
      now split.
Qed.

(** Two values get the same text exactly when they have the same JSON
    form. *)
Lemma dumps_same_json_form (v1 v2 : pyval) :
  dumps v1 = dumps v2 <-> json_form v1 = json_form v2.
Proof.
  rewrite !dumps_json_form. split; [|now intros ->].
  intros H.
  apply (dumps_plain_then_rest (json_form v1) (json_form_tuple_free v1)
           (json_form v2) "" "" (json_form_tuple_free v2)).
  - intros c; discriminate.
  - intros c; discriminate.
  - now rewrite !append_nil_r.
Qed.

Lemma get_permutation {V : Type} (l1 l2 : dict V) (k : string) :
  NoDup (keys l1) -> Permutation l1 l2 -> get l1 k = get l2 k.
Proof.
  intros N P. induction P as [|[k0 v0] a b P IH|[k1 w1] [k2 w2] a|a b c P1 IH1 P2 IH2].
  - reflexivity.
  - simpl. inversion N; subst. destruct (String.eqb k0 k); [reflexivity|].
    now apply IH.
  - simpl. destruct (String.eqb k1 k) eqn:E1, (String.eqb k2 k) eqn:E2;
      try reflexivity.
    apply String.eqb_eq in E1, E2. subst.
    inversion N as [|? ? Nin _]; subst. elim Nin. now left.
  - rewrite IH1 by exact N. apply IH2.
    eapply Permutation_NoDup; [|exact N]. now apply Permutation_map.
Qed.

Lemma get_json_items (d : dict pyval) (k : string) :
  get (map (fun kv => (fst kv, json_form (snd kv))) d) k
  = option_map json_form (get d k).
Proof.
  induction d as [|[k0 v0] t IH]; simpl; [reflexivity|].
  now destruct (String.eqb k0 k).
Qed.

(** Dictionaries with the same JSON form give every key values with the
    same JSON form. *)
Lemma json_form_dict_get (d1 d2 : dict pyval) (k : string) :
  wf d1 ->
  json_form (PDict d1) = json_form (PDict d2) ->
  option_map json_form (get d1 k) = option_map json_form (get d2 k).
Proof.
  intros Hwf H. simpl in H. injection H as H.
  rewrite <- !get_json_items. apply get_permutation.
  - unfold wf, keys in *. now rewrite map_map.
  - rewrite <- (sort_by_key_perm
                  (map (fun kv => (fst kv, json_form (snd kv))) d1)).
    rewrite H. apply sort_by_key_perm.
Qed.

(** C4, as the code has it.  The key is ["query:"] followed by the
    SHA-256 hex digest of the query, a colon and the parameters written
    as JSON with sorted keys ([None] counting as the empty dictionary).
    It is therefore the same at every call and for every order of
    insertion of the same items.  Two parameter maps are hashed from the
    same text exactly when they have the same JSON form, in which a
    tuple is the list of its items and the items of a dictionary come in
    key order.  So two maps that give some key values with different
    JSON forms, or that key a value in one map only, are hashed from
    different texts, and their keys differ unless SHA-256 collides; this
    is the case of any two different values made of [None], booleans,
    integers, strings and lists.  Stated for parameters whose strings
    are ASCII. *)
Theorem generate_key_deterministic :
  (forall (query : string) (params : option (dict pyval)),
     ascii_pyval (PDict (or_empty params)) = true ->
     _generate_key query params
     = "query:"
         ++ Sha256.hexdigest
              (Sha256.bytes_of_string
                 (query ++ ":" ++ dumps (PDict (or_empty params)))))
  /\ (forall (query : string) (d1 d2 : dict pyval),
        ascii_pyval (PDict d1) = true ->
        wf d1 -> Permutation d1 d2 ->
        _generate_key query (Some d1) = _generate_key query (Some d2))
  /\ (forall (query : string) (p1 p2 : option (dict pyval)),
        ascii_pyval (PDict (or_empty p1)) = true ->
        ascii_pyval (PDict (or_empty p2)) = true ->
        (key_data query p1 = key_data query p2
         <-> json_form (PDict (or_empty p1)) = json_form (PDict (or_empty p2))))
  /\ (forall (query : string) (d1 d2 : dict pyval) (k : string),
        ascii_pyval (PDict d1) = true ->
        ascii_pyval (PDict d2) = true ->
        wf d1 ->
        option_map json_form (get d1 k) <> option_map json_form (get d2 k) ->
        key_data query (Some d1) <> key_data query (Some d2))
  /\ (forall (query : string) (d1 d2 : dict pyval) (k : string)
             (v1 v2 : pyval),
        ascii_pyval (PDict d1) = true ->
        ascii_pyval (PDict d2) = true ->
        wf d1 ->
        get d1 k = Some v1 -> get d2 k = Some v2 ->
        plain v1 = true -> plain v2 = true ->
        v1 <> v2 ->
        key_data query (Some d1) <> key_data query (Some d2))
  /\ _generate_key "What?" (Some [("context", PNone)])
     = "query:369bf5c26c9333e089fdff28af4db383882b36e366daf40446d35f1c03b567d9".
Proof.
  assert (Hdiff : forall (query : string) (d1 d2 : dict pyval) (k : string),
             wf d1 ->
             option_map json_form (get d1 k)
             <> option_map json_form (get d2 k) ->
             key_data query (Some d1) <> key_data query (Some d2)).
  { intros query d1 d2 k Hwf Hne H. apply Hne.
    apply key_data_same_text, dumps_same_json_form in H.
    now apply json_form_dict_get. }
  split; [reflexivity|].
  split.
  { intros query d1 d2 _ Hwf P. unfold _generate_key, key_data, or_empty.
    now rewrite (dumps_dict_order d1 d2 Hwf P). }
  split.
  { intros query p1 p2 _ _. rewrite key_data_same_text.
    apply dumps_same_json_form. }
  split; [intros query d1 d2 k _ _; apply Hdiff|].
  split.
  { intros query d1 d2 k v1 v2 _ _ Hwf G1 G2 P1 P2 Hne.
    apply (Hdiff query d1 d2 k Hwf). rewrite G1, G2. simpl.
    rewrite (json_form_plain v1 P1), (json_form_plain v2 P2). congruence. }
  vm_compute. reflexivity.
Qed.

Lemma generate_key_deterministic_witness :
  ascii_pyval (PDict [("limit", PInt 5); ("context", PStr "films")]) = true
  /\ wf [("limit", PInt 5); ("context", PStr "films")]
  /\ Permutation [("limit", PInt 5); ("context", PStr "films")]
                 [("context", PStr "films"); ("limit", PInt 5)]
  /\ _generate_key "q" (Some [("limit", PInt 5); ("context", PStr "films")])
     = _generate_key "q" (Some [("context", PStr "films"); ("limit", PInt 5)])
  /\ get [("limit", PInt 5)] "limit" = Some (PInt 5)
  /\ get [("limit", PInt 6)] "limit" = Some (PInt 6)
  /\ plain (PInt 5) = true /\ plain (PInt 6) = true
  /\ PInt 5 <> PInt 6
  /\ key_data "q" (Some [("limit", PInt 5)])
     <> key_data "q" (Some [("limit", PInt 6)]).
Proof.
  assert (Hwf : wf [("limit", PInt 5); ("context", PStr "films")]).
  { unfold wf, keys. simpl. repeat constructor; simpl; intuition discriminate. }
  assert (P : Permutation [("limit", PInt 5); ("context", PStr "films")]
                          [("context", PStr "films"); ("limit", PInt 5)])
    by apply perm_swap.
  assert (Hwf1 : wf [("limit", PInt 5)]).
  { unfold wf, keys. simpl. repeat constructor. simpl. tauto. }
  assert (Hne : PInt 5 <> PInt 6) by discriminate.
  split; [reflexivity|]. split; [exact Hwf|]. split; [exact P|].
  split;
    [exact (proj1 (proj2 generate_key_deterministic) "q"
              [("limit", PInt 5); ("context", PStr "films")]
              [("context", PStr "films"); ("limit", PInt 5)] eq_refl Hwf P)|].
  split; [reflexivity|]. split; [reflexivity|].
  split; [reflexivity|]. split; [reflexivity|]. split; [exact Hne|].
  exact (proj1 (proj2 (proj2 (proj2 (proj2 generate_key_deterministic))))
           "q" [("limit", PInt 5)] [("limit", PInt 6)] "limit"
           (PInt 5) (PInt 6) eq_refl eq_refl Hwf1 eq_refl eq_refl
           eq_refl eq_refl Hne).
Defined.

(** The claim as stated fails: two parameter maps that differ in a value,
    a tuple against a list with the same items, get the same key. *)
Lemma generate_key_tuple_list_same_key :
  get [("ids", PTuple [PInt 1; PInt 2])] "ids"
    <> get [("ids", PList [PInt 1; PInt 2])] "ids"
  /\ dumps (PDict [("ids", PTuple [PInt 1; PInt 2])])
     = dumps (PDict [("ids", PList [PInt 1; PInt 2])])
  /\ _generate_key "q" (Some [("ids", PTuple [PInt 1; PInt 2])])
     = _generate_key "q" (Some [("ids", PList [PInt 1; PInt 2])]).
Proof.
  split; [discriminate|]. split; vm_compute; reflexivity.
Qed.

End CacheKeyFacts.

(** ** Tokens *)

Section DictFacts.
Import PyDict.
Variable V : Type.

Lemma get_set_same (d : dict V) (k : string) (v : V) :
  get (set d k v) k = Some v.
Proof.
  induction d as [|[k' v'] t IH]; simpl.
  - now rewrite String.eqb_refl.
  - destruct (String.eqb k' k) eqn:E; simpl; rewrite E; [reflexivity | exact IH].
Qed.

Lemma get_set_other (d : dict V) (k k' : string) (v : V) :
  k <> k' -> get (set d k v) k' = get d k'.
Proof.
  intros Hne. induction d as [|[k0 v0] t IH]; simpl.
  - apply String.eqb_neq in Hne. now rewrite Hne.
  - destruct (String.eqb k0 k) eqn:E; simpl.
    + apply String.eqb_eq in E; subst k0.
      apply String.eqb_neq in Hne. now rewrite Hne.
    + destruct (String.eqb k0 k'); [reflexivity | exact IH].
Qed.

End DictFacts.

Section TokenFacts.
Import PyStr PyDict Jose TokenManager.

Lemma parse_digits_trailing_Z (w : string) :
  forall b acc, parse_digits b acc (w ++ "Z") = None.
Proof.
  induction w as [|c t IH]; intros b acc; simpl.
  - reflexivity.
  - destruct (is_digit c); [apply IH|].
    destruct (Ascii.eqb c "_" && b); [apply IH | reflexivity].
Qed.

Lemma lstrip_ws_trailing_Z (s : string) :
  exists s', lstrip_ws (s ++ "Z") = s' ++ "Z".
Proof.
  induction s as [|c t [s' IH]]; simpl.
  - now exists "".
  - destruct (is_space c); [now exists s' | now exists (String c t)].
Qed.

Lemma rstrip_ws_trailing_Z (s : string) :
  rstrip_ws (s ++ "Z") = s ++ "Z".
Proof.
  induction s as [|c t IH]; simpl; [reflexivity|].
  rewrite IH. now destruct t.
Qed.

(** [int(s)] raises [ValueError] on every text that ends in [Z]. *)
Lemma int_of_str_trailing_Z (s : string) : int_of_str (s ++ "Z") = None.
Proof.
  unfold int_of_str.
  destruct (lstrip_ws_trailing_Z s) as [s' ->].
  rewrite rstrip_ws_trailing_Z.
  destruct s' as [|c t]; [reflexivity|].
  change (String c t ++ "Z") with (String c (t ++ "Z")).
  pose proof (parse_digits_trailing_Z t false 0%Z) as Ht.
  pose proof (parse_digits_trailing_Z (String c t) false 0%Z) as Hc.
  change (String c t ++ "Z") with (String c (t ++ "Z")) in Hc.
  destruct c as [[] [] [] [] [] [] [] []];
    first [exact Hc | now rewrite Ht].
Qed.

Lemma get_encoded_str (c : claims) (k s : string) :
  get c k = Some (Str s) -> get (map encode_claim c) k = Some (Str s).
Proof.
  induction c as [|[k' v] t IH]; simpl; [discriminate|].
  assert (E : fst (encode_claim (k', v)) = k').
  { unfold encode_claim. simpl. destruct v; try reflexivity.
    now destruct (is_time_claim k'). }
  destruct (encode_claim (k', v)) as [k'' v'] eqn:Enc. simpl in E; subst k''.
  destruct (String.eqb k' k).
  - intros [= ->]. unfold encode_claim in Enc. simpl in Enc. congruence.
  - exact IH.
Qed.

(** Whatever is encoded by the two issuing functions carries ["iat"] as
    a text that ends in [Z]. *)
Lemma issued_iat (data : claims) (exp : value) (iat kind : string) :
  get (map encode_claim
         (update data [("exp", exp); ("iat", Str (iat ++ "Z"));
                       ("type", Str kind)])) "iat"
  = Some (Str (iat ++ "Z")).
Proof.
  apply get_encoded_str. unfold update. simpl.
  rewrite get_set_other by discriminate. apply get_set_same.
Qed.

(** A signed token whose ["iat"] is not an integer is refused with
    "Claims du token invalides", at any time and for any expected type. *)
Lemma verify_token_bad_iat
    (cfg : Settings) (payload : claims) (s token_type : string) (now : Z) :
  get payload "iat" = Some (Str s) ->
  int_of_str s = None ->
  verify_token cfg (Jwt (algorithm cfg) (secret_key cfg) payload)
               token_type now
  = Raise (UnauthorizedError "Claims du token invalides").
Proof.
  intros Hget Hint. unfold verify_token, decode. simpl existsb.
  rewrite !String.eqb_refl. simpl negb. cbv iota.
  unfold validate_claims, validate_iat. rewrite Hget. simpl int_of_value.
  rewrite Hint. reflexivity.
Qed.

(** [int] lets through a [TypeError] or an [OverflowError] only. *)
Lemma int_of_value_raises (v : value) (e : exn) :
  int_of_value v = IntRaises e ->
  exists msg, e = TypeError msg \/ e = OverflowError msg.
Proof.
  destruct v as [ |b|z|[n d| | ]|s|l|o|t]; simpl; try discriminate;
    try (intros [= <-]; eexists; left; reflexivity).
  - intros [= <-]. eexists. right. reflexivity.
  - destruct (int_of_str s); discriminate.
Qed.

Lemma or_else_built_in (a b : option raised) (e : exn) :
  or_else a b = Some (BuiltIn e) ->
  a = Some (BuiltIn e) \/ b = Some (BuiltIn e).
Proof. destruct a; simpl; [now left | now right]. Qed.

Lemma validate_iat_built_in (c : claims) (e : exn) :
  validate_iat c = Some (BuiltIn e) ->
  exists v, get c "iat" = Some v /\ int_of_value v = IntRaises e.
Proof.
  unfold validate_iat, claims_error.
  destruct (get c "iat") as [v|]; [|discriminate].
  destruct (int_of_value v) eqn:I; try discriminate.
  intros [= <-]. now exists v.
Qed.

Lemma validate_nbf_built_in (c : claims) (now : Z) (e : exn) :
  validate_nbf c now = Some (BuiltIn e) ->
  exists v, get c "nbf" = Some v /\ int_of_value v = IntRaises e.
Proof.
  unfold validate_nbf, claims_error.
  destruct (get c "nbf") as [v|]; [|discriminate].
  destruct (int_of_value v) eqn:I; try discriminate.
  - destruct (Z.ltb now z); discriminate.
  - intros [= <-]. now exists v.
Qed.

Lemma validate_exp_built_in (c : claims) (now : Z) (e : exn) :
  validate_exp c now = Some (BuiltIn e) ->
  exists v, get c "exp" = Some v /\ int_of_value v = IntRaises e.
Proof.
  unfold validate_exp, claims_error.
  destruct (get c "exp") as [v|]; [|discriminate].
  destruct (int_of_value v) eqn:I; try discriminate.
  - destruct (Z.ltb z now); discriminate.
  - intros [= <-]. now exists v.
Qed.

Lemma validate_others_library (c : claims) (e : exn) :
  validate_others c <> Some (BuiltIn e).
Proof.
  unfold validate_others, validate_aud, validate_text, validate_at_hash,
    claims_error.
  destruct (get c "aud") as [[ | | | | |items| | ]|]; try discriminate;
    try (destruct (forallb is_str items); discriminate).
  destruct (get c "sub") as [v|];
    [destruct (is_str v); try discriminate|];
    (destruct (get c "jti") as [v'|];
     [destruct (is_str v'); try discriminate|]);
    destruct (get c "at_hash"); discriminate.
Qed.

(** A built-in exception leaves the validation of the claims only from
    [int] on one of the three time claims. *)
Lemma validate_claims_built_in (c : claims) (now : Z) (e : exn) :
  validate_claims c now = Some (BuiltIn e) ->
  exists k v,
    In k ["iat"; "nbf"; "exp"]
    /\ get c k = Some v
    /\ int_of_value v = IntRaises e.
Proof.
  unfold validate_claims. intros H.
  apply or_else_built_in in H as [H|H].
  { apply validate_iat_built_in in H as (v & G & I).
    exists "iat", v. simpl. tauto. }
  apply or_else_built_in in H as [H|H].
  { apply validate_nbf_built_in in H as (v & G & I).
    exists "nbf", v. simpl. tauto. }
  apply or_else_built_in in H as [H|H].
  { apply validate_exp_built_in in H as (v & G & I).
    exists "exp", v. simpl. tauto. }
  now apply validate_others_library in H.
Qed.

(** X19.  What [verify_token] can do: return the decoded payload, whose
    type is the expected one; raise [UnauthorizedError]; or let through
    the [TypeError] or [OverflowError] that [int] raised on the ["iat"],
    ["nbf"] or ["exp"] claim of a correctly signed token, which its
    [except] clauses do not catch.  The last case is real: a signed token
    whose ["iat"] is [null] makes [verify_token] raise [TypeError]. *)
Theorem verify_token_outcome :
  (forall (cfg : Settings) (t : token) (token_type : string) (now : Z),
     match verify_token cfg t token_type now with
     | Return payload =>
         decode t (secret_key cfg) [algorithm cfg] now = inr payload
         /\ get payload "type" = Some (Str token_type)
     | Raise e =>
         (exists detail, e = UnauthorizedError detail)
         \/ (exists payload k v,
               t = Jwt (algorithm cfg) (secret_key cfg) payload
               /\ In k ["iat"; "nbf"; "exp"]
               /\ get payload k = Some v
               /\ int_of_value v = IntRaises e
               /\ exists msg, e = TypeError msg \/ e = OverflowError msg)
     end)
  /\ (forall (cfg : Settings) (payload : claims) (token_type : string)
             (now : Z),
        get payload "iat" = Some Null ->
        verify_token cfg (Jwt (algorithm cfg) (secret_key cfg) payload)
                     token_type now
        = Raise (int_type_error "NoneType")).
Proof.
  split.
  - intros cfg t token_type now. unfold verify_token.
    destruct (decode t (secret_key cfg) [algorithm cfg] now)
      as [[[m|m|m]|e]|payload] eqn:D;
      try (left; eexists; reflexivity).
    + right. unfold decode in D.
      destruct t as [reason|alg key payload]; [discriminate|].
      simpl existsb in D. rewrite orb_false_r in D.
      destruct (String.eqb alg (algorithm cfg)) eqn:Ea; [|discriminate].
      destruct (String.eqb key (secret_key cfg)) eqn:Ek; [|discriminate].
      apply String.eqb_eq in Ea, Ek. subst alg key. simpl in D.
      destruct (validate_claims payload now) as [r|] eqn:V; [|discriminate].
      injection D as ->.
      destruct (validate_claims_built_in _ _ _ V) as (k & v & Hk & G & I).
      exists payload, k, v. repeat split; try assumption.
      now apply int_of_value_raises in I.
    + unfold type_differs.
      destruct (get payload "type") as [v|] eqn:G;
        [|left; eexists; reflexivity].
      destruct v as [ |b|z|f|s|l|o|z]; try (left; eexists; reflexivity).
      destruct (String.eqb s token_type) eqn:E; simpl;
        [|left; eexists; reflexivity].
      apply String.eqb_eq in E. subst s. now split.
  - intros cfg payload token_type now G.
    unfold verify_token, decode. simpl existsb.
    rewrite !String.eqb_refl. simpl negb. cbv iota.
    unfold validate_claims, validate_iat. rewrite G. reflexivity.
Qed.

Lemma verify_token_outcome_witness :
  get [("sub", Str "x"); ("iat", Null); ("type", Str "access")] "iat"
    = Some Null
  /\ verify_token default_settings
       (Jwt "HS256" "secret"
          [("sub", Str "x"); ("iat", Null); ("type", Str "access")])
       "access" 1767225601
     = Raise (TypeError
                "int() argument must be a string, a bytes-like object or a real number, not 'NoneType'").
Proof.
  split; [reflexivity|].
  exact (proj2 verify_token_outcome default_settings
           [("sub", Str "x"); ("iat", Null); ("type", Str "access")]
           "access" 1767225601%Z eq_refl).
Defined.

(** A decoded token of another type is refused. *)
Lemma verify_token_wrong_type
    (cfg : Settings) (t : token) (payload : claims)
    (token_type : string) (now : Z) :
  decode t (secret_key cfg) [algorithm cfg] now = inr payload ->
  type_differs payload token_type = true ->
  verify_token cfg t token_type now
  = Raise (UnauthorizedError ("Type de token invalide: attendu " ++ token_type)).
Proof. intros D T. unfold verify_token. now rewrite D, T. Qed.

(** X20.  A token that passes the earlier checks and whose expiry is in the
    past is refused as expired. *)
Lemma verify_token_expired
    (cfg : Settings) (payload : claims) (exp : Z)
    (token_type : string) (now : Z) :
  validate_iat payload = None ->
  validate_nbf payload now = None ->
  get payload "exp" = Some (Int exp) ->
  (exp < now)%Z ->
  verify_token cfg (Jwt (algorithm cfg) (secret_key cfg) payload)
               token_type now
  = Raise (UnauthorizedError "Token expiré").
Proof.
  intros Hiat Hnbf Hexp Hlt. unfold verify_token, decode. simpl existsb.
  rewrite !String.eqb_refl. simpl negb. cbv iota.
  unfold validate_claims. rewrite Hiat, Hnbf. unfold validate_exp.
  rewrite Hexp. cbn [int_of_value or_else].
  apply Z.ltb_lt in Hlt. rewrite Hlt. reflexivity.
Qed.

(** C5.  What the code does with its own tokens: every token issued by
    [create_access_token] is refused by [verify_token], at any time and
    whatever type is expected, with "Claims du token invalides".  The
    issuer writes ["iat"] as the ISO-8601 text followed by [Z]; [decode]
    requires an integer there.  So is the token for [{"sub": "x"}]. *)
Theorem issued_access_token_is_refused :
  (forall (isoformat : Z -> string) (cfg : Settings) (data : claims)
          (expires_delta : option Z) (now now_iat : Z) (t : token)
          (token_type : string) (later : Z),
     create_access_token isoformat cfg data expires_delta now now_iat
       = Return t ->
     verify_token cfg t token_type later
       = Raise (UnauthorizedError "Claims du token invalides"))
  /\ (let issued :=
        create_access_token sample_isoformat default_settings
          [("sub", Str "x")] None 1767225600 1767225600 in
      issued
        = Return
            (Jwt "HS256" "secret"
               [("sub", Str "x"); ("exp", Int 1767227400);
                ("iat", Str "2026-01-01T00:00:00+00:00Z");
                ("type", Str "access")])
      /\ verify_token default_settings
           (Jwt "HS256" "secret"
              [("sub", Str "x"); ("exp", Int 1767227400);
               ("iat", Str "2026-01-01T00:00:00+00:00Z");
               ("type", Str "access")])
           "access" 1767225601
         = Raise (UnauthorizedError "Claims du token invalides")).
Proof.
  split; [|split; reflexivity].
  intros isoformat cfg data delta now now_iat t ty later.
  unfold create_access_token, encode.
  destruct (forallb serialisable _); [|discriminate].
  intros [= <-].
  apply verify_token_bad_iat with (s := isoformat now_iat ++ "Z").
  - apply issued_iat.
  - apply int_of_str_trailing_Z.
Qed.

Lemma issued_access_token_is_refused_witness :
  create_access_token sample_isoformat default_settings
    [("sub", Str "x")] (Some 60%Z) 1767225600 1767225600
  = Return
      (Jwt "HS256" "secret"
         [("sub", Str "x"); ("exp", Int 1767225660);
          ("iat", Str "2026-01-01T00:00:00+00:00Z");
          ("type", Str "access")])
  /\ verify_token default_settings
       (Jwt "HS256" "secret"
          [("sub", Str "x"); ("exp", Int 1767225660);
           ("iat", Str "2026-01-01T00:00:00+00:00Z");
           ("type", Str "access")])
       "access" 1767225610
     = Raise (UnauthorizedError "Claims du token invalides").
Proof.
  split; [reflexivity|].
  exact (proj1 issued_access_token_is_refused sample_isoformat
           default_settings [("sub", Str "x")] (Some 60%Z)
           1767225600%Z 1767225600%Z _ "access" 1767225610%Z eq_refl).
Defined.

(** With an integer ["iat"] the same payload is accepted: the refusal
    above comes from the form of ["iat"] alone. *)
Lemma verify_token_integer_iat_accepted :
  verify_token default_settings
    (Jwt "HS256" "secret"
       [("sub", Str "x"); ("exp", Int 1767227400);
        ("iat", Int 1767225600); ("type", Str "access")])
    "access" 1767225601
  = Return [("sub", Str "x"); ("exp", Int 1767227400);
            ("iat", Int 1767225600); ("type", Str "access")].
Proof. reflexivity. Qed.

(** A refresh token is refused where an access token is expected, and so
    is an expired access token. *)
Lemma verify_token_examples :
  verify_token default_settings
    (Jwt "HS256" "secret"
       [("sub", Str "x"); ("exp", Int 1767830400);
        ("iat", Int 1767225600); ("type", Str "refresh")])
    "access" 1767225601
  = Raise (UnauthorizedError "Type de token invalide: attendu access")
  /\ verify_token default_settings
       (Jwt "HS256" "secret"
          [("sub", Str "x"); ("exp", Int 1767227400);
           ("iat", Int 1767225600); ("type", Str "access")])
       "access" 1767230000
     = Raise (UnauthorizedError "Token expiré")
  /\ verify_token default_settings (Malformed "Not enough segments")
       "access" 1767225601
     = Raise (UnauthorizedError "Token invalide: Not enough segments").
Proof. repeat split. Qed.

End TokenFacts.

(** ** The engine: what reaches the database *)

Section EngineGuardFacts.
Import PyStr Re PyDict Json QueryOptimizer Engine EngineTrace.

Variable float : Type.
Variable elapsed_ms : float -> float -> float.
Variable W : Type.
Variable world : forall X : Type, event float X -> W -> X * W.

(** What [optimize] returns always has a LIMIT clause. *)
Lemma optimize_has_limit (o : QueryOptimizer.t) (q : string) :
  (0 <= default_limit o)%Z -> _has_limit (optimize o q) = true.
Proof.
  intros Hl. unfold optimize. destruct (_has_limit q) eqn:E; simpl.
  - exact E.
  - now apply add_limit_has_limit.
Qed.

(** X1.  [process_cypher_query] sends to the database nothing but the
    optimized text, and only when the read-only check accepts it: every
    executed text is [optimize] of the request, has a LIMIT clause and
    passes [is_read_only], and the outcome is then that of
    [execute_cypher], its result or its exception; a refusal is an
    [InvalidCypherQueryError] with nothing executed. *)
Theorem process_cypher_query_executes_guarded :
  forall (self : Engine.t) (cypher : string)
         (parameters : option (dict pyval)) (timeout : option Z) (w : W),
    (0 <= default_limit (query_optimizer self))%Z ->
    let run :=
      exec world self (process_cypher_query self cypher parameters timeout) w in
    let sent := optimize (query_optimizer self) cypher in
    (fst (is_read_only (cfg self) sent) = true ->
     executed_texts (fst (fst run)) = [sent]
     /\ _has_limit sent = true
     /\ snd (fst run)
        = fst (world _ (ExecuteCypher sent parameters timeout) w))
    /\ (fst (is_read_only (cfg self) sent) = false ->
        executed_texts (fst (fst run)) = []
        /\ snd (fst run)
           = Raise (InvalidCypherQueryError
                      (snd (is_read_only (cfg self) sent)))).
Proof.
  intros self cypher parameters timeout w Hl run sent. subst run sent.
  unfold process_cypher_query, call, attempt. simpl bind.
  rewrite exec_vis. simpl respond. simpl fst at 2. simpl snd at 2.
  rewrite exec_vis. simpl respond.
  set (sent := optimize (query_optimizer self) cypher).
  simpl fst; simpl snd.
  destruct (is_read_only (cfg self) sent) as [ok msg] eqn:Ero; simpl.
  split; intros Hok; subst ok; simpl.
  - destruct (world _ (ExecuteCypher sent parameters timeout) w)
      as [[r|err] w1];
      simpl; repeat split; now apply optimize_has_limit.
  - now split.
Qed.

End EngineGuardFacts.

Section OptimizeKeepsWords.
Import PyStr Re QueryOptimizer.

Lemma last_or_repeat (c : ascii) (k : nat) :
  last_or (Some c) (repeat_char c k) = Some c.
Proof. induction k as [|k IH]; simpl; [reflexivity | exact IH]. Qed.

(** A text that does not end in [c] is left as it is by [rstrip]. *)
Lemma rstrip_fixed (c : ascii) (s : string) :
  last_char s <> Some c -> rstrip c s = s.
Proof.
  destruct (rstrip_spec c s) as ([|k] & E & _); intros Hl.
  - rewrite append_nil_r in E. now symmetry.
  - exfalso. apply Hl. rewrite E. unfold last_char. rewrite last_or_app.
    simpl. apply last_or_repeat.
Qed.

Lemma rstrip_app (c : ascii) (a b : string) :
  rstrip c (a ++ b)
  = if is_empty (rstrip c b) then rstrip c a else a ++ rstrip c b.
Proof.
  induction a as [|x t IH]; simpl.
  - now destruct (rstrip c b).
  - rewrite IH. destruct (is_empty (rstrip c b)) eqn:E; [reflexivity|].
    destruct (t ++ rstrip c b) eqn:E2; [|reflexivity].
    destruct t; simpl in E2; [|discriminate]. now rewrite E2 in E.
Qed.

Lemma rstrip_head (c : ascii) (s : string) :
  rstrip c s <> "" -> head (rstrip c s) = head s.
Proof.
  destruct s as [|a t]; simpl; [congruence|].
  now destruct (is_empty (rstrip c t) && Ascii.eqb a c).
Qed.

Lemma is_empty_true (s : string) : is_empty s = true -> s = "".
Proof. now destruct s. Qed.

Lemma word_last_upper (mid kw : string) :
  upper mid = kw -> word_opt (last_char kw) = true ->
  word_opt (last_char mid) = true.
Proof.
  intros <- H. unfold last_char in *.
  now rewrite (word_last_or_upper mid None None) in H.
Qed.

Lemma word_not_semicolon (o : option ascii) :
  word_opt o = true -> o <> Some ";"%char.
Proof. intros H ->. discriminate. Qed.

(** Appending the LIMIT clause keeps every whole word of the query that
    ends in a word character. *)
Lemma has_word_add_limit (kw q : string) (limit : Z) :
  word_opt (last_char kw) = true ->
  has_word kw q -> has_word kw (_add_limit q limit).
Proof.
  intros Hkw (pre & mid & post & -> & Hmid & Hp & Hr).
  pose proof (word_last_upper _ _ Hmid Hkw) as Hlast.
  assert (Hne : mid <> "") by (intros ->; discriminate).
  assert (Hpm : last_char (pre ++ mid) <> Some ";"%char).
  { apply word_not_semicolon. unfold last_char. rewrite last_or_app.
    now rewrite last_or_nonempty. }
  unfold _add_limit.
  rewrite <- (append_assoc pre mid post), (rstrip_app ";" (pre ++ mid) post).
  destruct (is_empty (rstrip ";" post)) eqn:E.
  - rewrite (rstrip_fixed _ _ Hpm).
    exists pre, mid, (" LIMIT " ++ str_of_int limit).
    rewrite !append_assoc. now repeat split.
  - exists pre, mid, (rstrip ";" post ++ " LIMIT " ++ str_of_int limit).
    rewrite !append_assoc. repeat split; try assumption.
    assert (Hn : rstrip ";" post <> "") by (intros H; now rewrite H in E).
    now rewrite head_app, rstrip_head.
Qed.

Lemma has_word_optimize (o : QueryOptimizer.t) (kw q : string) :
  word_opt (last_char kw) = true ->
  has_word kw q -> has_word kw (optimize o q).
Proof.
  intros Hkw Hw. unfold optimize.
  destruct (_has_limit q); simpl; [exact Hw|].
  now apply has_word_add_limit.
Qed.

End OptimizeKeepsWords.

Section EngineRefusal.
Import PyStr Re PyDict Json QueryOptimizer Engine EngineTrace.

Variable float : Type.
Variable W : Type.
Variable world : forall X : Type, event float X -> W -> X * W.

(** X2.  With read-only mode on, a request that has a dangerous keyword as a
    case-insensitive whole word is refused by [process_cypher_query]
    before anything is executed, although the check runs on the text
    after the LIMIT clause was appended. *)
Theorem process_cypher_query_refuses_writes :
  forall (self : Engine.t) (cypher : string)
         (parameters : option (dict pyval)) (timeout : option Z) (w : W),
    enable_read_only_mode (cfg self) = true ->
    is_ascii cypher = true ->
    (exists kw, In kw DANGEROUS_KEYWORDS /\ has_word kw cypher) ->
    let run :=
      exec world self (process_cypher_query self cypher parameters timeout) w in
    executed_texts (fst (fst run)) = []
    /\ exists kw,
         In kw DANGEROUS_KEYWORDS
         /\ snd (fst run) = Raise (InvalidCypherQueryError (forbidden_msg kw)).
Proof.
  intros self cypher parameters timeout w Hen _ (kw & Hin & Hw) run.
  subst run.
  set (sent := optimize (query_optimizer self) cypher).
  assert (Hsent : has_word kw sent).
  { apply has_word_optimize; [|exact Hw].
    now destruct (dangerous_keywords_words kw Hin). }
  destruct (is_read_only_enabled (cfg self) sent Hen)
    as [[Hnone _]|(before & kw' & after & E & Hw' & _ & Hro)];
    [now elim (Hnone kw Hin)|].
  assert (Hin' : In kw' DANGEROUS_KEYWORDS) by (rewrite E; apply in_elt).
  unfold process_cypher_query, call, attempt. simpl bind.
  rewrite exec_vis. simpl respond. simpl fst at 2. simpl snd at 2.
  rewrite exec_vis. simpl respond. fold sent. rewrite Hro. simpl.
  split; [reflexivity|]. exists kw'. now split.
Qed.

End EngineRefusal.

Lemma process_cypher_query_executes_guarded_witness :
  let self := Engine.init default_settings true in
  let world := Engine.sample_world None (true, None) in
  let run :=
    Engine.exec world self
      (Engine.process_cypher_query self "MATCH (n) RETURN n;" None None) 0%Z in
  (0 <= QueryOptimizer.default_limit (Engine.query_optimizer self))%Z
  /\ EngineTrace.executed_texts (fst (fst run))
     = ["MATCH (n) RETURN n LIMIT 100"].
Proof.
  assert (H : (0 <= QueryOptimizer.default_limit
                      (Engine.query_optimizer
                         (Engine.init default_settings true)))%Z)
    by (simpl; lia).
  split; [exact H|].
  exact (proj1 (proj1 (process_cypher_query_executes_guarded Z Z
                         (Engine.sample_world None (true, None))
                         (Engine.init default_settings true)
                         "MATCH (n) RETURN n;" None None 0%Z H)
                  eq_refl)).
Defined.

Lemma process_cypher_query_refuses_writes_witness :
  let self := Engine.init default_settings true in
  let world := Engine.sample_world None (true, None) in
  let run :=
    Engine.exec world self
      (Engine.process_cypher_query self "match (n) delete n" None None) 0%Z in
  (exists kw, In kw QueryOptimizer.DANGEROUS_KEYWORDS
              /\ QueryOptimizer.has_word kw "match (n) delete n")
  /\ EngineTrace.executed_texts (fst (fst run)) = [].
Proof.
  assert (H : exists kw, In kw QueryOptimizer.DANGEROUS_KEYWORDS
                /\ QueryOptimizer.has_word kw "match (n) delete n").
  { exists "DELETE". split; [simpl; tauto|].
    exists "match (n) ", "delete", " n". repeat split. }
  split; [exact H|].
  exact (proj1 (process_cypher_query_refuses_writes Z Z
                  (Engine.sample_world None (true, None))
                  (Engine.init default_settings true)
                  "match (n) delete n" None None 0%Z eq_refl eq_refl H)).
Defined.

(** ** The engine: natural-language queries *)

Section NaturalQueryFacts.
Import PyStr Re PyDict Json QueryOptimizer Engine EngineTrace.

Variable float : Type.
Variable elapsed_ms : float -> float -> float.
Variable W : Type.
Variable world : forall X : Type, event float X -> W -> X * W.

Local Ltac nq_run :=
  repeat (cbn [exec respond bind fst snd save_if negb];
          match goal with
          | |- context [world ?X ?e ?w] =>
              destruct (world X e w) as [? ?] eqn:?
          end);
  cbn [exec respond bind fst snd save_if negb].

Local Ltac nq_cases :=
  repeat (match goal with
          | o : option (CacheEntry float) |- _ => destruct o
          | v : (bool * option string)%type |- _ => destruct v as [[|] ?]
          | u : unit |- _ => destruct u
          | r : result _ |- _ => destruct r
          | |- context [is_read_only ?c ?s] =>
              destruct (is_read_only c s) as [[|] ?] eqn:?
          end; nq_run).

Local Ltac nq_raised :=
  match goal with
  | He : Raise ?e0 = Raise ?e,
    H : world _ (ExecuteCypher ?c None None) ?w0 = (Raise ?e0, _) |- _ =>
      right; exists c, w0; split; [reflexivity|];
      rewrite H; cbn [fst]; congruence
  end.

Local Ltac nq_finish Hl :=
  cbn [executed_texts cached_values keep executed_text cached_value In
       cypher results execution_time answer fst snd];
  repeat split; intros;
  repeat match goal with
         | H : _ \/ _ |- _ => destruct H as [<-|H]
         | H : False |- _ => destruct H
         end;
  cbn [cypher results execution_time answer];
  try discriminate; try reflexivity;
  try (apply optimize_has_limit; exact Hl);
  try match goal with
      | E : is_read_only _ _ = _ |- _ => rewrite E; reflexivity
      end;
  try (left; reflexivity);
  try nq_raised.

(** X3.  [process_natural_query] executes at most the generated text after
    optimisation, and only once it passed the read-only check: every
    executed text has a LIMIT clause and is accepted by [is_read_only].
    What is written to the cache is what is returned, its query is the
    executed one, and nothing is written unless the caller asked for the
    cache and the cache is enabled.  When the engine raises, nothing was
    cached, and either nothing was executed or the exception is the one
    that [execute_cypher] raised on the one text it was given. *)
Theorem process_natural_query_executes_guarded :
  forall (self : Engine.t) (question : string) (context : option string)
         (use_cache : bool) (w : W),
    (0 <= default_limit (query_optimizer self))%Z ->
    let run :=
      exec world self
        (process_natural_query elapsed_ms self question context use_cache) w in
    (forall c, In c (executed_texts (fst (fst run))) ->
               _has_limit c = true
               /\ fst (is_read_only (cfg self) c) = true)
    /\ (forall v, In v (cached_values (fst (fst run))) ->
                  use_cache && cache_enabled self = true
                  /\ executed_texts (fst (fst run)) = [cypher v]
                  /\ snd (fst run)
                     = Return (cypher v, results v, execution_time v, answer v))
    /\ (forall e, snd (fst run) = Raise e ->
                  cached_values (fst (fst run)) = []
                  /\ (executed_texts (fst (fst run)) = []
                      \/ exists c w',
                           executed_texts (fst (fst run)) = [c]
                           /\ fst (world _ (ExecuteCypher c None None) w')
                              = Raise e)).
Proof.
  intros self question context use_cache w Hl run. subst run.
  unfold process_natural_query, call, attempt.
  destruct (use_cache && cache_enabled self) eqn:Ec;
    nq_run; nq_cases; nq_finish Hl.
Qed.

End NaturalQueryFacts.

Lemma process_natural_query_executes_guarded_witness :
  let self := Engine.init default_settings true in
  let world := Engine.sample_world None (true, None) in
  let run :=
    Engine.exec world self
      (Engine.process_natural_query Z.sub self "Which films?" None true)
      0%Z in
  (0 <= QueryOptimizer.default_limit (Engine.query_optimizer self))%Z
  /\ EngineTrace.executed_texts (fst (fst run))
     = ["MATCH (m:Movie) RETURN m.title LIMIT 100"]
  /\ forall v, In v (EngineTrace.cached_values (fst (fst run))) ->
               snd (fst run)
               = Return (Engine.cypher v, Engine.results v,
                         Engine.execution_time v, Engine.answer v).
Proof.
  assert (H : (0 <= QueryOptimizer.default_limit
                      (Engine.query_optimizer
                         (Engine.init default_settings true)))%Z)
    by (simpl; lia).
  split; [exact H|]. split; [reflexivity|].
  intros v Hv.
  exact (proj2 (proj2 (proj1 (proj2
           (process_natural_query_executes_guarded Z Z.sub Z
              (Engine.sample_world None (true, None))
              (Engine.init default_settings true)
              "Which films?" None true 0%Z H)) v Hv))).
Defined.

Section ValidateWarningFacts.
Import PyStr Re PyDict Json QueryOptimizer Engine.

Variable float : Type.
Variable W : Type.
Variable world : forall X : Type, event float X -> W -> X * W.

(** [optimize] changes a query exactly when the query has no LIMIT
    clause. *)
Lemma optimize_changes_iff (o : QueryOptimizer.t) (q : string) :
  (0 <= default_limit o)%Z ->
  (optimize o q = q <-> _has_limit q = true).
Proof.
  intros Hl. split.
  - intros E. rewrite <- E. now apply optimize_has_limit.
  - intros H. unfold optimize. now rewrite H.
Qed.

(** X4.  For a query the validator accepts, [validate_query] announces that a
    LIMIT will be added exactly when [optimize] would change the query:
    the warning list is the one LIMIT warning if [optimize] changes the
    text and is empty if it leaves it as it is. *)
Theorem validate_query_warns_iff_optimize_changes :
  forall (self : Engine.t) (cypher : string) (check_read_only : bool) (w : W),
    (0 <= default_limit (query_optimizer self))%Z ->
    fst (fst (world _ (ValidateCypher cypher) w)) = true ->
    exists is_read_only error_msg warnings,
      snd (fst (exec world self
                  (validate_query self cypher check_read_only) w))
      = Return (true, is_read_only, error_msg, warnings)
      /\ (optimize (query_optimizer self) cypher <> cypher ->
          warnings = [limit_warning self])
      /\ (optimize (query_optimizer self) cypher = cypher ->
          warnings = []).
Proof.
  intros self cypher chk w Hl Hv.
  pose proof (optimize_changes_iff (query_optimizer self) cypher Hl) as Hopt.
  unfold validate_query, call.
  cbn [exec respond bind fst snd].
  destruct (world _ (ValidateCypher cypher) w) as [[valid err] w1].
  cbn [fst snd] in *. subst valid. cbn [negb].
  destruct chk; cbn [exec respond bind fst snd andb];
    destruct (_has_limit cypher) eqn:E; cbn [negb app fst snd];
    do 3 eexists; (split; [reflexivity|]); split; intros H;
    try reflexivity;
    try (apply Hopt in H; discriminate);
    try (elim H; now apply Hopt).
Qed.

End ValidateWarningFacts.

Lemma validate_query_warns_iff_optimize_changes_witness :
  let self := Engine.init default_settings true in
  let world := Engine.sample_world None (true, None) in
  (0 <= QueryOptimizer.default_limit (Engine.query_optimizer self))%Z
  /\ exists is_read_only error_msg warnings,
       snd (fst (Engine.exec world self
                   (Engine.validate_query self "MATCH (n) RETURN n" true)
                   0%Z))
       = Return (true, is_read_only, error_msg, warnings)
       /\ (QueryOptimizer.optimize (Engine.query_optimizer self)
             "MATCH (n) RETURN n" <> "MATCH (n) RETURN n" ->
           warnings = [Engine.limit_warning self])
       /\ (QueryOptimizer.optimize (Engine.query_optimizer self)
             "MATCH (n) RETURN n" = "MATCH (n) RETURN n" ->
           warnings = []).
Proof.
  assert (H : (0 <= QueryOptimizer.default_limit
                      (Engine.query_optimizer
                         (Engine.init default_settings true)))%Z)
    by (simpl; lia).
  split; [exact H|].
  exact (validate_query_warns_iff_optimize_changes Z Z
           (Engine.sample_world None (true, None))
           (Engine.init default_settings true)
           "MATCH (n) RETURN n" true 0%Z H eq_refl).
Defined.

(** ** API keys and the authentication gate *)

Section AuthFacts.
Import PyStr PyDict Jose Auth.

Variable parse_token : string -> token.

Lemma existsb_eqb_In (k : string) (l : list string) :
  existsb (String.eqb k) l = true <-> In k l.
Proof.
  rewrite existsb_exists. split.
  - intros (x & Hin & E). apply String.eqb_eq in E. now subst.
  - intros H. exists k. split; [exact H | apply String.eqb_refl].
Qed.

(** With enforcement on, a key is accepted exactly when it is not empty
    and is in the configured list. *)
Lemma verify_enabled (ks : KeySettings) (k : string) :
  api_key_enabled ks = true ->
  (verify ks k = true <-> k <> "" /\ In k (api_keys ks)).
Proof.
  intros En. unfold verify. rewrite En. simpl.
  destruct k as [|a t]; simpl.
  - split; [discriminate | now intros [H _]].
  - rewrite <- (existsb_eqb_In (String a t)). simpl.
    split; [intros H; split; [discriminate | exact H] | now intros [_ H]].
Qed.

(** X5.  Every request the middleware lets through on a protected path, with
    enforcement on, carries a listed non-empty key, or carries no key and
    a bearer token that [verify_token] accepts as an access token; what
    is put in the request state is that key or that payload. *)
Theorem dispatch_lets_through_only_authenticated :
  forall (cfg : Settings) (ks : KeySettings) (now : Z) (request : Request)
         (user : option claims) (key : option string),
    api_key_enabled ks = true ->
    ~ In (path request) PUBLIC_ROUTES ->
    dispatch parse_token cfg ks now request = CallNext user key ->
    (exists k, x_api_key request = Some k /\ k <> "" /\ In k (api_keys ks)
               /\ user = None /\ key = Some k)
    \/ (falsy (x_api_key request) = true
        /\ key = None
        /\ exists header text payload,
             authorization request = Some header
             /\ prefix "Bearer " header = true
             /\ second_field header = Some text
             /\ TokenManager.verify_token cfg (parse_token text) "access" now
                = Return payload
             /\ user = Some payload).
Proof.
  intros cfg ks now request user key En Hpath. unfold dispatch.
  destruct (existsb (String.eqb (path request)) PUBLIC_ROUTES) eqn:Ep.
  { apply existsb_eqb_In in Ep. contradiction. }
  rewrite En. simpl negb. cbv iota.
  destruct (falsy (x_api_key request)) eqn:Ef.
  - destruct (bearer_payload parse_token cfg now request) as [p| |e0] eqn:Eb.
    + intros [= <- <-]. right. split; [reflexivity|]. split; [reflexivity|].
      unfold bearer_payload in Eb.
      destruct (authorization request) as [h|]; [|discriminate].
      destruct (negb (is_empty h) && prefix "Bearer " h) eqn:Eh;
        [|discriminate].
      apply andb_true_iff in Eh as [_ Hpre].
      destruct (second_field h) as [text|] eqn:Es; [|discriminate].
      destruct (TokenManager.verify_token cfg (parse_token text) "access" now)
        as [payload|e] eqn:Ev;
        [|destruct (is_http_exception e); discriminate].
      injection Eb as Epl. subst p. exists h, text, payload.
      split; [reflexivity|]. split; [exact Hpre|]. split; [exact Es|].
      split; [exact Ev | reflexivity].
    + destruct (x_api_key request) as [k|]; [|discriminate].
      simpl in Ef. now rewrite Ef.
    + discriminate.
  - destruct (x_api_key request) as [k|] eqn:Ek; [|discriminate].
    simpl in Ef. rewrite Ef. simpl orb.
    destruct (verify ks k) eqn:Ev; simpl; [|discriminate].
    intros [= <- <-]. left. exists k.
    apply (verify_enabled ks k En) in Ev as [Hne Hin]. now repeat split.
Qed.

(** X6.  A request that carries a non-empty key is judged on the key alone:
    with a key that is not listed it is refused whatever its
    [Authorization] header holds, a valid bearer token included. *)
Theorem dispatch_wrong_key_refused :
  forall (cfg : Settings) (ks : KeySettings) (now : Z) (request : Request)
         (k : string),
    api_key_enabled ks = true ->
    ~ In (path request) PUBLIC_ROUTES ->
    x_api_key request = Some k ->
    k <> "" ->
    ~ In k (api_keys ks) ->
    dispatch parse_token cfg ks now request
    = Refuse "API Key invalide ou manquante".
Proof.
  intros cfg ks now request k En Hpath Hk Hne Hnin. unfold dispatch.
  destruct (existsb (String.eqb (path request)) PUBLIC_ROUTES) eqn:Ep.
  { apply existsb_eqb_In in Ep. contradiction. }
  rewrite En, Hk. simpl negb. cbv iota.
  destruct k as [|a t]; [congruence|]. simpl falsy. cbv iota. simpl is_empty.
  simpl orb.
  destruct (verify ks (String a t)) eqn:Ev; [|reflexivity].
  apply (verify_enabled ks _ En) in Ev as [_ Hin]. contradiction.
Qed.

(** X7.  The query endpoints also depend on [get_api_key], which knows keys
    only: with enforcement on it returns exactly the listed non-empty
    keys, so a request without a key is refused there even when the
    middleware let it through on a bearer token. *)
Theorem get_api_key_requires_key :
  forall (ks : KeySettings) (header : option string),
    api_key_enabled ks = true ->
    (forall k, get_api_key ks header = Ok k ->
               header = Some k /\ k <> "" /\ In k (api_keys ks))
    /\ (falsy header = true ->
        get_api_key ks header = Http401 "API Key invalide ou manquante").
Proof.
  intros ks header En. unfold get_api_key. rewrite En. simpl negb. cbv iota.
  split.
  - intros k. destruct header as [h|]; [|discriminate].
    destruct (is_empty h) eqn:Ee; simpl; [discriminate|].
    destruct (verify ks h) eqn:Ev; simpl; [|discriminate].
    intros [= <-]. apply (verify_enabled ks h En) in Ev as [Hne Hin].
    now repeat split.
  - destruct header as [h|]; simpl; [|reflexivity]. now intros ->.
Qed.

End AuthFacts.

Section AuthExamples.
Import PyStr PyDict Jose Auth.

Lemma dispatch_lets_through_only_authenticated_witness :
  let request :=
    {| path := "/api/v1/natural"; x_api_key := None;
       authorization := Some "Bearer good" |} in
  api_key_enabled sample_keys = true
  /\ ~ In (path request) PUBLIC_ROUTES
  /\ dispatch sample_parse default_settings sample_keys 1767225601 request
     = CallNext (Some sample_payload) None
  /\ ((exists k, x_api_key request = Some k /\ k <> ""
                 /\ In k (api_keys sample_keys)
                 /\ Some sample_payload = None /\ None = Some k)
      \/ (falsy (x_api_key request) = true
          /\ @None string = None
          /\ exists header text payload,
               authorization request = Some header
               /\ prefix "Bearer " header = true
               /\ second_field header = Some text
               /\ TokenManager.verify_token default_settings
                    (sample_parse text) "access" 1767225601
                  = Return payload
               /\ Some sample_payload = Some payload)).
Proof.
  intros request.
  assert (Hp : ~ In (path request) PUBLIC_ROUTES)
    by (simpl; intuition discriminate).
  split; [reflexivity|]. split; [exact Hp|]. split; [reflexivity|].
  exact (dispatch_lets_through_only_authenticated sample_parse
           default_settings sample_keys 1767225601%Z request
           (Some sample_payload) None eq_refl Hp eq_refl).
Defined.

Lemma dispatch_wrong_key_refused_witness :
  let request :=
    {| path := "/api/v1/natural"; x_api_key := Some "k-2";
       authorization := Some "Bearer good" |} in
  ~ In (path request) PUBLIC_ROUTES
  /\ ~ In "k-2" (api_keys sample_keys)
  /\ dispatch sample_parse default_settings sample_keys 1767225601 request
     = Refuse "API Key invalide ou manquante".
Proof.
  intros request.
  assert (Hp : ~ In (path request) PUBLIC_ROUTES)
    by (simpl; intuition discriminate).
  assert (Hk : ~ In "k-2" (api_keys sample_keys))
    by (simpl; intuition discriminate).
  assert (Hne : "k-2" <> "") by discriminate.
  split; [exact Hp|]. split; [exact Hk|].
  exact (dispatch_wrong_key_refused sample_parse default_settings sample_keys
           1767225601%Z request "k-2" eq_refl Hp eq_refl Hne Hk).
Defined.

Lemma get_api_key_requires_key_witness :
  api_key_enabled sample_keys = true
  /\ get_api_key sample_keys (Some "k-1") = Ok "k-1"
  /\ get_api_key sample_keys None = Http401 "API Key invalide ou manquante".
Proof.
  split; [reflexivity|]. split; [reflexivity|].
  exact (proj2 (get_api_key_requires_key sample_keys None eq_refl) eq_refl).
Defined.

End AuthExamples.

(** ** Issued tokens *)

Section IssuedTokenFacts.
Import PyStr PyDict Jose TokenManager.

Variable isoformat : Z -> string.

Lemma get_encoded (c : claims) (k : string) :
  get (map encode_claim c) k
  = option_map (fun v => snd (encode_claim (k, v))) (get c k).
Proof.
  induction c as [|[k' v] t IH]; simpl; [reflexivity|].
  assert (E : fst (encode_claim (k', v)) = k').
  { unfold encode_claim. simpl. destruct v; try reflexivity.
    now destruct (is_time_claim k'). }
  destruct (encode_claim (k', v)) as [k'' v'] eqn:Enc. simpl in E; subst k''.
  destruct (String.eqb k' k) eqn:Ek.
  - apply String.eqb_eq in Ek. subst k'. simpl. now rewrite Enc.
  - exact IH.
Qed.

Lemma encode_claim_other (k : string) (v : value) :
  is_time_claim k = false ->
  serialisable (encode_claim (k, v)) = true ->
  snd (encode_claim (k, v)) = v.
Proof.
  unfold encode_claim, serialisable. simpl. intros Hk.
  destruct v; try reflexivity. rewrite Hk. simpl. discriminate.
Qed.

Lemma get_serialisable (c : claims) (k : string) (v : value) :
  forallb serialisable c = true -> get c k = Some v ->
  serialisable (k, v) = true.
Proof.
  induction c as [|[k' v'] t IH]; simpl; [discriminate|].
  intros H. apply andb_true_iff in H as [Hs Ht].
  destruct (String.eqb k' k); [intros [= <-]; exact Hs | now apply IH].
Qed.

(** X8.  The payload of every issued access token: the type is "access" and
    the expiry is the one computed by the issuer, whatever the caller put
    under those keys; an absent or zero [expires_delta] gives the default
    lifetime, any other value is added to the clock; every other claim of
    the caller, the time claims apart, is carried unchanged. *)
Theorem issued_access_token_payload :
  forall (cfg : Settings) (data : claims) (expires_delta : option Z)
         (now now_iat : Z) (t : token),
    create_access_token isoformat cfg data expires_delta now now_iat
      = Return t ->
    exists payload,
      t = Jwt (algorithm cfg) (secret_key cfg) payload
      /\ get payload "type" = Some (Str "access")
      /\ get payload "iat" = Some (Str (isoformat now_iat ++ "Z"))
      /\ (expires_delta = None \/ expires_delta = Some 0%Z ->
          get payload "exp"
          = Some (Int (now + 60 * access_token_expire_minutes cfg)))
      /\ (forall d, expires_delta = Some d -> d <> 0%Z ->
                    get payload "exp" = Some (Int (now + d)))
      /\ (forall k, k <> "type" -> is_time_claim k = false ->
                    get payload k = get data k).
Proof.
  intros cfg data delta now now_iat t. unfold create_access_token, encode.
  set (to_encode := update data _).
  destruct (forallb serialisable (map encode_claim to_encode)) eqn:Es;
    [|discriminate].
  intros [= <-]. exists (map encode_claim to_encode).
  split; [reflexivity|].
  assert (Htype : get to_encode "type" = Some (Str "access")).
  { unfold to_encode, update. simpl. apply get_set_same. }
  assert (Hiat : get to_encode "iat" = Some (Str (isoformat now_iat ++ "Z"))).
  { unfold to_encode, update. simpl.
    rewrite get_set_other by discriminate. apply get_set_same. }
  assert (Hexp : get to_encode "exp"
                 = Some (Datetime (expiry now delta
                           (60 * access_token_expire_minutes cfg)))).
  { unfold to_encode, update. simpl.
    rewrite !get_set_other by discriminate. apply get_set_same. }
  split; [now apply get_encoded_str|].
  split; [now apply get_encoded_str|].
  split; [|split].
  - intros Hd. rewrite get_encoded, Hexp. simpl.
    destruct Hd as [-> | ->]; reflexivity.
  - intros d -> Hd. rewrite get_encoded, Hexp. simpl.
    apply Z.eqb_neq in Hd. now rewrite Hd.
  - intros k Hk Ht. rewrite get_encoded.
    assert (Hget : get to_encode k = get data k).
    { unfold to_encode, update. simpl.
      assert (k <> "exp" /\ k <> "iat") as [H1 H2].
      { unfold is_time_claim in Ht.
        apply orb_false_iff in Ht as [Ht _].
        apply orb_false_iff in Ht as [H1 H2].
        apply String.eqb_neq in H1, H2. now split. }
      rewrite !get_set_other by congruence. reflexivity. }
    destruct (get to_encode k) as [v|] eqn:Ev; rewrite <- Hget;
      [|reflexivity].
    simpl. f_equal. apply encode_claim_other; [exact Ht|].
    assert (Hin : get (map encode_claim to_encode) k
                  = Some (snd (encode_claim (k, v))))
      by (now rewrite get_encoded, Ev).
    pose proof (get_serialisable _ _ _ Es Hin) as Hs.
    unfold serialisable in *. exact Hs.
Qed.

(** X9.  Every token issued by [create_refresh_token] is refused by
    [verify_token] as well, for the same reason as the access tokens:
    its ["iat"] is a text, where the decoder wants an integer. *)
Theorem issued_refresh_token_is_refused :
  forall (cfg : Settings) (data : claims) (expires_delta : option Z)
         (now now_iat : Z) (t : token) (token_type : string) (later : Z),
    create_refresh_token isoformat cfg data expires_delta now now_iat
      = Return t ->
    verify_token cfg t token_type later
    = Raise (UnauthorizedError "Claims du token invalides").
Proof.
  intros cfg data delta now now_iat t ty later.
  unfold create_refresh_token, encode.
  destruct (forallb serialisable _); [|discriminate].
  intros [= <-].
  apply verify_token_bad_iat with (s := isoformat now_iat ++ "Z").
  - apply issued_iat.
  - apply int_of_str_trailing_Z.
Qed.

End IssuedTokenFacts.

Section IssuedTokenExamples.
Import PyStr PyDict Jose TokenManager.

Lemma issued_access_token_payload_witness :
  let issued :=
    create_access_token sample_isoformat default_settings
      [("sub", Str "x"); ("type", Str "admin")] (Some 0%Z)
      1767225600 1767225600 in
  issued
  = Return (Jwt "HS256" "secret"
              [("sub", Str "x"); ("type", Str "access");
               ("exp", Int 1767227400);
               ("iat", Str "2026-01-01T00:00:00+00:00Z")])
  /\ exists payload,
       Jwt "HS256" "secret"
         [("sub", Str "x"); ("type", Str "access");
          ("exp", Int 1767227400);
          ("iat", Str "2026-01-01T00:00:00+00:00Z")]
       = Jwt (algorithm default_settings) (secret_key default_settings) payload
       /\ get payload "type" = Some (Str "access")
       /\ get payload "iat" = Some (Str (sample_isoformat 1767225600 ++ "Z"))
       /\ (Some 0%Z = None \/ Some 0%Z = Some 0%Z ->
           get payload "exp"
           = Some (Int (1767225600
                        + 60 * access_token_expire_minutes default_settings)))
       /\ (forall d, Some 0%Z = Some d -> d <> 0%Z ->
                     get payload "exp" = Some (Int (1767225600 + d)))
       /\ (forall k, k <> "type" -> is_time_claim k = false ->
                     get payload k
                     = get [("sub", Str "x"); ("type", Str "admin")] k).
Proof.
  split; [reflexivity|].
  exact (issued_access_token_payload sample_isoformat default_settings
           [("sub", Str "x"); ("type", Str "admin")] (Some 0%Z)
           1767225600%Z 1767225600%Z _ eq_refl).
Defined.

Lemma issued_refresh_token_is_refused_witness :
  create_refresh_token sample_isoformat default_settings
    [("sub", Str "x")] None 1767225600 1767225600
  = Return (Jwt "HS256" "secret"
              [("sub", Str "x"); ("exp", Int 1767830400);
               ("iat", Str "2026-01-01T00:00:00+00:00Z");
               ("type", Str "refresh")])
  /\ verify_token default_settings
       (Jwt "HS256" "secret"
          [("sub", Str "x"); ("exp", Int 1767830400);
           ("iat", Str "2026-01-01T00:00:00+00:00Z");
           ("type", Str "refresh")])
       "refresh" 1767225601
     = Raise (UnauthorizedError "Claims du token invalides").
Proof.
  split; [reflexivity|].
  exact (issued_refresh_token_is_refused sample_isoformat default_settings
           [("sub", Str "x")] None 1767225600%Z 1767225600%Z _
           "refresh" 1767225601%Z eq_refl).
Defined.

End IssuedTokenExamples.

(** ** Paths *)

Section PathCleaningFacts.
Import PyStr Re Sanitizers.

Lemma prefix_app (sub a b : string) :
  prefix sub a = true -> prefix sub (a ++ b) = true.
Proof.
  revert a; induction sub as [|x sub' IH]; intros a H.
  - now destruct (a ++ b).
  - destruct a as [|y a']; simpl in *; [discriminate|].
    destruct (ascii_dec x y); [now apply IH | discriminate].
Qed.

Lemma contains_app_l (sub a b : string) :
  contains sub a = true -> contains sub (a ++ b) = true.
Proof.
  induction a as [|x a' IH]; intros H.
  - destruct sub; [now destruct b | discriminate H].
  - change (contains sub (String x a'))
      with (prefix sub (String x a') || contains sub a') in H.
    change (contains sub (String x a' ++ b))
      with (prefix sub (String x a' ++ b) || contains sub (a' ++ b)).
    apply orb_true_iff in H as [H|H].
    + now rewrite (prefix_app _ _ b H).
    + rewrite (IH H). apply orb_true_r.
Qed.

Lemma contains_app_r (sub a b : string) :
  contains sub b = true -> contains sub (a ++ b) = true.
Proof.
  intros H. induction a as [|x a' IH]; [exact H|].
  change (contains sub (String x a' ++ b))
    with (prefix sub (String x a' ++ b) || contains sub (a' ++ b)).
  rewrite IH. apply orb_true_r.
Qed.

(** A two-character text is contained where its characters are next to
    each other. *)
Lemma contains_pair (x y a : ascii) (t : string) :
  contains (String x (String y "")) (String a t)
  = (Ascii.eqb x a && head_is y t) || contains (String x (String y "")) t.
Proof.
  change (contains (String x (String y "")) (String a t))
    with (prefix (String x (String y "")) (String a t)
          || contains (String x (String y "")) t).
  f_equal. simpl. destruct (ascii_dec x a) as [->|Hne].
  - rewrite Ascii.eqb_refl. simpl. destruct t as [|b u]; [reflexivity|].
    simpl. destruct (ascii_dec y b) as [->|Hne].
    + rewrite Ascii.eqb_refl. now destruct u.
    + symmetry. now apply Ascii.eqb_neq.
  - apply Ascii.eqb_neq in Hne. now rewrite Hne.
Qed.

Lemma any_char_app (p : ascii -> bool) (a b : string) :
  any_char p (a ++ b) = any_char p a || any_char p b.
Proof.
  induction a as [|x t IH]; simpl; [reflexivity|].
  now rewrite IH, orb_assoc.
Qed.

Lemma head_map_chars (f : ascii -> ascii) (c : ascii) (s : string) :
  (forall a, Ascii.eqb c (f a) = Ascii.eqb c a) ->
  head_is c (map_chars f s) = head_is c s.
Proof. intros H. destruct s; simpl; [reflexivity | apply H]. Qed.

Lemma contains_pair_map (f : ascii -> ascii) (c : ascii) (s : string) :
  (forall a, Ascii.eqb c (f a) = Ascii.eqb c a) ->
  contains (String c (String c "")) (map_chars f s)
  = contains (String c (String c "")) s.
Proof.
  intros H. induction s as [|a t IH]; [reflexivity|].
  simpl map_chars. rewrite !contains_pair, IH, H.
  now rewrite (head_map_chars f c t H).
Qed.

Lemma head_is_collapse (x c : ascii) (s : string) :
  head_is x (collapse c s) = head_is x s.
Proof.
  induction s as [|a t IH]; simpl; [reflexivity|].
  destruct (Ascii.eqb c a && head_is c t) eqn:E; [|reflexivity].
  apply andb_true_iff in E as [Ea Et]. apply Ascii.eqb_eq in Ea. subst a.
  rewrite IH. destruct t as [|b u]; simpl in *; [discriminate|].
  apply Ascii.eqb_eq in Et. now subst b.
Qed.

(** Collapsing the runs of [c] leaves no two [c] next to each other and
    brings no other two characters next to each other. *)
Lemma collapse_no_run (c : ascii) (s : string) :
  contains (String c (String c "")) (collapse c s) = false.
Proof.
  induction s as [|a t IH]; [reflexivity|]. cbn [collapse].
  destruct (Ascii.eqb c a && head_is c t) eqn:E; [exact IH|].
  rewrite contains_pair, IH, head_is_collapse, E. reflexivity.
Qed.

Lemma collapse_keeps_pairs (x c : ascii) (s : string) :
  x <> c ->
  contains (String x (String x "")) (collapse c s)
  = contains (String x (String x "")) s.
Proof.
  intros Hne. induction s as [|a t IH]; [reflexivity|]. cbn [collapse].
  rewrite (contains_pair x x a t).
  destruct (Ascii.eqb c a && head_is c t) eqn:E.
  - apply andb_true_iff in E as [Ea _]. apply Ascii.eqb_eq in Ea. subst a.
    apply Ascii.eqb_neq in Hne. now rewrite Hne, IH.
  - now rewrite contains_pair, IH, head_is_collapse.
Qed.

Lemma any_char_collapse (p : ascii -> bool) (c : ascii) (s : string) :
  any_char p (collapse c s) = false <-> any_char p s = false.
Proof.
  induction s as [|a t IH]; simpl; [tauto|].
  destruct (Ascii.eqb c a && head_is c t) eqn:E; simpl.
  - apply andb_true_iff in E as [Ea Et]. apply Ascii.eqb_eq in Ea. subst a.
    destruct t as [|b u]; simpl in *; [discriminate|].
    apply Ascii.eqb_eq in Et. subst b. rewrite IH.
    destruct (p c); simpl; tauto.
  - rewrite !orb_false_iff, IH. tauto.
Qed.

Lemma collapse_fixed (c : ascii) (s : string) :
  contains (String c (String c "")) s = false -> collapse c s = s.
Proof.
  induction s as [|a t IH]; [reflexivity|].
  rewrite contains_pair. intros H. apply orb_false_iff in H as [H1 H2].
  cbn [collapse]. now rewrite H1, IH.
Qed.

Lemma lstrip_spec (c : ascii) (s : string) :
  exists k, s = repeat_char c k ++ lstrip c s /\ head_is c (lstrip c s) = false.
Proof.
  induction s as [|a t (k & E & H)]; simpl.
  - now exists 0.
  - destruct (Ascii.eqb c a) eqn:Ea.
    + apply Ascii.eqb_eq in Ea. subst a. exists (S k). simpl.
      now rewrite <- E.
    + exists 0. simpl. now rewrite Ea.
Qed.

Lemma lstrip_fixed (c : ascii) (s : string) :
  head_is c s = false -> lstrip c s = s.
Proof. destruct s; simpl; [reflexivity | now intros ->]. Qed.

Lemma head_is_head (c : ascii) (s : string) :
  head_is c s = false <-> head s <> Some c.
Proof.
  destruct s as [|a t]; simpl.
  - split; [discriminate | reflexivity].
  - split.
    + intros H [= ->]. now rewrite Ascii.eqb_refl in H.
    + intros H. apply Ascii.eqb_neq. congruence.
Qed.

End PathCleaningFacts.

Section PathNormalForm.
Import PyStr Re Sanitizers.

Lemma contains_strip_char (sub : string) (c : ascii) (s : string) :
  contains sub s = false -> contains sub (strip_char c s) = false.
Proof.
  intros H. unfold strip_char.
  destruct (lstrip_spec c s) as (k & E & _).
  destruct (rstrip_spec c (lstrip c s)) as (k' & E' & _).
  destruct (contains sub (rstrip c (lstrip c s))) eqn:C; [|reflexivity].
  apply (contains_app_l _ _ (repeat_char c k')) in C. rewrite <- E' in C.
  apply (contains_app_r _ (repeat_char c k)) in C. rewrite <- E in C.
  congruence.
Qed.

Lemma any_char_strip_char (p : ascii -> bool) (c : ascii) (s : string) :
  any_char p s = false -> any_char p (strip_char c s) = false.
Proof.
  intros H. unfold strip_char.
  destruct (lstrip_spec c s) as (k & E & _).
  destruct (rstrip_spec c (lstrip c s)) as (k' & E' & _).
  rewrite E, any_char_app in H. apply orb_false_iff in H as [_ H].
  rewrite E', any_char_app in H. now apply orb_false_iff in H as [H _].
Qed.

Lemma any_char_map_none (p : ascii -> bool) (f : ascii -> ascii) (s : string) :
  (forall a, p (f a) = false) -> any_char p (map_chars f s) = false.
Proof.
  intros H. induction s as [|a t IH]; simpl; [reflexivity|].
  now rewrite H, IH.
Qed.

Lemma all_of_none (p : ascii -> bool) (s : string) :
  any_char p s = false -> all_chars (fun c => negb (p c)) s = true.
Proof.
  induction s as [|a t IH]; simpl; [reflexivity|].
  intros H. apply orb_false_iff in H as [Ha Ht]. now rewrite Ha, IH.
Qed.

Lemma head_strip_char (c : ascii) (s : string) :
  head_is c (strip_char c s) = false.
Proof.
  unfold strip_char. destruct (lstrip_spec c s) as (_ & _ & H).
  destruct (rstrip c (lstrip c s)) eqn:E; [reflexivity|].
  apply head_is_head. rewrite <- E. rewrite rstrip_head by (rewrite E; discriminate).
  now apply head_is_head.
Qed.

Lemma replace_keeps_dot (a : ascii) :
  Ascii.eqb "." (if Ascii.eqb a "\" then "/"%char else a) = Ascii.eqb "." a.
Proof.
  destruct (Ascii.eqb a "\") eqn:E; [|reflexivity].
  apply Ascii.eqb_eq in E. now subst a.
Qed.

Lemma replace_no_backslash (a : ascii) :
  Ascii.eqb "\" (if Ascii.eqb a "\" then "/"%char else a) = false.
Proof.
  destruct (Ascii.eqb a "\") eqn:E; [reflexivity|].
  now rewrite Ascii.eqb_sym.
Qed.

(** X10.  Every path that [sanitize_path] returns is in normal form: it has no
    [..], no backslash, no doubled slash, and neither starts nor ends
    with a slash; sanitizing it again returns it unchanged. *)
Theorem sanitize_path_normal_form :
  forall path r : string,
    sanitize_path path = Return r ->
    contains ".." r = false
    /\ any_char (Ascii.eqb "\") r = false
    /\ contains "//" r = false
    /\ head r <> Some "/"%char
    /\ last_char r <> Some "/"%char
    /\ sanitize_path r = Return r.
Proof.
  intros path r. unfold sanitize_path at 1.
  destruct (contains ".." path) eqn:Hd; [discriminate|]. intros [= <-].
  set (p2 := collapse "/" (replace_char "\" "/" path)).
  assert (D : contains ".." (strip_char "/" p2) = false).
  { apply contains_strip_char. unfold p2.
    rewrite collapse_keeps_pairs by discriminate.
    unfold replace_char. rewrite contains_pair_map; [exact Hd|].
    apply replace_keeps_dot. }
  assert (B : any_char (Ascii.eqb "\") (strip_char "/" p2) = false).
  { apply any_char_strip_char. unfold p2. apply any_char_collapse.
    apply any_char_map_none. apply replace_no_backslash. }
  assert (S : contains "//" (strip_char "/" p2) = false).
  { apply contains_strip_char. apply collapse_no_run. }
  assert (H : head_is "/" (strip_char "/" p2) = false)
    by apply head_strip_char.
  assert (L : last_char (strip_char "/" p2) <> Some "/"%char).
  { unfold strip_char.
    now destruct (rstrip_spec "/" (lstrip "/" p2)) as (k & _ & Hl). }
  repeat split; try assumption.
  - now apply head_is_head.
  - unfold sanitize_path. rewrite D. f_equal.
    assert (R : replace_char "\" "/" (strip_char "/" p2) = strip_char "/" p2).
    { unfold replace_char.
      apply map_chars_fixed
        with (p := fun c => negb (Ascii.eqb "\" c)).
      - now apply all_of_none.
      - intros c Hc. apply negb_true_iff in Hc.
        rewrite Ascii.eqb_sym in Hc. now rewrite Hc. }
    rewrite R, (collapse_fixed _ _ S). unfold strip_char at 1.
    rewrite (lstrip_fixed _ _ H). now apply rstrip_fixed.
Qed.

Lemma sanitize_path_normal_form_witness :
  sanitize_path "\srv\\data//in/" = Return "srv/data/in"
  /\ contains "//" "srv/data/in" = false
  /\ sanitize_path "srv/data/in" = Return "srv/data/in".
Proof.
  split; [reflexivity|]. split; [reflexivity|].
  exact (proj2 (proj2 (proj2 (proj2 (proj2
           (sanitize_path_normal_form "\srv\\data//in/" "srv/data/in"
              eq_refl)))))).
Defined.

End PathNormalForm.

(** ** URLs *)

Section UrlFacts.
Import PyStr Re Sanitizers.

Lemma rstrip_ws_idem (s : string) :
  Jose.rstrip_ws (Jose.rstrip_ws s) = Jose.rstrip_ws s.
Proof.
  induction s as [|a t IH]; simpl; [reflexivity|].
  destruct (is_empty (Jose.rstrip_ws t) && is_space a) eqn:E;
    [reflexivity|].
  simpl. now rewrite IH, E.
Qed.

Lemma rstrip_ws_head (s : string) :
  Jose.rstrip_ws s <> "" -> head (Jose.rstrip_ws s) = head s.
Proof.
  destruct s as [|a t]; simpl; [congruence|].
  now destruct (is_empty (Jose.rstrip_ws t) && is_space a).
Qed.

Lemma lstrip_ws_fixed (s : string) :
  (forall c, head s = Some c -> is_space c = false) ->
  Jose.lstrip_ws s = s.
Proof.
  destruct s as [|a t]; simpl; [reflexivity|].
  intros H. now rewrite (H a eq_refl).
Qed.

Lemma prefix_head (c : ascii) (k s : string) :
  prefix (String c k) s = true -> head s = Some c.
Proof.
  destruct s as [|a t]; simpl; [discriminate|].
  destruct (ascii_dec c a); [now subst | discriminate].
Qed.

(** A stripped text that starts with a letter is left as it is by
    [strip]. *)
Lemma strip_fixed (s : string) (c : ascii) :
  head (strip s) = Some c -> is_space c = false -> strip (strip s) = strip s.
Proof.
  intros Hh Hc. unfold strip at 1.
  rewrite lstrip_ws_fixed.
  - unfold strip. apply rstrip_ws_idem.
  - intros c' Hc'. rewrite Hh in Hc'. now injection Hc' as <-.
Qed.

(** X11.  Every URL that [sanitize_url] returns is the input without its
    surrounding white space, starts with [http://] or [https://] in
    lower case, holds none of [javascript:], [data:] and [vbscript:] in
    any case and at any place, and is returned unchanged when sanitized
    again. *)
Theorem sanitize_url_accepted :
  forall url r : string,
    is_ascii url = true ->
    sanitize_url url = Return r ->
    r = strip url
    /\ (prefix "http://" r = true \/ prefix "https://" r = true)
    /\ (forall protocol, In protocol DANGEROUS_PROTOCOLS ->
                         contains protocol (lower r) = false)
    /\ sanitize_url r = Return r.
Proof.
  intros url r _. unfold sanitize_url at 1.
  destruct (prefix "http://" (strip url) || prefix "https://" (strip url))
    eqn:Hp; simpl negb; cbv iota; [|discriminate].
  destruct (find _ DANGEROUS_PROTOCOLS) as [p|] eqn:Hf; [discriminate|].
  intros [= <-]. split; [reflexivity|].
  split; [now apply orb_true_iff|].
  split; [intros p Hin; exact (find_none _ _ Hf p Hin)|].
  assert (Hs : strip (strip url) = strip url).
  { apply strip_fixed with (c := "h"%char); [|reflexivity].
    apply orb_true_iff in Hp as [Hp|Hp]; exact (prefix_head _ _ _ Hp). }
  unfold sanitize_url. now rewrite Hs, Hp, Hf.
Qed.

Lemma sanitize_url_accepted_witness :
  is_ascii "  https://example.org/films?id=7 " = true
  /\ sanitize_url "  https://example.org/films?id=7 "
     = Return "https://example.org/films?id=7"
  /\ sanitize_url "https://example.org/films?id=7"
     = Return "https://example.org/films?id=7".
Proof.
  split; [reflexivity|]. split; [reflexivity|].
  exact (proj2 (proj2 (proj2
           (sanitize_url_accepted "  https://example.org/films?id=7 "
              "https://example.org/films?id=7" eq_refl eq_refl)))).
Defined.

(** The protocol markers are looked for in the whole URL: an address
    whose path or query holds one of them is refused. *)
Lemma sanitize_url_marker_anywhere (url : string) :
  (exists protocol, In protocol DANGEROUS_PROTOCOLS
                    /\ contains protocol (lower (strip url)) = true) ->
  raises (sanitize_url url) = true.
Proof.
  intros (p & Hin & Hc). unfold sanitize_url.
  destruct (negb _); [reflexivity|].
  destruct (find _ DANGEROUS_PROTOCOLS) as [p'|] eqn:Hf; [reflexivity|].
  rewrite (find_none _ _ Hf p Hin) in Hc. discriminate.
Qed.

End UrlFacts.

(** ** File names: what comes back *)

Section FilenameResultFacts.
Import PyStr Re PathSanitizer.

Lemma map_chars_length (f : ascii -> ascii) (s : string) :
  length (map_chars f s) = length s.
Proof. induction s as [|a t IH]; simpl; [reflexivity | now rewrite IH]. Qed.

Lemma all_chars_app (p : ascii -> bool) (a b : string) :
  all_chars p (a ++ b) = all_chars p a && all_chars p b.
Proof.
  induction a as [|x t IH]; simpl; [reflexivity|].
  now rewrite IH, andb_assoc.
Qed.

Lemma all_chars_take (p : ascii -> bool) (n : nat) (s : string) :
  all_chars p s = true -> all_chars p (take n s) = true.
Proof.
  revert n; induction s as [|a t IH]; intros [|n] H; simpl in *;
    try reflexivity.
  apply andb_true_iff in H as [Ha Ht]. now rewrite Ha, IH.
Qed.

Lemma all_chars_before_last (p : ascii -> bool) (c : ascii) (s : string) :
  all_chars p s = true -> all_chars p (before_last c s) = true.
Proof.
  induction s as [|a t IH]; simpl; [reflexivity|]. intros H.
  apply andb_true_iff in H as [Ha Ht].
  destruct (any_char (Ascii.eqb c) t); simpl; [now rewrite Ha, IH | reflexivity].
Qed.

Lemma all_chars_after_last (p : ascii -> bool) (c : ascii) (s : string) :
  all_chars p s = true -> all_chars p (after_last c s) = true.
Proof.
  induction s as [|a t IH]; simpl; [reflexivity|]. intros H.
  apply andb_true_iff in H as [Ha Ht].
  destruct (any_char (Ascii.eqb c) t); [now apply IH|].
  destruct (Ascii.eqb a c); [exact Ht | simpl; now rewrite Ha, Ht].
Qed.

Lemma take_length_min (n : nat) (s : string) :
  length (take n s) = Nat.min n (length s).
Proof.
  revert s; induction n as [|n IH]; intros [|a t]; simpl; try reflexivity.
  now rewrite IH.
Qed.

Lemma take_length (n : nat) (s : string) : length (take n s) <= n.
Proof.
  revert s; induction n as [|n IH]; intros [|a t]; simpl; try lia.
  specialize (IH t). lia.
Qed.

Lemma cleaned_name_chars (s : string) :
  all_chars name_char (sub_class not_name_char "_" s) = true.
Proof.
  unfold sub_class. induction s as [|a t IH]; simpl; [reflexivity|].
  rewrite IH, andb_true_r. unfold not_name_char. fold (name_char a).
  destruct (name_char a) eqn:E; simpl; [exact E | reflexivity].
Qed.

Lemma after_last_length (c : ascii) (s : string) :
  length (after_last c s) <= length s.
Proof.
  induction s as [|a t IH]; simpl; [lia|].
  destruct (any_char (Ascii.eqb c) t); [lia|].
  destruct (Ascii.eqb a c); simpl; lia.
Qed.

Lemma any_char_map_same (f : ascii -> ascii) (c : ascii) (t : string) :
  (forall a, Ascii.eqb c (f a) = Ascii.eqb c a) ->
  any_char (Ascii.eqb c) (map_chars f t) = any_char (Ascii.eqb c) t.
Proof.
  intros H. induction t as [|b u IHu]; simpl; [reflexivity|].
  now rewrite H, IHu.
Qed.

Lemma after_last_map (f : ascii -> ascii) (c : ascii) (s : string) :
  (forall a, Ascii.eqb c (f a) = Ascii.eqb c a) ->
  length (after_last c (map_chars f s)) = length (after_last c s).
Proof.
  intros H. induction s as [|a t IH]; [reflexivity|].
  cbn [map_chars after_last].
  rewrite (any_char_map_same f c t H).
  destruct (any_char (Ascii.eqb c) t); [exact IH|].
  rewrite (Ascii.eqb_sym (f a) c), H, (Ascii.eqb_sym a c).
  destruct (Ascii.eqb c a); cbn [length]; now rewrite map_chars_length.
Qed.

Lemma clean_keeps_dot (a : ascii) :
  Ascii.eqb "." (if not_name_char a then "_"%char else a) = Ascii.eqb "." a.
Proof.
  unfold not_name_char.
  destruct (Ascii.eqb "." a) eqn:E.
  - apply Ascii.eqb_eq in E. now subst a.
  - destruct (negb _); [reflexivity | exact E].
Qed.

(** X12.  Every name that [sanitize_filename] returns is made of word
    characters, dots and dashes only.  Its length is at most 251 plus
    the length of the extension of the last path component, the
    extension being empty when that component has no dot; so it is at
    most 255 when the extension has at most four characters, and at
    most 250 when a name without a dot had to be cut.  (With a longer
    extension the name can be longer than 255: only the part before the
    last dot is cut, to 250 characters.) *)
Theorem sanitize_filename_result :
  forall filename r : string,
    is_ascii filename = true ->
    sanitize_filename filename = Return r ->
    all_chars name_char r = true
    /\ length r <= Nat.max 255 (251 + length (extension filename))
    /\ (length (extension filename) <= 4 -> length r <= 255)
    /\ (contains "." (basename filename) = false ->
        length r <= length (basename filename)
        /\ (255 < length (basename filename) -> length r = 250)).
Proof.
  intros filename r _. unfold sanitize_filename, extension.
  fold (basename filename).
  destruct (find _ FORBIDDEN_CHARS); [discriminate|].
  set (cleaned := sub_class not_name_char "_" (basename filename)).
  pose proof (cleaned_name_chars (basename filename)) as Hc. fold cleaned in Hc.
  assert (Hext : length (after_last "." cleaned)
                 = length (after_last "." (basename filename))).
  { unfold cleaned, sub_class. apply after_last_map. apply clean_keeps_dot. }
  assert (Hdot : contains "." cleaned = contains "." (basename filename)).
  { rewrite !contains_one. unfold cleaned, sub_class.
    apply any_char_map_same. apply clean_keeps_dot. }
  assert (Hsame : length cleaned = length (basename filename)).
  { unfold cleaned, sub_class. apply map_chars_length. }
  rewrite Hdot.
  destruct (Nat.ltb 255 (length cleaned)) eqn:Hlen.
  - apply Nat.ltb_lt in Hlen.
    destruct (contains "." (basename filename)) eqn:Hd.
    + pose proof (take_length 250 (before_last "." cleaned)) as Ht.
      assert (Hcut : all_chars name_char (take 250 (before_last "." cleaned))
                     = true)
        by now apply all_chars_take, all_chars_before_last.
      set (cut := take 250 (before_last "." cleaned)) in *.
      intros [= <-].
      assert (Hchars : all_chars name_char
                (cut ++ (if is_empty (after_last "." cleaned) then ""
                         else "." ++ after_last "." cleaned)) = true).
      { rewrite all_chars_app. apply andb_true_iff. split; [exact Hcut|].
        destruct (is_empty (after_last "." cleaned)); [reflexivity|].
        simpl. now apply all_chars_after_last. }
      assert (Hbound : length
                (cut ++ (if is_empty (after_last "." cleaned) then ""
                         else "." ++ after_last "." cleaned))
                <= 251 + length (after_last "." (basename filename))).
      { rewrite append_length.
        destruct (is_empty (after_last "." cleaned));
          cbn [append length]; lia. }
      split; [exact Hchars|].
      split; [eapply Nat.le_trans; [exact Hbound | lia]|].
      split; [intros H4; eapply Nat.le_trans; [exact Hbound | lia]|].
      discriminate.
    + pose proof (take_length_min 250 cleaned) as Ht.
      assert (Hcut : all_chars name_char (take 250 cleaned) = true)
        by now apply all_chars_take.
      set (cut := take 250 cleaned) in *.
      change (if is_empty "" then "" else "." ++ "") with "".
      rewrite append_nil_r. intros [= <-].
      split; [exact Hcut|].
      split; [lia|]. split; [lia|]. intros _. split; lia.
  - intros [= <-]. apply Nat.ltb_ge in Hlen. split; [exact Hc|].
    split; [lia|]. split; [intros _; exact Hlen|].
    intros _. split; lia.
Qed.

Lemma sanitize_filename_result_witness :
  is_ascii "reports/q1 summary (final).csv" = true
  /\ sanitize_filename "reports/q1 summary (final).csv"
     = Return "q1_summary__final_.csv"
  /\ all_chars name_char "q1_summary__final_.csv" = true.
Proof.
  split; [reflexivity|]. split; [reflexivity|].
  exact (proj1 (sanitize_filename_result "reports/q1 summary (final).csv"
                  "q1_summary__final_.csv" eq_refl eq_refl)).
Defined.

End FilenameResultFacts.

(** ** The two read-only checks of the repository *)

Section ValidatorFacts.
Import PyStr Re QueryOptimizer.

(** A search over a list of keywords finds nothing exactly when the
    query has none of them as a whole word. *)
Lemma find_keyword_none (l : list string) (q : string) :
  (forall kw, In kw l ->
              word_opt (head kw) = true /\ word_opt (last_char kw) = true) ->
  (find (fun kw => search (keyword_re kw) (upper q)) l = None
   <-> forall kw, In kw l -> ~ has_word kw q).
Proof.
  intros Hw. split.
  - intros Hf kw Hin Hhas. destruct (Hw kw Hin) as [Hh Hl].
    apply (keyword_search_spec kw q Hh Hl) in Hhas.
    pose proof (find_none _ _ Hf kw Hin) as Hn. cbv beta in Hn. congruence.
  - intros Hnone.
    destruct (find _ l) as [kw|] eqn:Hf; [|reflexivity].
    apply find_some in Hf as [Hin Hs]. destruct (Hw kw Hin) as [Hh Hl].
    apply (keyword_search_spec kw q Hh Hl) in Hs. now elim (Hnone kw Hin).
Qed.

Lemma write_keywords_words (kw : string) :
  In kw CypherValidator.WRITE_KEYWORDS ->
  word_opt (head kw) = true /\ word_opt (last_char kw) = true.
Proof.
  unfold CypherValidator.WRITE_KEYWORDS. simpl.
  intros H; repeat (destruct H as [<-|H]; [split; reflexivity|]).
  contradiction.
Qed.

(** X13.  [CypherValidator.is_read_only] and [QueryOptimizer.is_read_only]
    (with read-only mode on) give the same verdict on every (ASCII) query
    but those that have DETACH as a whole word: the validator accepts a
    query exactly when the optimizer accepts it and the query has no
    whole word DETACH.  So the validator never accepts what the optimizer
    refuses. *)
Theorem validator_stricter_than_optimizer :
  forall (cfg : Settings) (q : string),
    enable_read_only_mode cfg = true ->
    is_ascii q = true ->
    (fst (CypherValidator.is_read_only q) = true
     <-> fst (is_read_only cfg q) = true /\ ~ has_word "DETACH" q).
Proof.
  intros cfg q Hen _.
  assert (HV : fst (CypherValidator.is_read_only q) = true
               <-> forall kw, In kw CypherValidator.WRITE_KEYWORDS ->
                              ~ has_word kw q).
  { rewrite <- (find_keyword_none _ q write_keywords_words).
    unfold CypherValidator.is_read_only.
    destruct (find _ CypherValidator.WRITE_KEYWORDS); simpl;
      split; congruence. }
  assert (HO : fst (is_read_only cfg q) = true
               <-> forall kw, In kw DANGEROUS_KEYWORDS -> ~ has_word kw q).
  { rewrite <- (find_keyword_none _ q dangerous_keywords_words).
    unfold is_read_only. rewrite Hen. simpl negb. cbv iota.
    destruct (find _ DANGEROUS_KEYWORDS); simpl; split; congruence. }
  rewrite HV, HO. unfold CypherValidator.WRITE_KEYWORDS, DANGEROUS_KEYWORDS.
  split.
  - intros H. split.
    + intros kw Hin. simpl in Hin.
      repeat (destruct Hin as [<-|Hin]; [apply H; simpl; tauto|]).
      destruct Hin as [<-|[]]. intros Hdd.
      apply has_word_detach_delete in Hdd. revert Hdd. apply H. simpl. tauto.
    + apply H. simpl. tauto.
  - intros [H Hd] kw Hin. simpl in Hin.
    repeat (destruct Hin as [<-|Hin]; [apply H; simpl; tauto|]).
    destruct Hin as [<-|[]]. exact Hd.
Qed.

Lemma validator_stricter_than_optimizer_witness :
  enable_read_only_mode default_settings = true
  /\ is_ascii "MATCH (n) RETURN n.detach" = true
  /\ (fst (CypherValidator.is_read_only "MATCH (n) RETURN n.detach") = true
      <-> fst (is_read_only default_settings "MATCH (n) RETURN n.detach")
          = true
          /\ ~ has_word "DETACH" "MATCH (n) RETURN n.detach").
Proof.
  split; [reflexivity|]. split; [reflexivity|].
  exact (validator_stricter_than_optimizer default_settings
           "MATCH (n) RETURN n.detach" eq_refl eq_refl).
Defined.

End ValidatorFacts.

(** ** The cache: what is stored is found again *)

Section CacheStoreFacts.
Import PyStr PyDict Json CacheService CacheStore.

Variable S : Type.
Variable r_get : S -> string -> result (option string).
Variable r_setex : S -> string -> Z -> string -> result S.
Variable loads : string -> result pyval.

(** The server returns under a key the text last stored under it. *)
Hypothesis server_keeps :
  forall st k lifetime data st',
    r_setex st k lifetime data = Return st' ->
    r_get st' k = Return (Some data).

Lemma dumps_plain_nonempty (v : pyval) : is_empty (dumps_plain v) = false.
Proof.
  destruct v as [|[]|z|s|l|l|d]; try reflexivity.
  unfold dumps_plain, str_of_int.
  destruct (Z.to_int z) as [u|u]; simpl.
  - destruct u; reflexivity.
  - reflexivity.
Qed.

(** X14.  A successful [set] under a query and parameters makes [get] under
    the same query and the same parameters, inserted in any order,
    return what [json.loads] reads from the stored text; when
    [json.loads] reads the value back, [get] returns the value. *)
Theorem cache_set_then_get :
  forall (self : CacheStore.t) (st st' : S) (query : string) (value : pyval)
         (p1 p2 : dict pyval) (ttl_arg : option Z),
    wf p1 -> Permutation p1 p2 ->
    set S r_setex self st query value (Some p1) ttl_arg = (true, st') ->
    get S r_get loads self st' query (Some p2)
    = match loads (dumps_plain value) with
      | Return v => v
      | Raise _ => PNone
      end.
Proof.
  intros self st st' query value p1 p2 ttl_arg Hwf P. unfold set, get.
  destruct (enabled self); simpl negb; cbv iota; [|discriminate].
  destruct (r_setex st (_generate_key query (Some p1))
              (lifetime self ttl_arg) (dumps_plain value))
    as [st1|e] eqn:Es; [|discriminate].
  intros [= <-].
  assert (Hk : _generate_key query (Some p2) = _generate_key query (Some p1)).
  { unfold _generate_key, key_data, or_empty.
    now rewrite (dumps_dict_order p1 p2 Hwf P). }
  rewrite Hk, (server_keeps _ _ _ _ _ Es).
  now rewrite dumps_plain_nonempty.
Qed.

End CacheStoreFacts.

Lemma cache_set_then_get_witness :
  let self := {| CacheStore.enabled := true; CacheStore.ttl := 3600 |} in
  let p1 := [("context", Json.PStr "films"); ("lang", Json.PStr "fr")] in
  let p2 := [("lang", Json.PStr "fr"); ("context", Json.PStr "films")] in
  let stored :=
    CacheStore.set (PyDict.dict string) CacheStore.mem_setex self []
      "Which films?" CacheStore.sample_value (Some p1) None in
  PyDict.wf p1
  /\ Permutation p1 p2
  /\ fst stored = true
  /\ CacheStore.get (PyDict.dict string) CacheStore.mem_get
       CacheStore.sample_loads self (snd stored) "Which films?" (Some p2)
     = CacheStore.sample_value.
Proof.
  intros self p1 p2 stored.
  assert (Hwf : PyDict.wf p1).
  { unfold PyDict.wf, PyDict.keys. simpl.
    repeat constructor; simpl; intuition discriminate. }
  assert (P : Permutation p1 p2) by apply perm_swap.
  assert (Hkeeps : forall st k lifetime data st',
            CacheStore.mem_setex st k lifetime data = Return st' ->
            CacheStore.mem_get st' k = Return (Some data)).
  { intros st k lifetime data st' [= <-]. unfold CacheStore.mem_get.
    now rewrite get_set_same. }
  split; [exact Hwf|]. split; [exact P|]. split; [reflexivity|].
  exact (cache_set_then_get (PyDict.dict string) CacheStore.mem_get
           CacheStore.mem_setex CacheStore.sample_loads Hkeeps self []
           (snd stored) "Which films?" CacheStore.sample_value p1 p2 None
           Hwf P eq_refl).
Defined.

(** ** E-mail addresses *)

Section EmailFacts.
Import PyStr Re Sanitizers EmailSanitizer.

Local Ltac bsplit :=
  repeat match goal with
         | H : _ && _ = true |- _ => apply andb_true_iff in H as [? ?]
         | H : _ || _ = true |- _ => apply orb_true_iff in H as [?|?]
         end.

Lemma match_end_finish (s : string) :
  is_empty s || String.eqb s (String newline "") = true ->
  s = "" \/ s = String newline "".
Proof.
  intros H. apply orb_true_iff in H as [H|H].
  - left. now destruct s.
  - right. now apply String.eqb_eq.
Qed.

(** What the anchored procedure accepts is matched by the pattern up to
    the end of the text, a final newline apart. *)
Lemma match_end_sound (s : string) :
  forall prev r,
    match_end s prev r = true ->
    exists m rest,
      s = m ++ rest /\ Matches prev r m rest
      /\ (rest = "" \/ rest = String newline "").
Proof.
  induction s as [|x t IHs]; intros prev r; revert prev;
    induction r as [|a r' IHr]; intros prev H.
  - exists "", "". repeat split; [constructor | now left].
  - destruct a; simpl in H; try discriminate. bsplit.
    destruct (IHr prev) as (m & rest & E & HM & Hr); [assumption|].
    exists m, rest. repeat split; try assumption.
    constructor; [|exact HM]. now rewrite <- E.
  - exists "", (String x t). repeat split; [constructor|].
    now apply match_end_finish.
  - destruct a; simpl in H; bsplit.
    + destruct (IHr prev) as (m & rest & E & HM & Hr); [assumption|].
      exists m, rest. repeat split; try assumption.
      constructor; [|exact HM]. now rewrite <- E.
    + destruct (IHs _ _ H0) as (m & rest & E & HM & Hr).
      apply Ascii.eqb_eq in H; subst c.
      exists (String x m), rest.
      repeat split; [simpl; now rewrite E | now constructor | exact Hr].
    + destruct (IHs _ _ H0) as (m & rest & E & HM & Hr).
      exists (String x m), rest.
      repeat split; [simpl; now rewrite E | now constructor | exact Hr].
    + destruct (IHs _ _ H0) as (m & rest & E & HM & Hr).
      exists (String x m), rest.
      repeat split; [simpl; now rewrite E | now constructor | exact Hr].
    + destruct (IHs _ _ H0) as (m & rest & E & HM & Hr).
      exists (String x m), rest.
      repeat split; [simpl; now rewrite E | now apply M_plus_more | exact Hr].
    + destruct (IHs _ _ H0) as (m & rest & E & HM & Hr).
      exists (String x m), rest.
      repeat split; [simpl; now rewrite E | now apply M_plus_last | exact Hr].
Qed.

Lemma email_re_matches (prev : option ascii) (m rest : string) :
  Matches prev EMAIL_RE m rest -> email_shape m.
Proof.
  unfold EMAIL_RE. intros H.
  apply matches_plus in H as (name & m1 & -> & Hn & Hnc & H).
  change (Chr "@" :: ?r) with (lit "@" ++ r)%list in H.
  apply matches_lit in H as (m2 & -> & H).
  apply matches_plus in H as (domain & m3 & -> & Hd & Hdc & H).
  change (Chr "." :: ?r) with (lit "." ++ r)%list in H.
  apply matches_lit in H as (m4 & -> & H).
  apply matches_plus in H as (label & m5 & -> & Hl & Hlc & H).
  apply matches_nil in H as ->. rewrite append_nil_r.
  exists name, domain, label. now repeat split.
Qed.

Lemma lstrip_ws_head (s : string) (c : ascii) :
  head (Jose.lstrip_ws s) = Some c -> is_space c = false.
Proof.
  induction s as [|a t IH]; simpl; [discriminate|].
  destruct (is_space a) eqn:E; [exact IH|]. simpl. now intros [= <-].
Qed.

Lemma rstrip_ws_last (s : string) (c : ascii) :
  last_char (Jose.rstrip_ws s) = Some c -> is_space c = false.
Proof.
  induction s as [|a t IH]; simpl; [discriminate|].
  destruct (is_empty (Jose.rstrip_ws t) && is_space a) eqn:E;
    [discriminate|].
  unfold last_char in *. simpl.
  destruct (Jose.rstrip_ws t) as [|b u] eqn:R; simpl in *.
  - intros [= <-]. exact E.
  - exact IH.
Qed.

(** [strip] does nothing to a text that is already stripped. *)
Lemma strip_idem (s : string) : strip (strip s) = strip s.
Proof.
  unfold strip at 1. rewrite lstrip_ws_fixed.
  - unfold strip. apply rstrip_ws_idem.
  - intros c Hc. unfold strip in Hc.
    destruct (Jose.rstrip_ws (Jose.lstrip_ws s)) eqn:E; [discriminate|].
    rewrite <- E in Hc. rewrite rstrip_ws_head in Hc by (rewrite E; discriminate).
    now apply (lstrip_ws_head s).
Qed.

Lemma is_space_lower (c : ascii) : is_space (lower_char c) = is_space c.
Proof.
  apply Bool.eqb_prop. revert c. apply forall_ascii. vm_compute. reflexivity.
Qed.

Lemma lower_char_idem (c : ascii) : lower_char (lower_char c) = lower_char c.
Proof.
  apply Ascii.eqb_eq. revert c. apply forall_ascii. vm_compute. reflexivity.
Qed.

Lemma lower_idem (s : string) : lower (lower s) = lower s.
Proof.
  unfold lower. induction s as [|a t IH]; simpl; [reflexivity|].
  now rewrite IH, lower_char_idem.
Qed.

Lemma lstrip_ws_lower (s : string) :
  Jose.lstrip_ws (lower s) = lower (Jose.lstrip_ws s).
Proof.
  unfold lower. induction s as [|a t IH]; simpl; [reflexivity|].
  rewrite is_space_lower. now destruct (is_space a).
Qed.

Lemma rstrip_ws_lower (s : string) :
  Jose.rstrip_ws (lower s) = lower (Jose.rstrip_ws s).
Proof.
  unfold lower. induction s as [|a t IH]; simpl; [reflexivity|].
  rewrite IH, is_space_lower.
  destruct (Jose.rstrip_ws t); simpl; [|reflexivity].
  now destruct (is_space a).
Qed.

Lemma strip_lower (s : string) : strip (lower s) = lower (strip s).
Proof. unfold strip. now rewrite lstrip_ws_lower, rstrip_ws_lower. Qed.

Lemma last_char_lower (s : string) (c : ascii) :
  last_char (lower s) = Some c ->
  exists c', last_char s = Some c' /\ c = lower_char c'.
Proof.
  unfold last_char, lower. generalize (@None ascii) at 2.
  assert (G : forall o o', (forall c, o' = Some c ->
                exists c', o = Some c' /\ c = lower_char c') ->
              last_or o' (map_chars lower_char s) = Some c ->
              exists c', last_or o s = Some c' /\ c = lower_char c').
  { induction s as [|a t IH]; intros o o' Ho; simpl.
    - apply Ho.
    - apply IH. intros c0 [= <-]. now exists a. }
  intros o. apply G. discriminate.
Qed.

(** X15.  Every address that [sanitize_email] returns is the input in lower
    case without its surrounding white space, has the shape
    [name@domain.label] with exactly the characters of the pattern, and
    is returned unchanged when sanitized again. *)
Theorem sanitize_email_accepted :
  forall email r : string,
    is_ascii email = true ->
    sanitize_email email = Return r ->
    r = lower (strip email)
    /\ email_shape r
    /\ sanitize_email r = Return r.
Proof.
  intros email r _. unfold sanitize_email at 1.
  destruct (match_end (lower (strip email)) None EMAIL_RE) eqn:Hm;
    simpl negb; cbv iota; [|discriminate].
  intros [= <-]. split; [reflexivity|]. split.
  - destruct (match_end_sound _ _ _ Hm) as (m & rest & E & HM & [ -> | -> ]).
    + rewrite append_nil_r in E. rewrite E.
      exact (email_re_matches _ _ _ HM).
    + exfalso.
      assert (Hl : last_char (lower (strip email)) = Some newline).
      { rewrite E. unfold last_char. now rewrite last_or_app. }
      apply last_char_lower in Hl as (c' & Hl & Hc).
      apply rstrip_ws_last in Hl.
      rewrite <- is_space_lower, <- Hc in Hl. discriminate.
  - unfold sanitize_email.
    now rewrite strip_lower, strip_idem, lower_idem, Hm.
Qed.

Lemma sanitize_email_accepted_witness :
  is_ascii "  John.Doe@Example.ORG " = true
  /\ sanitize_email "  John.Doe@Example.ORG " = Return "john.doe@example.org"
  /\ sanitize_email "john.doe@example.org" = Return "john.doe@example.org".
Proof.
  split; [reflexivity|]. split; [reflexivity|].
  exact (proj2 (proj2
           (sanitize_email_accepted "  John.Doe@Example.ORG "
              "john.doe@example.org" eq_refl eq_refl))).
Defined.

End EmailFacts.

(** ** Password policy: what is accepted *)

Section PasswordAcceptance.
Import PyStr Re PasswordValidator.

(** X16.  A password is accepted exactly when it meets every requirement the
    policy switches on: the minimum length, and an upper-case letter, a
    lower-case letter, a digit and a special character where required. *)
Theorem validate_accepts_iff :
  forall (cfg : Settings) (password : string),
    is_ascii password = true ->
    (fst (validate cfg password) = true
     <-> (password_min_length cfg <= Z.of_nat (length password))%Z
         /\ (password_require_uppercase cfg = true ->
             any_char is_upper_az password = true)
         /\ (password_require_lowercase cfg = true ->
             any_char is_lower_az password = true)
         /\ (password_require_digit cfg = true ->
             any_char is_digit password = true)
         /\ (password_require_special cfg = true ->
             any_char is_special password = true)).
Proof.
  intros cfg password _. rewrite validate_flag, validate_filter.
  unfold rules. cbn [filter violated].
  destruct (Z.ltb_spec (Z.of_nat (length password)) (password_min_length cfg))
    as [Hlt|Hge].
  { split; [discriminate | intros [H _]; lia]. }
  destruct (password_require_uppercase cfg);
    destruct (any_char is_upper_az password); cbn [andb negb];
    try (split; [discriminate | intros (_ & H & _); now specialize (H eq_refl)]);
  destruct (password_require_lowercase cfg);
    destruct (any_char is_lower_az password); cbn [andb negb];
    try (split; [discriminate
                | intros (_ & _ & H & _); now specialize (H eq_refl)]);
  destruct (password_require_digit cfg);
    destruct (any_char is_digit password); cbn [andb negb];
    try (split; [discriminate
                | intros (_ & _ & _ & H & _); now specialize (H eq_refl)]);
  destruct (password_require_special cfg);
    destruct (any_char is_special password); cbn [andb negb];
    try (split; [discriminate
                | intros (_ & _ & _ & _ & H); now specialize (H eq_refl)]);
  (split; [intros _; repeat split; try assumption; intros; congruence
          | reflexivity]).
Qed.

Lemma validate_accepts_iff_witness :
  is_ascii "Tr0ub4dor&3" = true
  /\ fst (validate default_settings "Tr0ub4dor&3") = true
  /\ any_char is_special "Tr0ub4dor&3" = true.
Proof.
  split; [reflexivity|]. split; [reflexivity|].
  exact (proj2 (proj2 (proj2 (proj2
           (proj1 (validate_accepts_iff default_settings "Tr0ub4dor&3"
                     eq_refl) eq_refl)))) eq_refl).
Defined.

End PasswordAcceptance.

(** ** More examples *)

Section MoreExamples.
Import PyStr Re PathSanitizer Jose TokenManager.

Lemma sanitize_filename_clean_witness :
  all_chars name_char "annual-report_2025.v2.csv" = true
  /\ contains ".." "annual-report_2025.v2.csv" = false
  /\ length "annual-report_2025.v2.csv" <= 255
  /\ sanitize_filename "annual-report_2025.v2.csv"
     = Return "annual-report_2025.v2.csv".
Proof.
  assert (Hl : length "annual-report_2025.v2.csv" <= 255) by (simpl; lia).
  split; [reflexivity|]. split; [reflexivity|]. split; [exact Hl|].
  exact (sanitize_filename_clean "annual-report_2025.v2.csv"
           eq_refl eq_refl Hl).
Defined.

Lemma verify_token_expired_witness :
  (1767227400 < 1767230000)%Z
  /\ verify_token default_settings
       (Jwt "HS256" "secret"
          [("sub", Str "x"); ("exp", Int 1767227400);
           ("iat", Int 1767225600); ("type", Str "access")])
       "access" 1767230000
     = Raise (UnauthorizedError "Token expiré").
Proof.
  assert (H : (1767227400 < 1767230000)%Z) by lia.
  split; [exact H|].
  exact (verify_token_expired default_settings
           [("sub", Str "x"); ("exp", Int 1767227400);
            ("iat", Int 1767225600); ("type", Str "access")]
           1767227400%Z "access" 1767230000%Z eq_refl eq_refl eq_refl H).
Defined.

End MoreExamples.

(** ** Helpers *)

Section HelperFacts.
Import PyStr PyDict Helpers.

(** X21.  On ASCII text, where the length in bytes is the length in
    characters, and with room for the three dots, [truncate_string] returns at most
    [max_length] characters: the text itself when it fits, and otherwise
    its first [max_length - 3] characters followed by three dots, which
    is [max_length] characters exactly. *)
Theorem truncate_string_bound :
  forall (s : string) (max_length : Z),
    is_ascii s = true ->
    (3 <= max_length)%Z ->
    (Z.of_nat (length (truncate_string s max_length)) <= max_length)%Z
    /\ ((Z.of_nat (length s) <= max_length)%Z ->
        truncate_string s max_length = s)
    /\ ((max_length < Z.of_nat (length s))%Z ->
        truncate_string s max_length
        = take (Z.to_nat (max_length - 3)) s ++ "..."
        /\ Z.of_nat (length (truncate_string s max_length)) = max_length).
Proof.
  intros s m _ Hm. unfold truncate_string, slice_to.
  destruct (Z.leb_spec (Z.of_nat (length s)) m) as [Hfit|Hlong].
  - split; [exact Hfit|]. split; [reflexivity|]. intros Hlong. lia.
  - replace (Z.leb 0 (m - 3)) with true by (symmetry; apply Z.leb_le; lia).
    assert (Hlen : Z.of_nat (length (take (Z.to_nat (m - 3)) s ++ "...")) = m).
    { rewrite append_length, take_length_min. simpl length. lia. }
    split; [lia|]. split; [intros Hfit; lia|].
    intros _. split; [reflexivity | exact Hlen].
Qed.

Lemma truncate_string_bound_witness :
  is_ascii "MATCH (n) RETURN n" = true
  /\ (3 <= 10)%Z
  /\ truncate_string "MATCH (n) RETURN n" 10 = "MATCH (..."
  /\ (Z.of_nat (length (truncate_string "MATCH (n) RETURN n" 10)) <= 10)%Z.
Proof.
  assert (H : (3 <= 10)%Z) by lia.
  split; [reflexivity|]. split; [exact H|]. split; [reflexivity|].
  exact (proj1 (truncate_string_bound "MATCH (n) RETURN n" 10%Z eq_refl H)).
Defined.

Variable V : Type.

Lemma get_absent (d : dict V) (k : string) :
  ~ In k (keys d) -> get d k = None.
Proof.
  induction d as [|[k' v] t IH]; simpl; [reflexivity|].
  intros H. destruct (String.eqb k' k) eqn:E.
  - apply String.eqb_eq in E. subst. elim H. now left.
  - apply IH. intros Hin. apply H. now right.
Qed.

(** After [a.update(b)] a key has the value [b] gives it, and the value
    it had in [a] when [b] does not have it. *)
Lemma get_update (b : dict V) :
  forall (a : dict V) (k : string),
    wf b ->
    get (update a b) k
    = match get b k with
      | Some v => Some v
      | None => get a k
      end.
Proof.
  unfold update.
  induction b as [|[k' v'] t IH]; intros a k Hwf; simpl; [reflexivity|].
  inversion Hwf as [|? ? Hnin Hwf']; subst.
  rewrite (IH _ _ Hwf'). destruct (String.eqb k' k) eqn:E.
  - apply String.eqb_eq in E. subst k'.
    rewrite (get_absent t k Hnin). apply get_set_same.
  - destruct (get t k); [reflexivity|].
    apply get_set_other. now apply String.eqb_neq.
Qed.

(** X22.  In [merge_dicts] the last dictionary that has a key decides its
    value: adding one more dictionary gives its values to its keys and
    leaves the other keys as they were. *)
Theorem merge_dicts_last_wins :
  forall (dicts : list (dict V)) (d : dict V) (k : string),
    wf d ->
    get (merge_dicts (dicts ++ [d])) k
    = match get d k with
      | Some v => Some v
      | None => get (merge_dicts dicts) k
      end.
Proof.
  intros dicts d k Hwf. unfold merge_dicts.
  rewrite fold_left_app. simpl. now apply get_update.
Qed.

End HelperFacts.

Lemma merge_dicts_last_wins_witness :
  PyDict.wf [("limit", 5%Z); ("skip", 0%Z)]
  /\ PyDict.get
       (Helpers.merge_dicts
          ([[("limit", 100%Z); ("order", 1%Z)]]
             ++ [[("limit", 5%Z); ("skip", 0%Z)]])) "limit"
     = Some 5%Z.
Proof.
  assert (Hwf : PyDict.wf [("limit", 5%Z); ("skip", 0%Z)]).
  { unfold PyDict.wf, PyDict.keys. simpl.
    repeat constructor; simpl; intuition discriminate. }
  split; [exact Hwf|].
  exact (merge_dicts_last_wins Z [[("limit", 100%Z); ("order", 1%Z)]]
           [("limit", 5%Z); ("skip", 0%Z)] "limit" Hwf).
Defined.

(** ** Question cleaning *)

Section QuestionFacts.
Import PyStr Sanitizers QuerySanitizer.

Lemma all_chars_weaken (p q : ascii -> bool) (s : string) :
  (forall c, p c = true -> q c = true) ->
  all_chars p s = true -> all_chars q s = true.
Proof.
  intros Hpq. induction s as [|a t IH]; simpl; [reflexivity|].
  intros H. apply andb_true_iff in H as [Ha Ht].
  now rewrite (Hpq a Ha), IH.
Qed.

Lemma all_chars_not_any (q : ascii -> bool) (s : string) :
  all_chars (fun c => negb (q c)) s = true -> any_char q s = false.
Proof.
  induction s as [|a t IH]; simpl; [reflexivity|].
  intros H. apply andb_true_iff in H as [Ha Ht].
  apply negb_true_iff in Ha. now rewrite Ha, IH.
Qed.

Lemma split_ws_runs (s : string) :
  forall cur,
    all_chars not_space cur = true ->
    Forall (fun p => all_chars not_space p = true) (split_ws cur s).
Proof.
  induction s as [|a t IH]; intros cur Hcur; simpl.
  - destruct (is_empty cur); [constructor | now repeat constructor].
  - destruct (is_space a) eqn:Ea.
    + destruct (is_empty cur).
      * now apply IH.
      * constructor; [exact Hcur | now apply IH].
    + apply IH. rewrite all_chars_app, Hcur. simpl.
      unfold not_space. now rewrite Ea.
Qed.

Lemma join_runs (parts : list string) :
  Forall (fun p => all_chars not_space p = true) parts ->
  any_char odd_space (join " " parts) = false.
Proof.
  intros H. apply all_chars_not_any.
  induction H as [|p rest Hp Hrest IH]; [reflexivity|].
  assert (Hp' : all_chars (fun c => negb (odd_space c)) p = true).
  { revert Hp. apply all_chars_weaken. intros c Hc.
    unfold not_space in Hc. apply negb_true_iff in Hc.
    unfold odd_space. now rewrite Hc. }
  cbn [join]. destruct rest as [|p' rest']; [exact Hp'|].
  rewrite all_chars_app, Hp'. exact IH.
Qed.

Lemma all_chars_slice_to (p : ascii -> bool) (k : Z) (s : string) :
  all_chars p s = true -> all_chars p (Helpers.slice_to k s) = true.
Proof.
  intros H. unfold Helpers.slice_to.
  destruct (Z.leb 0 k); now apply all_chars_take.
Qed.

Lemma all_chars_remove (p q : ascii -> bool) (s : string) :
  all_chars p s = true -> all_chars p (remove_chars q s) = true.
Proof.
  induction s as [|a t IH]; simpl; [reflexivity|]. intros H.
  apply andb_true_iff in H as [Ha Ht].
  destruct (q a); simpl; [now apply IH | now rewrite Ha, IH].
Qed.

Lemma remove_chars_none (q : ascii -> bool) (s : string) :
  all_chars (fun c => negb (q c)) (remove_chars q s) = true.
Proof.
  induction s as [|a t IH]; simpl; [reflexivity|].
  destruct (q a) eqn:E; simpl; [exact IH | now rewrite E, IH].
Qed.

Lemma all_chars_lstrip_ws (p : ascii -> bool) (s : string) :
  all_chars p s = true -> all_chars p (Jose.lstrip_ws s) = true.
Proof.
  induction s as [|a t IH]; simpl; [reflexivity|]. intros H.
  destruct (is_space a); [|exact H].
  apply andb_true_iff in H as [_ Ht]. now apply IH.
Qed.

Lemma all_chars_rstrip_ws (p : ascii -> bool) (s : string) :
  all_chars p s = true -> all_chars p (Jose.rstrip_ws s) = true.
Proof.
  induction s as [|a t IH]; simpl; [reflexivity|]. intros H.
  apply andb_true_iff in H as [Ha Ht].
  destruct (is_empty (Jose.rstrip_ws t) && is_space a); [reflexivity|].
  simpl. now rewrite Ha, IH.
Qed.

Lemma all_chars_strip (p : ascii -> bool) (s : string) :
  all_chars p s = true -> all_chars p (strip s) = true.
Proof.
  intros H. unfold strip.
  now apply all_chars_rstrip_ws, all_chars_lstrip_ws.
Qed.

Lemma any_char_all_negb (q : ascii -> bool) (s : string) :
  any_char q s = false -> all_chars (fun c => negb (q c)) s = true.
Proof.
  induction s as [|a t IH]; simpl; [reflexivity|].
  intros H. apply orb_false_iff in H as [Ha Ht]. now rewrite Ha, IH.
Qed.

Lemma lstrip_ws_length (s : string) :
  length (Jose.lstrip_ws s) <= length s.
Proof.
  induction s as [|a t IH]; simpl; [lia|].
  destruct (is_space a); simpl; lia.
Qed.

Lemma rstrip_ws_length (s : string) :
  length (Jose.rstrip_ws s) <= length s.
Proof.
  induction s as [|a t IH]; simpl; [lia|].
  destruct (is_empty (Jose.rstrip_ws t) && is_space a); simpl; lia.
Qed.

Lemma remove_chars_length (q : ascii -> bool) (s : string) :
  length (remove_chars q s) <= length s.
Proof.
  induction s as [|a t IH]; simpl; [lia|].
  destruct (q a); simpl; lia.
Qed.

(** X23.  What [sanitize_question] returns, for a limit that is not negative:
    it has none of the characters [<], [>], [{] and [}], it is at most
    [max_length] characters long, it neither starts nor ends with white
    space, and the only white space left inside it is the plain space. *)
Theorem sanitize_question_result :
  forall (question : string) (max_length : Z),
    is_ascii question = true ->
    (0 <= max_length)%Z ->
    let r := sanitize_question question max_length in
    any_char angle_or_brace r = false
    /\ (Z.of_nat (length r) <= max_length)%Z
    /\ (forall c, head r = Some c -> is_space c = false)
    /\ (forall c, last_char r = Some c -> is_space c = false)
    /\ any_char odd_space r = false.
Proof.
  intros question m _ Hm. cbv zeta. unfold sanitize_question.
  set (joined := join " " (split_ws "" question)).
  set (cut := if Z.ltb m (Z.of_nat (length joined))
              then Helpers.slice_to m joined else joined).
  assert (Hodd : all_chars (fun c => negb (odd_space c)) joined = true).
  { apply any_char_all_negb, join_runs, split_ws_runs. reflexivity. }
  assert (Hcut : all_chars (fun c => negb (odd_space c)) cut = true).
  { unfold cut. destruct (Z.ltb m (Z.of_nat (length joined)));
      [now apply all_chars_slice_to | exact Hodd]. }
  assert (Hlen : (Z.of_nat (length cut) <= m)%Z).
  { unfold cut. destruct (Z.ltb_spec m (Z.of_nat (length joined))); [|lia].
    unfold Helpers.slice_to.
    replace (Z.leb 0 m) with true by (symmetry; apply Z.leb_le; lia).
    pose proof (take_length (Z.to_nat m) joined). lia. }
  split; [|split; [|split; [|split]]].
  - apply all_chars_not_any, all_chars_strip, remove_chars_none.
  - pose proof (rstrip_ws_length
                  (Jose.lstrip_ws (remove_chars angle_or_brace cut))).
    pose proof (lstrip_ws_length (remove_chars angle_or_brace cut)).
    pose proof (remove_chars_length angle_or_brace cut).
    unfold strip. lia.
  - intros c Hc. unfold strip in Hc.
    destruct (Jose.rstrip_ws
                (Jose.lstrip_ws (remove_chars angle_or_brace cut))) eqn:E;
      [discriminate|].
    rewrite <- E in Hc.
    rewrite rstrip_ws_head in Hc by (rewrite E; discriminate).
    now apply (lstrip_ws_head (remove_chars angle_or_brace cut)).
  - intros c Hc. unfold strip in Hc.
    now apply (rstrip_ws_last
                 (Jose.lstrip_ws (remove_chars angle_or_brace cut))).
  - apply all_chars_not_any, all_chars_strip, all_chars_remove. exact Hcut.
Qed.

Lemma sanitize_question_result_witness :
  is_ascii "  who   <works> at {Acme}?  " = true
  /\ (0 <= 14)%Z
  /\ sanitize_question "  who   <works> at {Acme}?  " 14 = "who works at"
  /\ any_char angle_or_brace
       (sanitize_question "  who   <works> at {Acme}?  " 14) = false.
Proof.
  assert (H : (0 <= 14)%Z) by lia.
  split; [reflexivity|]. split; [exact H|]. split; [reflexivity|].
  exact (proj1 (sanitize_question_result
                  "  who   <works> at {Acme}?  " 14%Z eq_refl H)).
Defined.

End QuestionFacts.
